(** * VR surround sound rotation: the signal-processing core

    A shallow embedding of [rotation.py], [stereo_rotation.py], [upmix.py] and
    of the stream callback of [audio_io.py].

    Conventions of the embedding.
    - Angles (speaker azimuths, yaw, angular distances, pan positions) are
      exact rationals [Q]: every finite Python float or int is a rational, and
      the comparisons that choose channels and branches are then executable.
      Floating-point rounding of the arithmetic is not modelled.
    - Samples and gains are real numbers [R]; [np.cos], [np.sin] and [np.pi]
      are [cos], [sin] and [PI].
    - A two-dimensional numpy array is an [ndarray]: its row count and the
      list of its columns.
    - A Python exception is [None] in the [exc] monad. *)

From Stdlib Require Import Ascii String List ZArith QArith Qabs Qround Qreals.
From Stdlib Require Import Reals Lia Lra Lqa Bool Arith Sorted Permutation.
Import ListNotations.

(** ** Exceptions *)

Definition exc (A : Type) : Type := option A.

Definition raise {A : Type} : exc A := None.

Definition bind {A B : Type} (e : exc A) (k : A -> exc B) : exc B :=
  match e with
  | Some x => k x
  | None => None
  end.

Notation "x <- e ;; k" := (bind e (fun x => k))
  (at level 61, e at next level, right associativity).

(** ** Rational helpers: Python comparisons and the modulo operator *)

Definition Qltb (x y : Q) : bool := negb (Qle_bool y x).

(** Python's [x % m] for a positive modulus: the result has the sign of [m]. *)
Definition pymod (x m : Q) : Q := x - m * inject_Z (Qfloor (x / m)).

(** Python's two-argument [max] and [min]: the first argument is kept unless
    the second one is strictly better. *)
Definition py_max (a b : Q) : Q := if Qltb a b then b else a.
Definition py_min (a b : Q) : Q := if Qltb b a then b else a.

(** ** numpy arrays *)

Record ndarray : Type := mk_ndarray {
  nrows : nat;
  columns : list (list R)
}.

Definition ncols (a : ndarray) : nat := length (columns a).

(** Every column of a genuine array has [nrows] entries. *)
Definition wf_ndarray (a : ndarray) : bool :=
  forallb (fun c => length c =? nrows a) (columns a).

(** [np.zeros((n, m))] *)
Definition zeros (n m : nat) : ndarray :=
  mk_ndarray n (repeat (repeat 0%R n) m).

(** [a[:, c]] for a non-negative index; out of range is an [IndexError]. *)
Definition get_column (a : ndarray) (c : nat) : exc (list R) :=
  nth_error (columns a) c.

Fixpoint replace_nth {A : Type} (n : nat) (x : A) (l : list A) : list A :=
  match l, n with
  | [], _ => []
  | _ :: t, O => x :: t
  | h :: t, S n' => h :: replace_nth n' x t
  end.

(** [a[:, c] = v]: the value must have [nrows a] entries, or a single one
    that numpy broadcasts down the column; anything else is a [ValueError]. *)
Definition set_column (a : ndarray) (c : nat) (v : list R) : exc ndarray :=
  if c <? ncols a then
    if length v =? nrows a then
      Some (mk_ndarray (nrows a) (replace_nth c v (columns a)))
    else if length v =? 1 then
      Some (mk_ndarray (nrows a)
              (replace_nth c (repeat (hd 0%R v) (nrows a)) (columns a)))
    else raise
  else raise.

(** Elementwise [x * w1 + y * w2] of two columns of one array. *)
Definition blend (w1 w2 : R) (x y : list R) : list R :=
  map (fun p => (fst p * w1 + snd p * w2)%R) (combine x y).

(** ** rotation.py: SurroundRotator *)

Module SurroundRotator.

Local Open Scope Q_scope.

(** The class-level dicts, as association lists from channel to azimuth. *)
Definition SPEAKER_ANGLES_71 : list (nat * Z) :=
  [ (0%nat, 30%Z); (1%nat, (-30)%Z); (2%nat, 0%Z); (3%nat, 0%Z);
    (4%nat, 110%Z); (5%nat, (-110)%Z); (6%nat, 150%Z); (7%nat, (-150)%Z) ].

Definition SPEAKER_ANGLES_51 : list (nat * Z) :=
  [ (0%nat, 30%Z); (1%nat, (-30)%Z); (2%nat, 0%Z); (3%nat, 0%Z);
    (4%nat, 110%Z); (5%nat, (-110)%Z) ].

(** [__init__]: the two attributes derived from the format string. *)
Definition num_channels (format : string) : nat :=
  if String.eqb format "5.1" then 6%nat else 8%nat.

Definition SPEAKER_ANGLES (format : string) : list (nat * Z) :=
  if String.eqb format "5.1" then SPEAKER_ANGLES_51 else SPEAKER_ANGLES_71.

(** Dict lookup; a missing key is a [KeyError]. *)
Fixpoint lookup (d : list (nat * Z)) (k : nat) : exc Z :=
  match d with
  | [] => raise
  | (k', v) :: t => if (k' =? k)%nat then Some v else lookup t k
  end.

(** [_angle_distance] *)
Definition _angle_distance (angle1 angle2 : Q) : Q :=
  let diff := pymod (Qabs (angle1 - angle2)) 360 in
  if Qltb 180 diff then 360 - diff else diff.

(** [sorted(..., key=...)]: the keys are computed once per element, then the
    elements are put in key order, equal keys keeping their input order. *)
Fixpoint insert_by_key (x : Q * nat) (l : list (Q * nat)) : list (Q * nat) :=
  match l with
  | [] => [x]
  | y :: t => if Qle_bool (fst x) (fst y) then x :: y :: t
              else y :: insert_by_key x t
  end.

Fixpoint sort_by_key (l : list (Q * nat)) : list (Q * nat) :=
  match l with
  | [] => []
  | x :: t => insert_by_key x (sort_by_key t)
  end.

Fixpoint decorate (key : nat -> exc Q) (l : list nat) : exc (list (Q * nat)) :=
  match l with
  | [] => Some []
  | ch :: t =>
      k <- key ch ;;
      rest <- decorate key t ;;
      Some ((k, ch) :: rest)
  end.

Definition sorted (l : list nat) (key : nat -> exc Q) : exc (list nat) :=
  keyed <- decorate key l ;;
  Some (map snd (sort_by_key keyed)).

(** The list comprehension [[i for i in range(num_channels) if i != 3]]. *)
Definition spatial_channels (format : string) : list nat :=
  filter (fun i => negb (i =? 3)%nat) (seq 0 (num_channels format)).

Definition closest_channels (format : string) (target_angle : Q)
  : exc (list nat) :=
  l <- sorted (spatial_channels format)
         (fun ch =>
            a <- lookup (SPEAKER_ANGLES format) ch ;;
            Some (_angle_distance (inject_Z a) target_angle)) ;;
  Some (firstn 2 l).

(** The two panning weights computed from the two distances. *)
Definition pan_weights (dist1 dist2 : Q) : R * R :=
  let total_dist := dist1 + dist2 in
  if Qltb total_dist 0.1 then (1%R, 0%R)
  else
    let weight2 := dist1 / total_dist in
    let angle_rad := (Q2R weight2 * PI / 2)%R in
    (cos angle_rad, sin angle_rad).

(** [_amplitude_pan] *)
Definition _amplitude_pan (format : string) (surround_frame : ndarray)
    (target_angle : Q) : exc (list R) :=
  closest <- closest_channels format target_angle ;;
  match closest with
  | [] => Some (repeat 0%R (nrows surround_frame))
  | [ch] => get_column surround_frame ch
  | ch1 :: ch2 :: _ =>
      angle1 <- lookup (SPEAKER_ANGLES format) ch1 ;;
      angle2 <- lookup (SPEAKER_ANGLES format) ch2 ;;
      let dist1 := _angle_distance (inject_Z angle1) target_angle in
      let dist2 := _angle_distance (inject_Z angle2) target_angle in
      let '(weight1, weight2) := pan_weights dist1 dist2 in
      col1 <- get_column surround_frame ch1 ;;
      col2 <- get_column surround_frame ch2 ;;
      Some (blend weight1 weight2 col1 col2)
  end.

(** The normalisation of the rotated angle inside [rotate]. *)
Definition rotated_angle (out_angle : Z) (yaw_degrees : Q) : Q :=
  let r := pymod (inject_Z out_angle + yaw_degrees) 360 in
  if Qltb 180 r then r - 360 else r.

(** One iteration of the loop of [rotate] over the output channels. *)
Definition rotate_channel (format : string) (surround_frame : ndarray)
    (yaw_degrees : Q) (output : ndarray) (out_channel : nat) : exc ndarray :=
  out_angle <- lookup (SPEAKER_ANGLES format) out_channel ;;
  if (out_channel =? 3)%nat then
    lfe <- get_column surround_frame 3 ;;
    set_column output out_channel lfe
  else
    blended_signal <-
      _amplitude_pan format surround_frame (rotated_angle out_angle yaw_degrees) ;;
    set_column output out_channel blended_signal.

Fixpoint rotate_loop (format : string) (surround_frame : ndarray)
    (yaw_degrees : Q) (channels : list nat) (output : ndarray) : exc ndarray :=
  match channels with
  | [] => Some output
  | out_channel :: rest =>
      output' <- rotate_channel format surround_frame yaw_degrees
                   output out_channel ;;
      rotate_loop format surround_frame yaw_degrees rest output'
  end.

(** [rotate] *)
Definition rotate (format : string) (surround_frame : ndarray)
    (yaw_degrees : Q) : exc ndarray :=
  let num_samples := nrows surround_frame in
  let output := zeros num_samples (num_channels format) in
  rotate_loop format surround_frame yaw_degrees
    (seq 0 (num_channels format)) output.

(** *** Vocabulary for stating what [rotate] computes *)

(** The signal that one loop iteration assigns to its output column. *)
Definition channel_signal (format : string) (surround_frame : ndarray)
    (yaw_degrees : Q) (out_channel : nat) : exc (list R) :=
  out_angle <- lookup (SPEAKER_ANGLES format) out_channel ;;
  if (out_channel =? 3)%nat then get_column surround_frame 3
  else _amplitude_pan format surround_frame
         (rotated_angle out_angle yaw_degrees).

(** The table angle of a channel of the format. *)
Definition speaker_angle (format : string) (ch : nat) : Z :=
  match lookup (SPEAKER_ANGLES format) ch with
  | Some a => a
  | None => 0%Z
  end.

(** The sort key of a channel: its shortest angular distance to the target. *)
Definition channel_distance (format : string) (target_angle : Q) (ch : nat) : Q :=
  _angle_distance (inject_Z (speaker_angle format ch)) target_angle.

(** [c] is ranked before [c']: it is strictly closer to the target, or as
    close and of lower channel index. *)
Definition ranks_before (format : string) (target_angle : Q) (c c' : nat) : Prop :=
  channel_distance format target_angle c < channel_distance format target_angle c'
  \/ (channel_distance format target_angle c == channel_distance format target_angle c'
      /\ (c < c')%nat).

(** [c1] and [c2] are, in this order, the two closest spatial channels. *)
Definition two_closest (format : string) (target_angle : Q) (c1 c2 : nat) : Prop :=
  In c1 (spatial_channels format) /\
  In c2 (spatial_channels format) /\
  c1 <> c2 /\
  (forall c, In c (spatial_channels format) -> c <> c1 ->
     ranks_before format target_angle c1 c) /\
  (forall c, In c (spatial_channels format) -> c <> c1 -> c <> c2 ->
     ranks_before format target_angle c2 c).

(** The order that a stable sort by key puts decorated channels in. *)
Definition before (p q : Q * nat) : Prop :=
  fst p < fst q \/ (fst p == fst q /\ (snd p < snd q)%nat).

End SurroundRotator.

(** ** stereo_rotation.py: StereoRotator *)

Module StereoRotator.

Local Open Scope Q_scope.

(** The local variables of [rotate] that depend on the yaw only. *)
Record locals : Type := mk_locals {
  yaw : Q;
  volume : Q;
  pan_yaw : Q;
  pan : Q;
  left_gain : R;
  right_gain : R
}.

Definition rotate_locals (yaw_degrees : Q) : locals :=
  let yaw0 := pymod yaw_degrees 360 in
  let yaw := if Qltb 180 yaw0 then yaw0 - 360 else yaw0 in
  let abs_yaw := Qabs yaw in
  let '(volume, pan_yaw) :=
    if Qltb 90 abs_yaw then
      let rear_factor := (abs_yaw - 90) / 90 in
      let volume := 1.0 - (rear_factor * 0.8) in
      let mirrored_yaw := 180 - abs_yaw in
      (volume, if Qltb yaw 0 then - mirrored_yaw else mirrored_yaw)
    else (1.0, yaw) in
  let pan := (- pan_yaw) / 90.0 in
  let pan := py_max (-1.0) (py_min 1.0 pan) in
  let pan_radians := (Q2R pan * PI / 4)%R in
  mk_locals yaw volume pan_yaw pan
    (cos (pan_radians - PI / 4) * Q2R volume)%R
    (cos (pan_radians + PI / 4) * Q2R volume)%R.

(** [rotate] *)
Definition rotate (stereo_frame : ndarray) (yaw_degrees : Q) : exc ndarray :=
  let num_samples := nrows stereo_frame in
  left <- get_column stereo_frame 0 ;;
  right <- get_column stereo_frame 1 ;;
  let st := rotate_locals yaw_degrees in
  let output := zeros num_samples 2 in
  let mono := map (fun p => ((fst p + snd p) * 0.5)%R) (combine left right) in
  output <- set_column output 0 (map (fun m => (m * left_gain st)%R) mono) ;;
  set_column output 1 (map (fun m => (m * right_gain st)%R) mono).

End StereoRotator.

(** ** upmix.py: StereoTo71Upmixer *)

Module StereoTo71Upmixer.

Local Open Scope Q_scope.

(** Python's [int] of a float: truncation toward zero. *)
Definition py_int (x : Q) : Z := if Qltb x 0 then Qceiling x else Qfloor x.

(** One-dimensional [np.zeros(n)]; a negative length is a [ValueError]. *)
Definition np_zeros (n : Z) : exc (list R) :=
  if (n <? 0)%Z then raise else Some (repeat 0%R (Z.to_nat n)).

Definition vadd (x y : list R) : list R :=
  map (fun p => (fst p + snd p)%R) (combine x y).

Definition vsub (x y : list R) : list R :=
  map (fun p => (fst p - snd p)%R) (combine x y).

Definition vscale (k : R) (x : list R) : list R := map (fun s => (s * k)%R) x.

Definition vneg (x : list R) : list R := map Ropp x.

Section Upmixer.

(** The constructor arguments, and [signal.sosfilt(self.lfe_filter, .)], the
    SciPy low-pass filter applied to the LFE sum. *)
Variable sample_rate : Z.
Variable format : string.
Variable sosfilt : list R -> list R.

Definition num_channels : nat :=
  if String.eqb format "5.1" then 6%nat else 8%nat.

(** [_setup_decorrelation_filters] *)
Definition surround_delay_samples : Z := py_int (0.005 * inject_Z sample_rate).
Definition rear_delay_samples : Z := py_int (0.010 * inject_Z sample_rate).

(** [np.concatenate([np.zeros(delay), x])[:num_samples] * gain] *)
Definition delayed (delay : Z) (num_samples : nat) (gain : R) (x : list R)
  : exc (list R) :=
  z <- np_zeros delay ;;
  Some (vscale gain (firstn num_samples (z ++ x))).

(** [upmix] *)
Definition upmix (stereo_frame : ndarray) : exc ndarray :=
  let num_samples := nrows stereo_frame in
  let output := zeros num_samples num_channels in
  left <- get_column stereo_frame 0 ;;
  right <- get_column stereo_frame 1 ;;
  output <- set_column output 0 left ;;
  output <- set_column output 1 right ;;
  output <- set_column output 2 (vscale 0.5 (vadd left right)) ;;
  let lfe_sum := vscale 0.5 (vadd left right) in
  output <- set_column output 3 (sosfilt lfe_sum) ;;
  let diff_left := vsub left right in
  let diff_right := vsub right left in
  ls_signal <- delayed surround_delay_samples num_samples 0.7 diff_left ;;
  rs_signal <- delayed surround_delay_samples num_samples 0.7 diff_right ;;
  output <- set_column output 4 ls_signal ;;
  output <- set_column output 5 rs_signal ;;
  if String.eqb format "7.1" then
    lb_signal <- delayed rear_delay_samples num_samples 0.5 (vneg diff_left) ;;
    rb_signal <- delayed rear_delay_samples num_samples 0.5 (vneg diff_right) ;;
    output <- set_column output 6 lb_signal ;;
    set_column output 7 rb_signal
  else Some output.

End Upmixer.

End StereoTo71Upmixer.

(** ** audio_io.py: the stream callback of AudioIO.start_stream *)

Module AudioIO.

(** What the callback prints. *)
Inductive message : Type :=
| Audio_status
| Warning_channels (expected got : nat)
| Error_in_callback.

(** numpy broadcasting of a two-dimensional value to the shape [(n, c)]: an
    axis of the value must have the wanted length or length one. *)
Definition broadcast_rows (n : nat) (v : ndarray) : exc ndarray :=
  if nrows v =? n then Some v
  else if nrows v =? 1 then
    Some (mk_ndarray n (map (fun col => repeat (hd 0%R col) n) (columns v)))
  else raise.

Definition broadcast_cols (c : nat) (v : ndarray) : exc ndarray :=
  if ncols v =? c then Some v
  else if ncols v =? 1 then
    Some (mk_ndarray (nrows v) (repeat (hd [] (columns v)) c))
  else raise.

Definition broadcast_to (n c : nat) (v : ndarray) : exc ndarray :=
  v' <- broadcast_rows n v ;;
  broadcast_cols c v'.

(** [a[:, :k]] *)
Definition slice_cols (a : ndarray) (k : nat) : ndarray :=
  mk_ndarray (nrows a) (firstn k (columns a)).

(** [a[:, :k] = v] *)
Definition assign_cols (a : ndarray) (k : nat) (v : ndarray) : exc ndarray :=
  v' <- broadcast_to (nrows a) (ncols (slice_cols a k)) v ;;
  Some (mk_ndarray (nrows a) (columns v' ++ skipn k (columns a))).

(** [a[:] = v] *)
Definition assign_all (a : ndarray) (v : ndarray) : exc ndarray :=
  broadcast_to (nrows a) (ncols a) v.

(** [a.fill(0)] *)
Definition fill_zero (a : ndarray) : ndarray := zeros (nrows a) (ncols a).

Section Callback.

(** [self.output_channels] and [self.callback]. *)
Variable output_channels : nat.
Variable callback : ndarray -> exc ndarray.

(** The first statement of the [try] block: the stereo block handed to the
    processing callback. A mono input is duplicated. *)
Definition stereo_input (indata : ndarray) : exc ndarray :=
  if ncols indata <? 2 then
    c <- get_column indata 0 ;;
    Some (mk_ndarray (nrows indata) [c; c])
  else Some (slice_cols indata 2).

(** The body of the [try] block: what it printed, and the new contents of
    [outdata] unless an exception ended it. *)
Definition try_body (indata outdata : ndarray) (frames : nat)
  : list message * exc ndarray :=
  match stereo <- stereo_input indata ;; callback stereo with
  | None => ([], raise)
  | Some result =>
      if negb (ncols result =? output_channels) then
        let warning := [Warning_channels output_channels (ncols result)] in
        if ncols result <? output_channels then
          let padded := zeros frames output_channels in
          match assign_cols padded (ncols result) result with
          | None => (warning, raise)
          | Some padded =>
              (warning, assign_all outdata (slice_cols padded (ncols outdata)))
          end
        else
          (warning, assign_all outdata (slice_cols result (ncols outdata)))
      else
        ([], assign_all outdata (slice_cols result (ncols outdata)))
  end.

(** [sd_callback]: the printed messages and the final contents of [outdata]. *)
Definition sd_callback (indata outdata : ndarray) (frames : nat)
    (status : bool) : list message * ndarray :=
  let printed := if status then [Audio_status] else [] in
  match try_body indata outdata frames with
  | (log, Some outdata') => (printed ++ log, outdata')
  | (log, None) => (printed ++ log ++ [Error_in_callback], fill_zero outdata)
  end.

End Callback.

(** *** Vocabulary for stating how shapes are fitted *)

(** A block brought to [c] channels: extra channels cut, missing ones silent. *)
Definition fit_columns (c : nat) (a : ndarray) : ndarray :=
  mk_ndarray (nrows a)
    (firstn c (columns a) ++ repeat (repeat 0%R (nrows a)) (c - ncols a)).

(** A block brought to [n] samples: extra samples cut, missing ones silent. *)
Definition fit_rows (n : nat) (a : ndarray) : ndarray :=
  mk_ndarray n
    (map (fun col => firstn n col ++ repeat 0%R (n - length col)) (columns a)).

End AudioIO.

(** ** openvr_tracker.py: TestTracker *)

Module TestTracker.

Local Open Scope Q_scope.

Record state : Type := mk_state {
  mode : string;
  yaw : Q;
  time : Q;
  running : bool
}.

(** [__init__] *)
Definition init (mode : string) : state := mk_state mode 0.0 0.0 false.

(** [start]: the static mode starts no tracking thread. *)
Definition starts_thread (s : state) : bool :=
  negb (String.eqb (mode s) "static").

Definition start (s : state) : state :=
  mk_state (mode s) (yaw s) (time s) true.

Definition stop (s : state) : state :=
  mk_state (mode s) (yaw s) (time s) false.

Definition get_yaw (s : state) : Q := yaw s.

Definition set_yaw (s : state) (yaw_degrees : Q) : state :=
  mk_state (mode s) yaw_degrees (time s) (running s).

Section TrackingLoop.

(** [math.sin] on floats, a library function: its values are floats, hence
    rationals. *)
Variable math_sin : Q -> Q.

(** One iteration of the body of [_tracking_loop]. *)
Definition tracking_step (s : state) : state :=
  let yaw' :=
    if String.eqb (mode s) "rotate" then pymod (time s * 30) 360
    else if String.eqb (mode s) "sweep" then math_sin (time s * 0.5) * 180
    else yaw s in
  mk_state (mode s) yaw' (time s + 0.02) (running s).

(** [n] iterations of the loop. *)
Fixpoint tracking_loop (n : nat) (s : state) : state :=
  match n with
  | O => s
  | S n' => tracking_loop n' (tracking_step s)
  end.

End TrackingLoop.

End TestTracker.

(** ** main.py: AudioRotationApp and the mode selection *)

Module AudioRotationApp.

Local Open Scope Q_scope.

(** [str.lower], on ASCII strings. *)
Definition ascii_lower (c : ascii) : ascii :=
  let n := nat_of_ascii c in
  if ((65 <=? n) && (n <=? 90))%nat then ascii_of_nat (n + 32) else c.

Fixpoint lower (s : string) : string :=
  match s with
  | EmptyString => EmptyString
  | String c t => String (ascii_lower c) (lower t)
  end.

(** The settings of [config.py] that the application reads. *)
Record config : Type := mk_config {
  MODE : string;
  SAMPLE_RATE : Z;
  BLOCK_SIZE : Z;
  SURROUND_FORMAT : string;
  SMOOTHING_FACTOR : Q
}.

(** [config.py] as shipped. *)
Definition shipped_config : config :=
  mk_config "ask" 48000 512 "7.1" 0.85.

(** Python's [x or default] for an optional number: [None] and zero are
    falsy. *)
Definition or_Z (x : option Z) (default : Z) : Z :=
  match x with
  | Some v => if (v =? 0)%Z then default else v
  | None => default
  end.

Definition or_Q (x : option Q) (default : Q) : Q :=
  match x with
  | Some v => if Qeq_bool v 0 then default else v
  | None => default
  end.

(** The attributes of the application object. [surround_format] is the
    format handed to the upmixer and the rotator. *)
Record app : Type := mk_app {
  sample_rate : Z;
  block_size : Z;
  smoothing_factor : Q;
  is_stereo_mode : bool;
  surround_format : string;
  output_channels : nat;
  smoothed_yaw : Q
}.

(** [__init__] *)
Definition init (cfg : config) (sample_rate block_size : option Z)
    (smoothing_factor : option Q) : app :=
  let sample_rate := or_Z sample_rate (SAMPLE_RATE cfg) in
  let block_size := or_Z block_size (BLOCK_SIZE cfg) in
  let smoothing_factor := or_Q smoothing_factor (SMOOTHING_FACTOR cfg) in
  let surround_format := SURROUND_FORMAT cfg in
  let is_stereo_mode := String.eqb (lower surround_format) "stereo" in
  let output_channels :=
    if is_stereo_mode then 2%nat
    else if String.eqb surround_format "5.1" then 6%nat else 8%nat in
  mk_app sample_rate block_size smoothing_factor is_stereo_mode
    surround_format output_channels 0.0.

(** [_smooth_yaw]: the new state and the returned value. *)
Definition _smooth_yaw (a : app) (new_yaw : Q) : app * Q :=
  let s := smoothing_factor a * smoothed_yaw a
           + (1 - smoothing_factor a) * new_yaw in
  (mk_app (sample_rate a) (block_size a) (smoothing_factor a)
     (is_stereo_mode a) (surround_format a) (output_channels a) s,
   s).

Section Processing.

(** The low-pass filter of the upmixer, as in [StereoTo71Upmixer]. *)
Variable sosfilt : list R -> list R.

(** [audio_callback]; [tracker_yaw] is what [self.tracker.get_yaw()]
    returns. *)
Definition audio_callback (a : app) (tracker_yaw : Q) (stereo_input : ndarray)
  : app * exc ndarray :=
  let current_yaw := tracker_yaw in
  let '(a', smoothed_yaw) := _smooth_yaw a current_yaw in
  if is_stereo_mode a' then
    (a', StereoRotator.rotate stereo_input smoothed_yaw)
  else
    (a',
     surround <- StereoTo71Upmixer.upmix (sample_rate a') (surround_format a')
                   sosfilt stereo_input ;;
     SurroundRotator.rotate (surround_format a') surround smoothed_yaw).

(** One invocation of the stream callback that [run] installs with
    [start_stream(self.audio_callback)]: what is printed and written to
    [outdata]. *)
Definition stream_block (a : app) (tracker_yaw : Q) (indata outdata : ndarray)
    (frames : nat) (status : bool) : list AudioIO.message * ndarray :=
  AudioIO.sd_callback (output_channels a)
    (fun stereo => snd (audio_callback a tracker_yaw stereo))
    indata outdata frames status.

End Processing.

(** *** Vocabulary for the application state *)

(** The channel count handed to the audio stream is the one that the
    configured rotator produces. *)
Definition consistent (a : app) : Prop :=
  output_channels a
  = if is_stereo_mode a then 2%nat
    else SurroundRotator.num_channels (surround_format a).

(** The state after a run of blocks, given the tracker yaw read at each. *)
Fixpoint smooth_all (a : app) (yaws : list Q) : app :=
  match yaws with
  | [] => a
  | y :: rest => smooth_all (fst (_smooth_yaw a y)) rest
  end.

(** The trackers that [create_tracker] can build. *)
Inductive tracker : Type :=
| OpenVRTracker
| TestTracker (mode : string).

(** [create_tracker]; an unknown mode is a [ValueError]. *)
Definition create_tracker (mode : string) : exc tracker :=
  if String.eqb mode "openvr" then Some OpenVRTracker
  else if String.eqb mode "test_rotate" then Some (TestTracker "rotate")
  else if String.eqb mode "test_sweep" then Some (TestTracker "sweep")
  else if String.eqb mode "test_static" then Some (TestTracker "static")
  else raise.

(** The list that [main] validates the mode against. *)
Definition valid_modes : list string :=
  ["openvr"; "test_rotate"; "test_sweep"; "test_static"]%string.

(** The mode that [select_mode] returns for a menu choice, if it returns. *)
Definition mode_of_choice (choice : string) : option string :=
  if String.eqb choice "1" then Some "openvr"%string
  else if String.eqb choice "2" then Some "test_rotate"%string
  else if String.eqb choice "3" then Some "test_sweep"%string
  else if String.eqb choice "4" then Some "test_static"%string
  else None.

End AudioRotationApp.

(** ** Vocabulary for whole frames *)

(** Every sample of the frame multiplied by [k]. *)
Definition scale_frame (k : R) (a : ndarray) : ndarray :=
  mk_ndarray (nrows a) (map (map (fun s => (k * s)%R)) (columns a)).

(** The samplewise sum of two frames of one shape. *)
Definition add_frames (a b : ndarray) : ndarray :=
  mk_ndarray (nrows a)
    (map (fun p => map (fun s => (fst s + snd s)%R) (combine (fst p) (snd p)))
       (combine (columns a) (columns b))).

(** The first [c] channels of a frame. *)
Definition first_channels (c : nat) (a : ndarray) : ndarray :=
  mk_ndarray (nrows a) (firstn c (columns a)).

(** ** Frames used as concrete inputs *)

(** The test signal of [rotation.py]: sound in the front-left speaker only. *)
Definition front_left_71 : ndarray :=
  mk_ndarray 2
    [ [1; 1]; [0; 0]; [0; 0]; [0; 0]; [0; 0]; [0; 0]; [0; 0]; [0; 0] ]%R.

(** A 5.1 block of one sample with a unit signal in the centre only. *)
Definition centre_only_51 : ndarray :=
  mk_ndarray 1 [ [0]; [0]; [1]; [0]; [0]; [0] ]%R.

(** A stereo block of three samples. *)
Definition stereo_test_frame : ndarray :=
  mk_ndarray 3 [ [1; 0.5; 0.25]; [0; 0.5; -0.25] ]%R.

(** A mono signal in both channels, as in the test of [stereo_rotation.py]. *)
Definition mono_test_frame : ndarray :=
  mk_ndarray 3 [ [0.3; -0.3; 0.1]; [0.3; -0.3; 0.1] ]%R.

(** A processed block that is one sample longer than a block of two. *)
Definition long_block : ndarray :=
  mk_ndarray 3 [ [1; 1; 1]; [1; 1; 1] ]%R.

(** A stereo block of two samples. *)
Definition short_stereo : ndarray :=
  mk_ndarray 2 [ [1; 1]; [1; 1] ]%R.

(** A mono block of two samples. *)
Definition mono_block : ndarray :=
  mk_ndarray 2 [ [0.5; -0.5] ]%R.

(** * Properties *)

Ltac qlra := Lqa.lra.
Ltac rlra := Lra.lra.

(** ** Rational comparisons and the modulo operator *)

Section RationalFacts.

Local Open Scope Q_scope.

Lemma Qltb_true x y : Qltb x y = true <-> x < y.
Proof.
  unfold Qltb. rewrite negb_true_iff. split; intros H.
  - apply Qnot_le_lt. intros Hle. apply Qle_bool_iff in Hle. congruence.
  - destruct (Qle_bool y x) eqn:E; auto.
    apply Qle_bool_iff in E. exfalso; qlra.
Qed.

Lemma Qltb_false x y : Qltb x y = false <-> y <= x.
Proof.
  unfold Qltb. rewrite negb_false_iff. apply Qle_bool_iff.
Qed.

(** [x % 360] lies in [[0, 360)] and differs from [x] by a multiple of 360. *)
Lemma pymod_360 x :
  exists k : Z, pymod x 360 == x - 360 * inject_Z k /\ 0 <= pymod x 360 < 360.
Proof.
  exists (Qfloor (x / 360)). unfold pymod.
  pose proof (Qfloor_le (x / 360)) as Hlo.
  pose proof (Qlt_floor (x / 360)) as Hhi.
  rewrite inject_Z_plus in Hhi.
  assert (Hx : x == 360 * (x / 360)) by (field; discriminate).
  set (k := inject_Z (Qfloor (x / 360))) in *.
  set (q := x / 360) in *.
  change (inject_Z 1) with 1 in Hhi.
  split; [reflexivity|]. qlra.
Qed.

Lemma Qabs_cases x : (0 <= x /\ Qabs x == x) \/ (x <= 0 /\ Qabs x == - x).
Proof.
  destruct (Qlt_le_dec x 0) as [H|H].
  - right. split; [qlra|]. apply Qabs_neg. qlra.
  - left. split; [assumption|]. apply Qabs_pos. assumption.
Qed.

Lemma inject_Z_split (j : Z) : inject_Z j <= -1 \/ 0 <= inject_Z j.
Proof.
  destruct (Z_lt_le_dec j 0) as [H|H].
  - left. change (-1) with (inject_Z (-1)). rewrite <- Zle_Qle. lia.
  - right. change 0 with (inject_Z 0). rewrite <- Zle_Qle. lia.
Qed.

End RationalFacts.

(** ** Speaker geometry: the shortest angular distance is a metric on angles
    taken modulo 360 *)

Section Geometry.

Import SurroundRotator.
Local Open Scope Q_scope.

Lemma angle_distance_range a b :
  0 <= _angle_distance a b <= 180.
Proof.
  unfold _angle_distance.
  destruct (pymod_360 (Qabs (a - b))) as (k & _ & Hr).
  destruct (Qltb 180 (pymod (Qabs (a - b)) 360)) eqn:E.
  - apply Qltb_true in E. qlra.
  - apply Qltb_false in E. qlra.
Qed.

(** The distance is [|a - b + 360 k|] for some integer [k] ... *)
Lemma angle_distance_attained a b :
  exists k : Z, _angle_distance a b == Qabs (a - b + 360 * inject_Z k).
Proof.
  unfold _angle_distance.
  destruct (pymod_360 (Qabs (a - b))) as (k & Hk & Hr).
  set (r := pymod (Qabs (a - b)) 360) in *.
  destruct (Qabs_cases (a - b)) as [[Hs Ha]|[Hs Ha]]; rewrite Ha in Hk;
    destruct (Qltb 180 r) eqn:E;
    [apply Qltb_true in E | apply Qltb_false in E
    |apply Qltb_true in E | apply Qltb_false in E].
  - exists (- k + (-1))%Z. rewrite inject_Z_plus, inject_Z_opp.
    change (inject_Z (-1)) with (-1).
    destruct (Qabs_cases (a - b + 360 * (- inject_Z k + -1))) as [[? H]|[? H]];
      rewrite H; qlra.
  - exists (- k)%Z. rewrite inject_Z_opp.
    destruct (Qabs_cases (a - b + 360 * - inject_Z k)) as [[? H]|[? H]];
      rewrite H; qlra.
  - exists (k + 1)%Z. rewrite inject_Z_plus. change (inject_Z 1) with 1.
    destruct (Qabs_cases (a - b + 360 * (inject_Z k + 1))) as [[? H]|[? H]];
      rewrite H; qlra.
  - exists k.
    destruct (Qabs_cases (a - b + 360 * inject_Z k)) as [[? H]|[? H]];
      rewrite H; qlra.
Qed.

(** ... and no integer [k] gives a smaller value. *)
Lemma angle_distance_least a b (k : Z) :
  _angle_distance a b <= Qabs (a - b + 360 * inject_Z k).
Proof.
  unfold _angle_distance.
  destruct (pymod_360 (Qabs (a - b))) as (q & Hq & Hr).
  set (r := pymod (Qabs (a - b)) 360) in *.
  assert (Hd : (if Qltb 180 r then 360 - r else r) <= r /\
               (if Qltb 180 r then 360 - r else r) <= 360 - r).
  { destruct (Qltb 180 r) eqn:E;
      [apply Qltb_true in E | apply Qltb_false in E]; qlra. }
  set (d := if Qltb 180 r then 360 - r else r) in *.
  destruct (Qabs_cases (a - b)) as [[Hs Ha]|[Hs Ha]]; rewrite Ha in Hq.
  - destruct (inject_Z_split (k + q)) as [Hj|Hj];
      rewrite inject_Z_plus in Hj;
      destruct (Qabs_cases (a - b + 360 * inject_Z k)) as [[? H]|[? H]];
      rewrite H; qlra.
  - destruct (inject_Z_split (q - k)) as [Hj|Hj];
      unfold Zminus in Hj; rewrite inject_Z_plus, inject_Z_opp in Hj;
      destruct (Qabs_cases (a - b + 360 * inject_Z k)) as [[? H]|[? H]];
      rewrite H; qlra.
Qed.

Lemma angle_distance_triangle a t c :
  _angle_distance a c <= _angle_distance a t + _angle_distance c t.
Proof.
  destruct (angle_distance_attained a t) as (k1 & H1).
  destruct (angle_distance_attained c t) as (k2 & H2).
  pose proof (angle_distance_least a c (k1 - k2)) as H.
  unfold Zminus in H. rewrite inject_Z_plus, inject_Z_opp in H.
  rewrite H1, H2.
  destruct (Qabs_cases (a - t + 360 * inject_Z k1)) as [[? E1]|[? E1]];
  destruct (Qabs_cases (c - t + 360 * inject_Z k2)) as [[? E2]|[? E2]];
  destruct (Qabs_cases (a - c + 360 * (inject_Z k1 + - inject_Z k2)))
    as [[? E3]|[? E3]];
  rewrite E1, E2; rewrite E3 in H; qlra.
Qed.

(** The angle handed to [_amplitude_pan] is the sum of speaker angle and yaw,
    normalised to the half-open interval from -180 to 180. *)
Lemma rotated_angle_normalised (out_angle : Z) (yaw_degrees : Q) :
  - (180) < rotated_angle out_angle yaw_degrees <= 180 /\
  exists k : Z,
    rotated_angle out_angle yaw_degrees
    == inject_Z out_angle + yaw_degrees + 360 * inject_Z k.
Proof.
  unfold rotated_angle.
  destruct (pymod_360 (inject_Z out_angle + yaw_degrees)) as (k & Hk & Hr).
  set (r := pymod (inject_Z out_angle + yaw_degrees) 360) in *.
  destruct (Qltb 180 r) eqn:E;
    [apply Qltb_true in E | apply Qltb_false in E].
  - split; [qlra|]. exists (- k + (-1))%Z.
    rewrite inject_Z_plus, inject_Z_opp. change (inject_Z (-1)) with (-1). qlra.
  - split; [qlra|]. exists (- k)%Z. rewrite inject_Z_opp. qlra.
Qed.

End Geometry.

(** ** [sorted]: a stable sort by key *)

Section StableSort.

Import SurroundRotator.
Local Open Scope Q_scope.

Lemma insert_by_key_perm x l : Permutation (x :: l) (insert_by_key x l).
Proof.
  induction l as [|y t IH]; simpl.
  - apply Permutation_refl.
  - destruct (Qle_bool (fst x) (fst y)).
    + apply Permutation_refl.
    + eapply perm_trans; [apply perm_swap|]. apply perm_skip, IH.
Qed.

Lemma sort_by_key_perm l : Permutation l (sort_by_key l).
Proof.
  induction l as [|x t IH]; simpl.
  - apply perm_nil.
  - eapply perm_trans; [apply perm_skip, IH|]. apply insert_by_key_perm.
Qed.

Lemma before_key_le p q : before p q -> fst p <= fst q.
Proof. intros [H|[H _]]; qlra. Qed.

(** Inserting an element that came earlier in the input than everything
    already sorted keeps the (key, input position) order. *)
Lemma insert_by_key_sorted x l :
  StronglySorted before l ->
  Forall (fun y => (snd x < snd y)%nat) l ->
  StronglySorted before (insert_by_key x l).
Proof.
  induction 1 as [|y t Hs IH Hy]; intros Hx; simpl.
  - repeat constructor.
  - inversion Hx as [|? ? Hxy Hxt]; subst.
    destruct (Qle_bool (fst x) (fst y)) eqn:E.
    + apply Qle_bool_iff in E.
      constructor; [constructor; assumption|].
      constructor.
      * unfold before. destruct (Qlt_le_dec (fst x) (fst y)); [left; assumption|].
        right. split; [qlra | assumption].
      * rewrite Forall_forall in *. intros z Hz.
        pose proof (before_key_le _ _ (Hy z Hz)) as Hyz.
        unfold before. destruct (Qlt_le_dec (fst x) (fst z)); [left; assumption|].
        right. split; [qlra | apply Hxt, Hz].
    + assert (Hlt : fst y < fst x).
      { apply Qnot_le_lt. intros Hle. apply Qle_bool_iff in Hle. congruence. }
      constructor; [apply IH, Hxt|].
      rewrite Forall_forall in *. intros z Hz.
      apply (Permutation_in _ (Permutation_sym (insert_by_key_perm x t))) in Hz.
      destruct Hz as [<-|Hz]; [left; assumption | apply Hy, Hz].
Qed.

Lemma sort_by_key_sorted l :
  StronglySorted (fun p q => (snd p < snd q)%nat) l ->
  StronglySorted before (sort_by_key l).
Proof.
  induction 1 as [|x t Hs IH Hx]; simpl.
  - constructor.
  - apply insert_by_key_sorted; [assumption|].
    rewrite Forall_forall in *. intros y Hy. apply Hx.
    apply (Permutation_in _ (Permutation_sym (sort_by_key_perm t))), Hy.
Qed.

End StableSort.

(** ** Channel selection in [_amplitude_pan] *)

Section ClosestChannels.

Import SurroundRotator.
Local Open Scope Q_scope.

Lemma format_cases format :
  (num_channels format = 6%nat /\ SPEAKER_ANGLES format = SPEAKER_ANGLES_51) \/
  (num_channels format = 8%nat /\ SPEAKER_ANGLES format = SPEAKER_ANGLES_71).
Proof.
  unfold num_channels, SPEAKER_ANGLES.
  destruct (String.eqb format "5.1"); [left | right]; split; reflexivity.
Qed.

Lemma lookup_speaker_angle format ch :
  (ch < num_channels format)%nat ->
  lookup (SPEAKER_ANGLES format) ch = Some (speaker_angle format ch).
Proof.
  unfold speaker_angle.
  destruct (format_cases format) as [[Hn Ht]|[Hn Ht]]; rewrite Hn, Ht; intros H;
    do 8 (destruct ch as [|ch]; [reflexivity || lia|]); lia.
Qed.

Lemma spatial_channels_cases format :
  spatial_channels format = [0; 1; 2; 4; 5]%nat \/
  spatial_channels format = [0; 1; 2; 4; 5; 6; 7]%nat.
Proof.
  unfold spatial_channels.
  destruct (format_cases format) as [[Hn _]|[Hn _]]; rewrite Hn;
    [left | right]; reflexivity.
Qed.

Lemma spatial_channels_in_range format ch :
  In ch (spatial_channels format) <->
  (ch < num_channels format)%nat /\ ch <> 3%nat.
Proof.
  unfold spatial_channels. rewrite filter_In, in_seq, negb_true_iff, Nat.eqb_neq.
  intuition lia.
Qed.

Lemma decorate_total key (k : nat -> Q) l :
  (forall ch, In ch l -> key ch = Some (k ch)) ->
  decorate key l = Some (map (fun ch => (k ch, ch)) l).
Proof.
  induction l as [|ch t IH]; intros Hkey; simpl.
  - reflexivity.
  - rewrite (Hkey ch (or_introl eq_refl)). simpl.
    rewrite IH by (intros; apply Hkey; right; assumption). reflexivity.
Qed.

Lemma spatial_channels_increasing format (k : nat -> Q) :
  StronglySorted (fun p q : Q * nat => (snd p < snd q)%nat)
    (map (fun ch => (k ch, ch)) (spatial_channels format)).
Proof.
  destruct (spatial_channels_cases format) as [-> | ->]; simpl;
    repeat (constructor; simpl; try lia).
Qed.

(** [closest_channels] never raises and returns the two best-ranked spatial
    channels, best first. *)
Lemma closest_channels_spec format target :
  exists c1 c2,
    closest_channels format target = Some [c1; c2] /\
    two_closest format target c1 c2.
Proof.
  unfold closest_channels, sorted.
  rewrite (decorate_total _ (channel_distance format target)).
  2:{ intros ch Hch. apply spatial_channels_in_range in Hch.
      rewrite lookup_speaker_angle by tauto. reflexivity. }
  simpl.
  set (keyed := map (fun ch => (channel_distance format target ch, ch))
                  (spatial_channels format)).
  pose proof (sort_by_key_perm keyed) as Hperm.
  pose proof (sort_by_key_sorted _
                (spatial_channels_increasing format
                   (channel_distance format target))) as Hsorted.
  fold keyed in Hsorted.
  assert (Hlen : (2 <= length (sort_by_key keyed))%nat).
  { rewrite <- (Permutation_length Hperm). unfold keyed. rewrite length_map.
    destruct (spatial_channels_cases format) as [-> | ->]; simpl; lia. }
  destruct (sort_by_key keyed) as [|p1 [|p2 rest]]; simpl in Hlen; try lia.
  clear Hlen. exists (snd p1), (snd p2). split; [reflexivity|].
  assert (Hmem : forall p, In p (p1 :: p2 :: rest) ->
            In (snd p) (spatial_channels format) /\
            fst p = channel_distance format target (snd p)).
  { intros p Hp. apply (Permutation_in _ (Permutation_sym Hperm)) in Hp.
    unfold keyed in Hp. apply in_map_iff in Hp. destruct Hp as (ch & <- & Hch).
    split; [assumption | reflexivity]. }
  assert (Hall : forall c, In c (spatial_channels format) ->
            In (channel_distance format target c, c) (p1 :: p2 :: rest)).
  { intros c Hc. apply (Permutation_in _ Hperm). unfold keyed.
    apply in_map_iff. exists c. split; [reflexivity | assumption]. }
  destruct (Hmem p1 (or_introl eq_refl)) as [Hin1 Hk1].
  destruct (Hmem p2 (or_intror (or_introl eq_refl))) as [Hin2 Hk2].
  inversion Hsorted as [|? ? Hs2 Hb1]; subst.
  inversion Hs2 as [|? ? Hs3 Hb2]; subst.
  rewrite Forall_forall in Hb1, Hb2.
  assert (Hrank : forall p q, fst p = channel_distance format target (snd p) ->
            before p (channel_distance format target q, q) ->
            ranks_before format target (snd p) q).
  { intros p q Hp Hb. unfold before in Hb. simpl in Hb. rewrite Hp in Hb. exact Hb. }
  repeat split; try assumption.
  - intros Heq. destruct (Hb1 p2 (or_introl eq_refl)) as [Hlt|[_ Hlt]].
    + rewrite Hk1, Hk2, Heq in Hlt. revert Hlt. apply Qlt_irrefl.
    + lia.
  - intros c Hc Hne. apply Hrank; [assumption|]. apply Hb1.
    destruct (Hall c Hc) as [E|E]; [|assumption].
    exfalso. apply Hne. rewrite E. reflexivity.
  - intros c Hc Hne1 Hne2. apply Hrank; [assumption|]. apply Hb2.
    destruct (Hall c Hc) as [E|[E|E]]; [| |assumption]; exfalso.
    + apply Hne1. rewrite E. reflexivity.
    + apply Hne2. rewrite E. reflexivity.
Qed.


(** The ranking is asymmetric, so the two closest channels are determined. *)
Lemma ranks_before_asym format target c c' :
  ranks_before format target c c' -> ranks_before format target c' c -> False.
Proof.
  unfold ranks_before. intros [H|[H Hlt]] [H'|[H' Hlt']]; try qlra. lia.
Qed.

Lemma two_closest_unique format target c1 c2 c1' c2' :
  two_closest format target c1 c2 -> two_closest format target c1' c2' ->
  c1 = c1' /\ c2 = c2'.
Proof.
  intros (H1 & H2 & Hne & Hbest1 & Hbest2) (H1' & H2' & Hne' & Hbest1' & Hbest2').
  assert (E1 : c1 = c1').
  { destruct (Nat.eq_dec c1 c1') as [E|E]; [assumption|]. exfalso.
    apply (ranks_before_asym format target c1 c1').
    - apply Hbest1; [assumption | intros e; apply E; symmetry; exact e].
    - apply Hbest1'; [assumption | exact E]. }
  subst c1'. split; [reflexivity|].
  destruct (Nat.eq_dec c2 c2') as [E|E]; [assumption|]. exfalso.
  apply (ranks_before_asym format target c2 c2').
  - apply Hbest2; [assumption | intros e; apply Hne'; symmetry; exact e
                  | intros e; apply E; symmetry; exact e].
  - apply Hbest2'; [assumption | intros e; apply Hne; symmetry; exact e | exact E].
Qed.

Ltac case_channel c :=
  let rec go n :=
    lazymatch n with
    | O => idtac
    | S ?m => destruct c as [|c]; [ | go m ]
    end in
  go 8%nat.

(** Any two distinct spatial speakers of a format are at least 30 degrees
    apart. *)
Lemma speakers_separated format c c' :
  In c (spatial_channels format) -> In c' (spatial_channels format) ->
  c <> c' ->
  30 <= _angle_distance (inject_Z (speaker_angle format c))
          (inject_Z (speaker_angle format c')).
Proof.
  rewrite !spatial_channels_in_range. unfold speaker_angle.
  destruct (format_cases format) as [[Hn Ht]|[Hn Ht]]; rewrite Hn, Ht;
    intros [Hc Hc3] [Hc' Hc'3] Hne;
    case_channel c; case_channel c';
    try lia; apply Qle_bool_iff; vm_compute; reflexivity.
Qed.

Lemma channel_distance_nonneg format target c :
  0 <= channel_distance format target c.
Proof. apply angle_distance_range. Qed.

(** The two closest channels are never both within 15 degrees of the target. *)
Lemma two_closest_total_distance format target c1 c2 :
  two_closest format target c1 c2 ->
  30 <= channel_distance format target c1 + channel_distance format target c2.
Proof.
  intros (H1 & H2 & Hne & _).
  eapply Qle_trans; [apply (speakers_separated format _ _ H1 H2 Hne)|].
  apply angle_distance_triangle.
Qed.

End ClosestChannels.

(** ** Arrays and columns *)

Section Arrays.

Lemma wf_column a c col :
  wf_ndarray a = true -> get_column a c = Some col -> length col = nrows a.
Proof.
  unfold wf_ndarray, get_column. intros Hwf Hc.
  rewrite forallb_forall in Hwf. apply Nat.eqb_eq, Hwf.
  eapply nth_error_In, Hc.
Qed.

Lemma get_column_some a c :
  (c < ncols a)%nat -> exists col, get_column a c = Some col.
Proof.
  unfold get_column, ncols. intros H.
  destruct (nth_error (columns a) c) eqn:E; [eexists; reflexivity|].
  apply nth_error_None in E. lia.
Qed.

Lemma blend_length w1 w2 x y :
  length x = length y -> length (blend w1 w2 x y) = length x.
Proof.
  intros H. unfold blend. rewrite length_map, length_combine, <- H.
  apply Nat.min_id.
Qed.

(** Weights one and zero select the first signal. *)
Lemma blend_first x y :
  length x = length y -> blend 1 0 x y = x.
Proof.
  revert y. induction x as [|a x IH]; intros [|b y] H; simpl in *;
    try discriminate; [reflexivity|].
  unfold blend in *. simpl. rewrite IH by lia. f_equal. rlra.
Qed.

Lemma replace_nth_app {A : Type} (pre post : list A) (z x : A) :
  replace_nth (length pre) x (pre ++ z :: post) = pre ++ x :: post.
Proof.
  induction pre as [|h t IH]; simpl; [reflexivity|]. rewrite IH. reflexivity.
Qed.

Lemma set_column_next n pre z post v :
  length v = n ->
  set_column (mk_ndarray n (pre ++ z :: post)) (length pre) v
  = Some (mk_ndarray n (pre ++ v :: post)).
Proof.
  intros Hv. unfold set_column, ncols. simpl.
  rewrite length_app. simpl.
  replace (length pre <? length pre + S (length post))%nat with true
    by (symmetry; apply Nat.ltb_lt; lia).
  rewrite Hv, Nat.eqb_refl, replace_nth_app. reflexivity.
Qed.

Lemma nth_error_map_seq {A : Type} (f : nat -> A) n i :
  (i < n)%nat -> nth_error (map f (seq 0 n)) i = Some (f i).
Proof.
  intros H. rewrite nth_error_map, nth_error_seq.
  replace (i <? n)%nat with true by (symmetry; apply Nat.ltb_lt; lia).
  reflexivity.
Qed.

End Arrays.

(** ** The loop of [SurroundRotator.rotate] *)

Section RotateLoop.

Import SurroundRotator.
Local Open Scope Q_scope.

Variable format : string.
Variable surround_frame : ndarray.
Hypothesis frame_wf : wf_ndarray surround_frame = true.
Hypothesis frame_wide : (num_channels format <= ncols surround_frame)%nat.

Lemma spatial_column ch :
  In ch (spatial_channels format) ->
  exists col, get_column surround_frame ch = Some col /\
              length col = nrows surround_frame.
Proof.
  intros H. apply spatial_channels_in_range in H.
  destruct (get_column_some surround_frame ch) as [col Hcol]; [lia|].
  exists col. split; [assumption|]. eapply wf_column; eassumption.
Qed.

(** [_amplitude_pan] blends the columns of the two closest channels with the
    weights that [pan_weights] derives from their distances. *)
Lemma amplitude_pan_spec target :
  exists c1 c2 col1 col2,
    two_closest format target c1 c2 /\
    get_column surround_frame c1 = Some col1 /\
    get_column surround_frame c2 = Some col2 /\
    length col1 = nrows surround_frame /\
    length col2 = nrows surround_frame /\
    _amplitude_pan format surround_frame target
    = Some (blend
              (fst (pan_weights (channel_distance format target c1)
                                (channel_distance format target c2)))
              (snd (pan_weights (channel_distance format target c1)
                                (channel_distance format target c2)))
              col1 col2).
Proof.
  destruct (closest_channels_spec format target) as (c1 & c2 & Hcl & Htwo).
  pose proof Htwo as (Hin1 & Hin2 & _).
  destruct (spatial_column _ Hin1) as (col1 & Hcol1 & Hlen1).
  destruct (spatial_column _ Hin2) as (col2 & Hcol2 & Hlen2).
  exists c1, c2, col1, col2. repeat (split; [assumption|]).
  unfold _amplitude_pan. rewrite Hcl. simpl.
  apply spatial_channels_in_range in Hin1, Hin2.
  rewrite !lookup_speaker_angle by tauto. simpl.
  fold (channel_distance format target c1).
  fold (channel_distance format target c2).
  destruct (pan_weights _ _) as [w1 w2]. simpl.
  rewrite Hcol1, Hcol2. reflexivity.
Qed.

Lemma rotate_channel_signal yaw_degrees output ch :
  rotate_channel format surround_frame yaw_degrees output ch
  = (sig <- channel_signal format surround_frame yaw_degrees ch ;;
     set_column output ch sig).
Proof.
  unfold rotate_channel, channel_signal.
  destruct (lookup (SPEAKER_ANGLES format) ch) as [a|]; simpl; [|reflexivity].
  destruct (ch =? 3)%nat eqn:E; [|reflexivity].
  apply Nat.eqb_eq in E. subst ch. reflexivity.
Qed.

(** Every iteration of the loop has a signal of the block length to assign. *)
Lemma channel_signal_total yaw_degrees ch :
  (ch < num_channels format)%nat ->
  exists sig, channel_signal format surround_frame yaw_degrees ch = Some sig /\
              length sig = nrows surround_frame.
Proof.
  intros Hch. unfold channel_signal.
  rewrite lookup_speaker_angle by assumption. simpl.
  destruct (ch =? 3)%nat eqn:E.
  - apply Nat.eqb_eq in E. subst ch.
    destruct (get_column_some surround_frame 3%nat) as [col Hcol]; [lia|].
    exists col. split; [assumption|]. eapply wf_column; eassumption.
  - destruct (amplitude_pan_spec
                (rotated_angle (speaker_angle format ch) yaw_degrees))
      as (c1 & c2 & col1 & col2 & _ & _ & _ & Hl1 & Hl2 & ->).
    eexists. split; [reflexivity|].
    rewrite blend_length; congruence.
Qed.

Lemma rotate_loop_fills yaw_degrees (f : nat -> list R) n :
  (forall ch, (ch < n)%nat ->
     channel_signal format surround_frame yaw_degrees ch = Some (f ch) /\
     length (f ch) = nrows surround_frame) ->
  forall m k post, (k + m = n)%nat -> length post = m ->
    rotate_loop format surround_frame yaw_degrees (seq k m)
      (mk_ndarray (nrows surround_frame) (map f (seq 0 k) ++ post))
    = Some (mk_ndarray (nrows surround_frame) (map f (seq 0 n))).
Proof.
  intros Hf. induction m as [|m IH]; intros k post Hk Hpost.
  - destruct post; [|discriminate]. simpl. rewrite app_nil_r.
    replace k with n by lia. reflexivity.
  - destruct post as [|z post]; [discriminate|]. simpl.
    rewrite rotate_channel_signal.
    destruct (Hf k) as [Hsig Hlen]; [lia|]. rewrite Hsig. simpl.
    replace k with (length (map f (seq 0 k))) at 2
      by (rewrite length_map, length_seq; reflexivity).
    rewrite set_column_next by assumption. simpl.
    replace (map f (seq 0 k) ++ f k :: post)
      with (map f (seq 0 (S k)) ++ post)
      by (rewrite seq_S, map_app, <- app_assoc; reflexivity).
    apply IH; [lia | simpl in Hpost; lia].
Qed.

(** [rotate] returns an array of the block length whose column for each
    channel of the format is that channel's signal. *)
Lemma rotate_columns yaw_degrees :
  exists output,
    rotate format surround_frame yaw_degrees = Some output /\
    nrows output = nrows surround_frame /\
    ncols output = num_channels format /\
    wf_ndarray output = true /\
    forall ch, (ch < num_channels format)%nat ->
      get_column output ch
      = channel_signal format surround_frame yaw_degrees ch.
Proof.
  set (f := fun ch =>
              match channel_signal format surround_frame yaw_degrees ch with
              | Some sig => sig
              | None => []
              end).
  assert (Hf : forall ch, (ch < num_channels format)%nat ->
            channel_signal format surround_frame yaw_degrees ch = Some (f ch) /\
            length (f ch) = nrows surround_frame).
  { intros ch Hch. unfold f.
    destruct (channel_signal_total yaw_degrees ch Hch) as (sig & -> & Hlen).
    split; [reflexivity | assumption]. }
  exists (mk_ndarray (nrows surround_frame)
            (map f (seq 0 (num_channels format)))).
  split; [|split; [reflexivity|split; [|split]]].
  - unfold rotate, zeros.
    apply (rotate_loop_fills yaw_degrees f (num_channels format) Hf
             (num_channels format) 0%nat
             (repeat (repeat 0%R (nrows surround_frame)) (num_channels format)));
      [reflexivity | apply repeat_length].
  - unfold ncols. simpl. rewrite length_map, length_seq. reflexivity.
  - unfold wf_ndarray. simpl. apply forallb_forall. intros col Hcol.
    apply in_map_iff in Hcol. destruct Hcol as (ch & <- & Hch).
    apply in_seq in Hch. apply Nat.eqb_eq, Hf. lia.
  - intros ch Hch. unfold get_column. simpl.
    rewrite nth_error_map_seq by assumption. symmetry. apply Hf, Hch.
Qed.

End RotateLoop.

(** ** Panning weights, and targets that coincide with a speaker *)

Section PanWeights.

Import SurroundRotator.
Local Open Scope Q_scope.

(** Away from the fallback the weights are the equal-power pair. *)
Lemma pan_weights_equal_power d1 d2 :
  0.1 <= d1 + d2 ->
  pan_weights d1 d2
  = (cos (Q2R (d1 / (d1 + d2)) * PI / 2), sin (Q2R (d1 / (d1 + d2)) * PI / 2)).
Proof.
  intros H. unfold pan_weights.
  replace (Qltb (d1 + d2) 0.1) with false
    by (symmetry; apply Qltb_false; assumption).
  reflexivity.
Qed.

Lemma pan_weights_fallback d1 d2 :
  d1 + d2 < 0.1 -> pan_weights d1 d2 = (1%R, 0%R).
Proof.
  intros H. unfold pan_weights.
  replace (Qltb (d1 + d2) 0.1) with true
    by (symmetry; apply Qltb_true; assumption).
  reflexivity.
Qed.

(** A target that sits on the first speaker gives it the whole signal. *)
Lemma pan_weights_at_speaker d1 d2 :
  d1 == 0 -> 30 <= d1 + d2 -> pan_weights d1 d2 = (1%R, 0%R).
Proof.
  intros H0 Hsum. rewrite pan_weights_equal_power by qlra.
  assert (Ht : d1 / (d1 + d2) == 0).
  { rewrite H0. field. intros Hz. rewrite H0 in Hsum. qlra. }
  rewrite (Qeq_eqR _ _ Ht), RMicromega.Q2R_0.
  replace (0 * PI / 2)%R with 0%R by rlra.
  rewrite cos_0, sin_0. reflexivity.
Qed.

End PanWeights.

Section AtSpeaker.

Import SurroundRotator.
Local Open Scope Q_scope.

(** A spatial channel at distance zero from the target is ranked first. *)
Lemma two_closest_at_speaker format target c1 c2 ch :
  two_closest format target c1 c2 ->
  In ch (spatial_channels format) ->
  channel_distance format target ch == 0 ->
  c1 = ch.
Proof.
  intros (H1 & H2 & Hne & Hbest & _) Hch Hzero.
  destruct (Nat.eq_dec ch c1) as [E|E]; [symmetry; assumption|]. exfalso.
  pose proof (channel_distance_nonneg format target c1) as Hpos.
  pose proof (speakers_separated format c1 ch H1 Hch (fun e => E (eq_sym e)))
    as Hsep.
  pose proof (angle_distance_triangle
                (inject_Z (speaker_angle format c1)) target
                (inject_Z (speaker_angle format ch))) as Htri.
  fold (channel_distance format target c1) in Htri.
  fold (channel_distance format target ch) in Htri.
  destruct (Hbest ch Hch E) as [Hlt|[Heq _]]; qlra.
Qed.

(** After a whole number of turns every speaker looks at itself. *)
Lemma full_turn_distance format ch yaw_degrees (k : Z) :
  yaw_degrees == 360 * inject_Z k ->
  channel_distance format
    (rotated_angle (speaker_angle format ch) yaw_degrees) ch == 0.
Proof.
  intros Hyaw. unfold channel_distance.
  destruct (rotated_angle_normalised (speaker_angle format ch) yaw_degrees)
    as (_ & k' & Hk').
  set (a := inject_Z (speaker_angle format ch)) in *.
  set (t := rotated_angle (speaker_angle format ch) yaw_degrees) in *.
  pose proof (angle_distance_least a t (k + k')) as Hle.
  pose proof (angle_distance_range a t) as Hrange.
  rewrite inject_Z_plus in Hle.
  assert (Hz : a - t + 360 * (inject_Z k + inject_Z k') == 0) by qlra.
  rewrite Hz in Hle. change (Qabs 0) with 0 in Hle. qlra.
Qed.

Lemma amplitude_pan_unfold format frame target c1 c2 col1 col2 :
  closest_channels format target = Some [c1; c2] ->
  (c1 < num_channels format)%nat -> (c2 < num_channels format)%nat ->
  get_column frame c1 = Some col1 ->
  get_column frame c2 = Some col2 ->
  _amplitude_pan format frame target
  = Some (blend
            (fst (pan_weights (channel_distance format target c1)
                              (channel_distance format target c2)))
            (snd (pan_weights (channel_distance format target c1)
                              (channel_distance format target c2)))
            col1 col2).
Proof.
  intros Hcl Hc1 Hc2 Hcol1 Hcol2.
  unfold _amplitude_pan. rewrite Hcl. simpl.
  rewrite !lookup_speaker_angle by assumption. simpl.
  fold (channel_distance format target c1).
  fold (channel_distance format target c2).
  destruct (pan_weights _ _) as [w1 w2]. simpl.
  rewrite Hcol1, Hcol2. reflexivity.
Qed.

Variable format : string.
Variable surround_frame : ndarray.
Hypothesis frame_wf : wf_ndarray surround_frame = true.
Hypothesis frame_wide : (num_channels format <= ncols surround_frame)%nat.

Lemma amplitude_pan_at_speaker target ch :
  In ch (spatial_channels format) ->
  channel_distance format target ch == 0 ->
  _amplitude_pan format surround_frame target = get_column surround_frame ch.
Proof.
  intros Hch Hzero.
  destruct (amplitude_pan_spec format surround_frame frame_wf frame_wide target)
    as (c1 & c2 & col1 & col2 & Htwo & Hcol1 & Hcol2 & Hl1 & Hl2 & ->).
  pose proof (two_closest_at_speaker _ _ _ _ _ Htwo Hch Hzero) as ->.
  rewrite pan_weights_at_speaker;
    [ | assumption | apply (two_closest_total_distance _ _ _ _ Htwo)].
  simpl. rewrite blend_first by congruence. symmetry. assumption.
Qed.

(** A yaw of a whole number of turns reproduces the frame. *)
Lemma rotate_full_turn yaw_degrees (k : Z) :
  yaw_degrees == 360 * inject_Z k ->
  exists output,
    rotate format surround_frame yaw_degrees = Some output /\
    nrows output = nrows surround_frame /\
    ncols output = num_channels format /\
    wf_ndarray output = true /\
    forall ch, (ch < num_channels format)%nat ->
      get_column output ch = get_column surround_frame ch.
Proof.
  intros Hyaw.
  destruct (rotate_columns format surround_frame frame_wf frame_wide yaw_degrees)
    as (output & Hrot & Hrows & Hcols & Hwf & Hsig).
  exists output. repeat (split; [assumption|]).
  intros ch Hch. rewrite (Hsig ch Hch). unfold channel_signal.
  rewrite lookup_speaker_angle by assumption. simpl.
  destruct (ch =? 3)%nat eqn:E.
  - apply Nat.eqb_eq in E. subst ch. reflexivity.
  - apply Nat.eqb_neq in E. apply amplitude_pan_at_speaker.
    + apply spatial_channels_in_range. tauto.
    + apply (full_turn_distance format ch yaw_degrees k Hyaw).
Qed.

End AtSpeaker.

(** ** SurroundRotator: the claims *)

Section SurroundRotatorClaims.

Import SurroundRotator.
Local Open Scope Q_scope.

Lemma blend_nth w1 w2 x y i :
  length x = length y -> (i < length x)%nat ->
  nth i (blend w1 w2 x y) 0%R = (w1 * nth i x 0 + w2 * nth i y 0)%R.
Proof.
  unfold blend. revert y i.
  induction x as [|a x IH]; intros [|b y] i Hlen Hi; simpl in *;
    try lia; try discriminate.
  destruct i as [|i]; [rlra|]. apply IH; lia.
Qed.

(** The least of the values [|a - t + 360 k|] is unique, and it is what
    [_angle_distance] computes. *)
Lemma angle_distance_unique a t d :
  (exists k : Z, d == Qabs (a - t + 360 * inject_Z k)) ->
  (forall k : Z, d <= Qabs (a - t + 360 * inject_Z k)) ->
  d == _angle_distance a t.
Proof.
  intros [k Hk] Hleast.
  destruct (angle_distance_attained a t) as (k0 & Hk0).
  pose proof (Hleast k0) as H1.
  pose proof (angle_distance_least a t k) as H2.
  rewrite <- Hk0 in H1. rewrite <- Hk in H2. apply Qle_antisym; assumption.
Qed.

(** C1. For every yaw and every non-LFE output channel of a frame of the
    format, [rotate] returns a frame whose column for that channel holds, at
    every sample [i], [w1 * source[c1][i] + w2 * source[c2][i]].  Here the
    target angle is the speaker angle plus the yaw, brought into (-180, 180]
    by whole turns; the shortest angular distance of a channel is the least
    [|angle - target + 360 k|] over the whole numbers [k]; [c1] and [c2] are
    distinct non-LFE channels of the format, [c1] ranked before every other
    one and [c2] before every one but [c1], by shortest distance and then by
    lower channel index; and with [t = d1 / (d1 + d2)] the weights are
    [cos (t * pi / 2)] and [sin (t * pi / 2)], except that they are 1 and 0
    when [d1 + d2 < 0.1]. *)
Theorem rotate_pans_two_closest format surround_frame yaw_degrees out_channel :
  wf_ndarray surround_frame = true ->
  (num_channels format <= ncols surround_frame)%nat ->
  (out_channel < num_channels format)%nat ->
  out_channel <> 3%nat ->
  let target := rotated_angle (speaker_angle format out_channel) yaw_degrees in
  let angle := fun c => inject_Z (speaker_angle format c) in
  let spatial := fun c => (c < num_channels format)%nat /\ c <> 3%nat in
  let shortest := fun c d =>
    (exists k : Z, d == Qabs (angle c - target + 360 * inject_Z k)) /\
    (forall k : Z, d <= Qabs (angle c - target + 360 * inject_Z k)) in
  (- (180) < target <= 180 /\
   exists k : Z, target == angle out_channel + yaw_degrees + 360 * inject_Z k) /\
  exists output c1 c2 d1 d2 w1 w2 col1 col2 out_col,
    rotate format surround_frame yaw_degrees = Some output /\
    spatial c1 /\ spatial c2 /\ c1 <> c2 /\
    shortest c1 d1 /\
    shortest c2 d2 /\
    (forall c d, spatial c -> c <> c1 -> shortest c d ->
       d1 < d \/ (d1 == d /\ (c1 < c)%nat)) /\
    (forall c d, spatial c -> c <> c1 -> c <> c2 -> shortest c d ->
       d2 < d \/ (d2 == d /\ (c2 < c)%nat)) /\
    (d1 + d2 < 0.1 -> w1 = 1%R /\ w2 = 0%R) /\
    (0.1 <= d1 + d2 ->
       w1 = cos (Q2R (d1 / (d1 + d2)) * PI / 2) /\
       w2 = sin (Q2R (d1 / (d1 + d2)) * PI / 2)) /\
    get_column surround_frame c1 = Some col1 /\
    get_column surround_frame c2 = Some col2 /\
    get_column output out_channel = Some out_col /\
    length out_col = nrows surround_frame /\
    forall i, (i < nrows surround_frame)%nat ->
      nth i out_col 0%R = (w1 * nth i col1 0 + w2 * nth i col2 0)%R.
Proof.
  intros Hwf Hwide Hout Hlfe target angle spatial shortest.
  split; [apply rotated_angle_normalised|].
  destruct (rotate_columns format surround_frame Hwf Hwide yaw_degrees)
    as (output & Hrot & _ & _ & _ & Hsig).
  destruct (amplitude_pan_spec format surround_frame Hwf Hwide target)
    as (c1 & c2 & col1 & col2 & Htwo & Hcol1 & Hcol2 & Hl1 & Hl2 & Hpan).
  set (d1 := channel_distance format target c1) in *.
  set (d2 := channel_distance format target c2) in *.
  destruct Htwo as (Hin1 & Hin2 & Hne & Hbest1 & Hbest2).
  assert (Hshortest : forall c, shortest c (channel_distance format target c)).
  { intros c. split;
      [apply angle_distance_attained | apply angle_distance_least]. }
  exists output, c1, c2, d1, d2,
    (fst (pan_weights d1 d2)), (snd (pan_weights d1 d2)), col1, col2,
    (blend (fst (pan_weights d1 d2)) (snd (pan_weights d1 d2)) col1 col2).
  split; [assumption|].
  split; [apply spatial_channels_in_range; assumption|].
  split; [apply spatial_channels_in_range; assumption|].
  split; [assumption|].
  split; [apply Hshortest|].
  split; [apply Hshortest|].
  split; [|split].
  - intros c d Hc Hc1 [Hd Hd']. apply angle_distance_unique in Hd; [|exact Hd'].
    apply spatial_channels_in_range in Hc.
    destruct (Hbest1 c Hc Hc1) as [H|[H Hlt]];
      fold d1 in H; unfold channel_distance in H; fold (angle c) in H.
    + left. rewrite Hd. exact H.
    + right. split; [rewrite Hd; exact H | exact Hlt].
  - intros c d Hc Hc1 Hc2 [Hd Hd'].
    apply angle_distance_unique in Hd; [|exact Hd'].
    apply spatial_channels_in_range in Hc.
    destruct (Hbest2 c Hc Hc1 Hc2) as [H|[H Hlt]];
      fold d2 in H; unfold channel_distance in H; fold (angle c) in H.
    + left. rewrite Hd. exact H.
    + right. split; [rewrite Hd; exact H | exact Hlt].
  - split; [intros Hsmall; rewrite pan_weights_fallback by assumption;
            split; reflexivity|].
    split; [intros Hbig; rewrite pan_weights_equal_power by assumption;
            split; reflexivity|].
    repeat (split; [assumption|]).
    split; [|split].
    + rewrite (Hsig out_channel Hout). unfold channel_signal.
      rewrite lookup_speaker_angle by assumption. simpl.
      replace (out_channel =? 3)%nat with false
        by (symmetry; apply Nat.eqb_neq; assumption).
      exact Hpan.
    + rewrite blend_length; congruence.
    + intros i Hi. apply blend_nth; congruence || lia.
Qed.

Lemma rotate_pans_two_closest_witness :
  wf_ndarray front_left_71 = true /\
  (num_channels "7.1" <= ncols front_left_71)%nat /\
  (0 < num_channels "7.1")%nat /\
  0%nat <> 3%nat /\
  let target := rotated_angle (speaker_angle "7.1" 0) 30 in
  let angle := fun c => inject_Z (speaker_angle "7.1" c) in
  let spatial := fun c => (c < num_channels "7.1")%nat /\ c <> 3%nat in
  let shortest := fun c d =>
    (exists k : Z, d == Qabs (angle c - target + 360 * inject_Z k)) /\
    (forall k : Z, d <= Qabs (angle c - target + 360 * inject_Z k)) in
  (- (180) < target <= 180 /\
   exists k : Z, target == angle 0%nat + 30 + 360 * inject_Z k) /\
  exists output c1 c2 d1 d2 w1 w2 col1 col2 out_col,
    rotate "7.1" front_left_71 30 = Some output /\
    spatial c1 /\ spatial c2 /\ c1 <> c2 /\
    shortest c1 d1 /\
    shortest c2 d2 /\
    (forall c d, spatial c -> c <> c1 -> shortest c d ->
       d1 < d \/ (d1 == d /\ (c1 < c)%nat)) /\
    (forall c d, spatial c -> c <> c1 -> c <> c2 -> shortest c d ->
       d2 < d \/ (d2 == d /\ (c2 < c)%nat)) /\
    (d1 + d2 < 0.1 -> w1 = 1%R /\ w2 = 0%R) /\
    (0.1 <= d1 + d2 ->
       w1 = cos (Q2R (d1 / (d1 + d2)) * PI / 2) /\
       w2 = sin (Q2R (d1 / (d1 + d2)) * PI / 2)) /\
    get_column front_left_71 c1 = Some col1 /\
    get_column front_left_71 c2 = Some col2 /\
    get_column output 0 = Some out_col /\
    length out_col = nrows front_left_71 /\
    forall i, (i < nrows front_left_71)%nat ->
      nth i out_col 0%R = (w1 * nth i col1 0 + w2 * nth i col2 0)%R.
Proof.
  assert (H1 : wf_ndarray front_left_71 = true) by reflexivity.
  assert (H2 : (num_channels "7.1" <= ncols front_left_71)%nat)
    by (vm_compute; lia).
  assert (H3 : (0 < num_channels "7.1")%nat) by (vm_compute; lia).
  assert (H4 : 0%nat <> 3%nat) by lia.
  repeat (split; [assumption|]).
  exact (rotate_pans_two_closest "7.1" front_left_71 30 0 H1 H2 H3 H4).
Defined.

(** C2. For every frame of the format and every yaw, channel 3 (LFE) of the
    frame returned by [rotate] is channel 3 of the input frame, unchanged. *)
Theorem rotate_lfe_passthrough format surround_frame yaw_degrees :
  wf_ndarray surround_frame = true ->
  (num_channels format <= ncols surround_frame)%nat ->
  exists output lfe,
    rotate format surround_frame yaw_degrees = Some output /\
    get_column surround_frame 3 = Some lfe /\
    get_column output 3 = Some lfe.
Proof.
  intros Hwf Hwide.
  destruct (rotate_columns format surround_frame Hwf Hwide yaw_degrees)
    as (output & Hrot & _ & _ & _ & Hsig).
  assert (H3 : (3 < num_channels format)%nat)
    by (destruct (format_cases format) as [[-> _]|[-> _]]; lia).
  destruct (get_column_some surround_frame 3%nat) as [lfe Hlfe]; [lia|].
  exists output, lfe. repeat (split; [assumption|]).
  rewrite (Hsig 3%nat H3). unfold channel_signal.
  rewrite lookup_speaker_angle by assumption. simpl. assumption.
Qed.

Lemma rotate_lfe_passthrough_witness :
  wf_ndarray front_left_71 = true /\
  (num_channels "7.1" <= ncols front_left_71)%nat /\
  exists output lfe,
    rotate "7.1" front_left_71 (-45.5) = Some output /\
    get_column front_left_71 3 = Some lfe /\
    get_column output 3 = Some lfe.
Proof.
  assert (H1 : wf_ndarray front_left_71 = true) by reflexivity.
  assert (H2 : (num_channels "7.1" <= ncols front_left_71)%nat)
    by (vm_compute; lia).
  repeat (split; [assumption|]).
  exact (rotate_lfe_passthrough "7.1" front_left_71 (-45.5) H1 H2).
Defined.

(** C3. For every frame of the format, [rotate] with yaw 0 returns a frame
    whose LFE column is the input's, and for every spatial channel the channel
    itself is the closest match of its own angle and its output column equals
    its input column (exactly, hence within any tolerance). *)
Theorem rotate_zero_identity format surround_frame :
  wf_ndarray surround_frame = true ->
  (num_channels format <= ncols surround_frame)%nat ->
  exists output,
    rotate format surround_frame 0 = Some output /\
    get_column output 3 = get_column surround_frame 3 /\
    forall ch, In ch (spatial_channels format) ->
      (exists c2,
         closest_channels format (rotated_angle (speaker_angle format ch) 0)
         = Some [ch; c2]) /\
      get_column output ch = get_column surround_frame ch.
Proof.
  intros Hwf Hwide.
  assert (Hzero : 0 == 360 * inject_Z 0) by reflexivity.
  destruct (rotate_full_turn format surround_frame Hwf Hwide 0 0%Z Hzero)
    as (output & Hrot & _ & _ & _ & Hsame).
  exists output. split; [assumption|]. split.
  - apply Hsame. destruct (format_cases format) as [[-> _]|[-> _]]; lia.
  - intros ch Hch. split.
    + destruct (closest_channels_spec format
                  (rotated_angle (speaker_angle format ch) 0))
        as (c1 & c2 & Hcl & Htwo).
      exists c2. rewrite Hcl.
      rewrite (two_closest_at_speaker _ _ _ _ _ Htwo Hch
                 (full_turn_distance format ch 0 0%Z Hzero)).
      reflexivity.
    + apply Hsame. apply spatial_channels_in_range in Hch. tauto.
Qed.

Lemma rotate_zero_identity_witness :
  wf_ndarray front_left_71 = true /\
  (num_channels "7.1" <= ncols front_left_71)%nat /\
  exists output,
    rotate "7.1" front_left_71 0 = Some output /\
    get_column output 3 = get_column front_left_71 3 /\
    forall ch, In ch (spatial_channels "7.1") ->
      (exists c2,
         closest_channels "7.1" (rotated_angle (speaker_angle "7.1" ch) 0)
         = Some [ch; c2]) /\
      get_column output ch = get_column front_left_71 ch.
Proof.
  assert (H1 : wf_ndarray front_left_71 = true) by reflexivity.
  assert (H2 : (num_channels "7.1" <= ncols front_left_71)%nat)
    by (vm_compute; lia).
  repeat (split; [assumption|]).
  exact (rotate_zero_identity "7.1" front_left_71 H1 H2).
Defined.

(** C10. In both speaker tables any two distinct spatial speakers are at
    least 30 degrees apart; hence for every target angle the two channels that
    [_amplitude_pan] selects have distances summing to at least 30, the test
    [total_dist < 0.1] is false, and the weights are the equal-power pair with
    a divisor of at least 30. *)
Theorem pan_fallback_unreachable format target_angle :
  (forall c c',
     In c (spatial_channels format) -> In c' (spatial_channels format) ->
     c <> c' ->
     30 <= _angle_distance (inject_Z (speaker_angle format c))
             (inject_Z (speaker_angle format c'))) /\
  exists c1 c2,
    closest_channels format target_angle = Some [c1; c2] /\
    let d1 := channel_distance format target_angle c1 in
    let d2 := channel_distance format target_angle c2 in
    30 <= d1 + d2 /\
    Qltb (d1 + d2) 0.1 = false /\
    pan_weights d1 d2
    = (cos (Q2R (d1 / (d1 + d2)) * PI / 2), sin (Q2R (d1 / (d1 + d2)) * PI / 2)).
Proof.
  split; [apply speakers_separated|].
  destruct (closest_channels_spec format target_angle)
    as (c1 & c2 & Hcl & Htwo).
  pose proof (two_closest_total_distance _ _ _ _ Htwo) as Hsum.
  exists c1, c2. split; [assumption|]. simpl. split; [assumption|]. split.
  - apply Qltb_false. qlra.
  - apply pan_weights_equal_power. qlra.
Qed.


Lemma pan_fallback_unreachable_witness :
  In 0%nat (spatial_channels "7.1") /\ In 2%nat (spatial_channels "7.1") /\
  0%nat <> 2%nat /\
  30 <= _angle_distance (inject_Z (speaker_angle "7.1" 0))
          (inject_Z (speaker_angle "7.1" 2)).
Proof.
  assert (H1 : In 0%nat (spatial_channels "7.1")) by (vm_compute; tauto).
  assert (H2 : In 2%nat (spatial_channels "7.1")) by (vm_compute; tauto).
  assert (H3 : 0%nat <> 2%nat) by lia.
  repeat (split; [assumption|]).
  exact (proj1 (pan_fallback_unreachable "7.1" 60) 0%nat 2%nat H1 H2 H3).
Defined.

Lemma rotate_keeps_lfe format surround_frame yaw_degrees :
  wf_ndarray surround_frame = true ->
  (num_channels format <= ncols surround_frame)%nat ->
  exists output,
    rotate format surround_frame yaw_degrees = Some output /\
    wf_ndarray output = true /\
    ncols output = num_channels format /\
    get_column output 3 = get_column surround_frame 3.
Proof.
  intros Hwf Hwide.
  destruct (rotate_columns format surround_frame Hwf Hwide yaw_degrees)
    as (output & Hrot & _ & Hcols & Hwfo & Hsig).
  assert (H3 : (3 < num_channels format)%nat)
    by (destruct (format_cases format) as [[-> _]|[-> _]]; lia).
  exists output. repeat (split; [assumption|]).
  rewrite (Hsig 3%nat H3). unfold channel_signal.
  rewrite lookup_speaker_angle by assumption. reflexivity.
Qed.

Lemma blend_silence w1 w2 : blend w1 w2 [0%R] [0%R] = [0%R].
Proof. unfold blend. simpl. f_equal. rlra. Qed.

(** C7, refuted. In 5.1, a frame whose only signal is a unit sample in the
    centre channel comes back from a rotation by 180 followed by one by -180
    with a silent centre: the deviation is 1, not at most 1e-4. *)
Lemma round_trip_180_loses_centre :
  exists out1 out2,
    rotate "5.1" centre_only_51 180 = Some out1 /\
    rotate "5.1" out1 (- (180)) = Some out2 /\
    In 2%nat (spatial_channels "5.1") /\
    get_column centre_only_51 2 = Some [1%R] /\
    get_column out2 2 = Some [0%R] /\
    ~ (Rabs (0 - 1) <= 1 / 10000)%R.
Proof.
  assert (Hwf : wf_ndarray centre_only_51 = true) by reflexivity.
  assert (Hwide : (num_channels "5.1" <= ncols centre_only_51)%nat)
    by (vm_compute; lia).
  destruct (rotate_columns "5.1" centre_only_51 Hwf Hwide 180)
    as (out1 & Hrot1 & _ & Hcols1 & Hwf1 & Hsig1).
  assert (Hwide1 : (num_channels "5.1" <= ncols out1)%nat)
    by (rewrite Hcols1; apply Nat.le_refl).
  destruct (rotate_columns "5.1" out1 Hwf1 Hwide1 (- (180)))
    as (out2 & Hrot2 & _ & _ & _ & Hsig2).
  exists out1, out2. repeat (split; [assumption|]).
  split; [vm_compute; tauto|]. split; [reflexivity|]. split.
  - (* out1[LS] blends R and RS; out1[RS] blends L and LS: all silent *)
    assert (H4 : get_column out1 4 = Some [0%R]).
    { rewrite (Hsig1 4%nat) by (vm_compute; lia).
      change (channel_signal "5.1" centre_only_51 180 4)
        with (_amplitude_pan "5.1" centre_only_51 (rotated_angle 110 180)).
      rewrite (amplitude_pan_unfold "5.1" centre_only_51 _ 1 5 [0%R] [0%R]);
        try reflexivity; try (vm_compute; lia).
      rewrite blend_silence. reflexivity. }
    assert (H5 : get_column out1 5 = Some [0%R]).
    { rewrite (Hsig1 5%nat) by (vm_compute; lia).
      change (channel_signal "5.1" centre_only_51 180 5)
        with (_amplitude_pan "5.1" centre_only_51 (rotated_angle (-110) 180)).
      rewrite (amplitude_pan_unfold "5.1" centre_only_51 _ 0 4 [0%R] [0%R]);
        try reflexivity; try (vm_compute; lia).
      rewrite blend_silence. reflexivity. }
    (* out2[C] looks at 180 degrees and blends out1[LS] and out1[RS] *)
    rewrite (Hsig2 2%nat) by (vm_compute; lia).
    change (channel_signal "5.1" out1 (- (180)) 2)
      with (_amplitude_pan "5.1" out1 (rotated_angle 0 (- (180)))).
    rewrite (amplitude_pan_unfold "5.1" out1 _ 4 5 [0%R] [0%R]);
      try assumption; try reflexivity; try (vm_compute; lia).
    rewrite blend_silence. reflexivity.
  - unfold Rminus. rewrite Rplus_0_l, Rabs_Ropp, Rabs_R1. rlra.
Qed.

(** C7, as amended. For every frame of the format and every yaw, rotating by
    the yaw and then by its opposite returns a frame whose LFE column is the
    original one; when the yaw is a whole number of turns every channel is
    restored exactly. *)
Theorem rotate_round_trip format surround_frame yaw_degrees :
  wf_ndarray surround_frame = true ->
  (num_channels format <= ncols surround_frame)%nat ->
  exists out1 out2,
    rotate format surround_frame yaw_degrees = Some out1 /\
    rotate format out1 (- yaw_degrees) = Some out2 /\
    get_column out2 3 = get_column surround_frame 3 /\
    ((exists k : Z, yaw_degrees == 360 * inject_Z k) ->
     forall ch, (ch < num_channels format)%nat ->
       get_column out2 ch = get_column surround_frame ch).
Proof.
  intros Hwf Hwide.
  destruct (rotate_keeps_lfe format surround_frame yaw_degrees Hwf Hwide)
    as (out1 & Hrot1 & Hwf1 & Hcols1 & Hlfe1).
  assert (Hwide1 : (num_channels format <= ncols out1)%nat)
    by (rewrite Hcols1; apply Nat.le_refl).
  destruct (rotate_keeps_lfe format out1 (- yaw_degrees) Hwf1 Hwide1)
    as (out2 & Hrot2 & _ & _ & Hlfe2).
  exists out1, out2. repeat (split; [assumption|]).
  split; [congruence|].
  intros [k Hk] ch Hch.
  destruct (rotate_full_turn format surround_frame Hwf Hwide yaw_degrees k Hk)
    as (o1 & Ho1 & _ & _ & _ & Hsame1).
  assert (Hk' : - yaw_degrees == 360 * inject_Z (- k))
    by (rewrite inject_Z_opp; qlra).
  destruct (rotate_full_turn format out1 Hwf1 Hwide1 (- yaw_degrees) (- k)%Z Hk')
    as (o2 & Ho2 & _ & _ & _ & Hsame2).
  assert (o1 = out1) by congruence. assert (o2 = out2) by congruence. subst.
  rewrite Hsame2, Hsame1 by assumption. reflexivity.
Qed.

Lemma rotate_round_trip_witness :
  wf_ndarray front_left_71 = true /\
  (num_channels "7.1" <= ncols front_left_71)%nat /\
  exists out1 out2,
    rotate "7.1" front_left_71 720 = Some out1 /\
    rotate "7.1" out1 (- (720)) = Some out2 /\
    get_column out2 3 = get_column front_left_71 3 /\
    (exists k : Z, 720 == 360 * inject_Z k) /\
    forall ch, (ch < num_channels "7.1")%nat ->
      get_column out2 ch = get_column front_left_71 ch.
Proof.
  assert (H1 : wf_ndarray front_left_71 = true) by reflexivity.
  assert (H2 : (num_channels "7.1" <= ncols front_left_71)%nat)
    by (vm_compute; lia).
  assert (H3 : exists k : Z, 720 == 360 * inject_Z k)
    by (exists 2%Z; reflexivity).
  repeat (split; [assumption|]).
  destruct (rotate_round_trip "7.1" front_left_71 720 H1 H2)
    as (out1 & out2 & Ha & Hb & Hc & Hd).
  exists out1, out2. repeat (split; [assumption|]). exact (Hd H3).
Defined.

End SurroundRotatorClaims.

(** ** Signals as lists of samples *)

Section Vectors.

Import StereoTo71Upmixer.

Lemma nth_map_in_range {A B : Type} (f : A -> B) l i (a : A) (b : B) :
  (i < length l)%nat -> nth i (map f l) b = f (nth i l a).
Proof.
  intros H. rewrite (nth_indep _ b (f a)) by (rewrite length_map; assumption).
  apply map_nth.
Qed.

Lemma vadd_length x y : length x = length y -> length (vadd x y) = length x.
Proof.
  intros H. unfold vadd. rewrite length_map, length_combine, <- H.
  apply Nat.min_id.
Qed.

Lemma vsub_length x y : length x = length y -> length (vsub x y) = length x.
Proof.
  intros H. unfold vsub. rewrite length_map, length_combine, <- H.
  apply Nat.min_id.
Qed.

Lemma vscale_length k x : length (vscale k x) = length x.
Proof. apply length_map. Qed.

Lemma vneg_length x : length (vneg x) = length x.
Proof. apply length_map. Qed.

Lemma vadd_nth x y i :
  length x = length y -> (i < length x)%nat ->
  nth i (vadd x y) 0%R = (nth i x 0 + nth i y 0)%R.
Proof.
  intros H Hi. unfold vadd.
  rewrite (nth_map_in_range _ _ _ (0%R, 0%R))
    by (rewrite length_combine, <- H, Nat.min_id; assumption).
  rewrite combine_nth by assumption. reflexivity.
Qed.

Lemma vsub_nth x y i :
  length x = length y -> (i < length x)%nat ->
  nth i (vsub x y) 0%R = (nth i x 0 - nth i y 0)%R.
Proof.
  intros H Hi. unfold vsub.
  rewrite (nth_map_in_range _ _ _ (0%R, 0%R))
    by (rewrite length_combine, <- H, Nat.min_id; assumption).
  rewrite combine_nth by assumption. reflexivity.
Qed.

Lemma vscale_nth k x i :
  (i < length x)%nat -> nth i (vscale k x) 0%R = (nth i x 0 * k)%R.
Proof.
  intros Hi. unfold vscale.
  rewrite (nth_map_in_range (fun s => (s * k)%R) x i 0%R 0%R Hi). reflexivity.
Qed.

Lemma vneg_nth x i :
  (i < length x)%nat -> nth i (vneg x) 0%R = (- nth i x 0)%R.
Proof.
  intros Hi. unfold vneg.
  rewrite (nth_map_in_range Ropp x i 0%R 0%R Hi). reflexivity.
Qed.

(** A delayed signal: [delay] leading zeros, then the input, cut to the block
    length and scaled. *)
Lemma delayed_spec delay n gain x :
  (0 <= delay)%Z -> length x = n ->
  exists sig,
    delayed delay n gain x = Some sig /\
    length sig = n /\
    forall i, (i < n)%nat ->
      nth i sig 0%R
      = if (i <? Z.to_nat delay)%nat then 0%R
        else (nth (i - Z.to_nat delay) x 0 * gain)%R.
Proof.
  intros Hd Hx. unfold delayed, np_zeros.
  replace (delay <? 0)%Z with false by (symmetry; apply Z.ltb_ge; assumption).
  simpl. set (d := Z.to_nat delay).
  assert (Hlen : length (firstn n (repeat 0%R d ++ x)) = n).
  { rewrite length_firstn, length_app, repeat_length. lia. }
  eexists. split; [reflexivity|]. split.
  - rewrite vscale_length. assumption.
  - intros i Hi. rewrite vscale_nth by (rewrite Hlen; assumption).
    rewrite nth_firstn.
    replace (i <? n)%nat with true by (symmetry; apply Nat.ltb_lt; assumption).
    destruct (i <? d)%nat eqn:E.
    + apply Nat.ltb_lt in E.
      rewrite app_nth1 by (rewrite repeat_length; assumption).
      rewrite nth_repeat. rlra.
    + apply Nat.ltb_ge in E.
      rewrite app_nth2 by (rewrite repeat_length; assumption).
      rewrite repeat_length. reflexivity.
Qed.

Lemma set_column_ok a c v :
  (c < ncols a)%nat -> length v = nrows a ->
  set_column a c v = Some (mk_ndarray (nrows a) (replace_nth c v (columns a))).
Proof.
  intros Hc Hv. unfold set_column.
  replace (c <? ncols a)%nat with true by (symmetry; apply Nat.ltb_lt; assumption).
  rewrite Hv, Nat.eqb_refl. reflexivity.
Qed.

End Vectors.

(** ** StereoTo71Upmixer *)

Section UpmixerFacts.

Import StereoTo71Upmixer.
Local Open Scope Q_scope.

Lemma py_int_nonneg x : 0 <= x -> py_int x = Qfloor x.
Proof.
  intros H. unfold py_int.
  replace (Qltb x 0) with false by (symmetry; apply Qltb_false; assumption).
  reflexivity.
Qed.

Lemma Qfloor_nonneg x : 0 <= x -> (0 <= Qfloor x)%Z.
Proof.
  intros H. change 0%Z with (Qfloor 0). apply Qfloor_resp_le. assumption.
Qed.

Lemma inject_Z_nonneg z : (0 <= z)%Z -> 0 <= inject_Z z.
Proof. intros H. change 0 with (inject_Z 0). rewrite <- Zle_Qle. assumption. Qed.

Variable sample_rate : Z.
Variable format : string.
Variable sosfilt : list R -> list R.
Hypothesis sosfilt_length : forall x, length (sosfilt x) = length x.
Hypothesis sample_rate_nonneg : (0 <= sample_rate)%Z.

Lemma surround_delay_floor :
  surround_delay_samples sample_rate = Qfloor (0.005 * inject_Z sample_rate)
  /\ (0 <= surround_delay_samples sample_rate)%Z.
Proof.
  pose proof (inject_Z_nonneg _ sample_rate_nonneg) as H.
  assert (H' : 0 <= 0.005 * inject_Z sample_rate) by qlra.
  unfold surround_delay_samples. rewrite py_int_nonneg by assumption.
  split; [reflexivity | apply Qfloor_nonneg; assumption].
Qed.

Lemma rear_delay_floor :
  rear_delay_samples sample_rate = Qfloor (0.010 * inject_Z sample_rate)
  /\ (0 <= rear_delay_samples sample_rate)%Z.
Proof.
  pose proof (inject_Z_nonneg _ sample_rate_nonneg) as H.
  assert (H' : 0 <= 0.010 * inject_Z sample_rate) by qlra.
  unfold rear_delay_samples. rewrite py_int_nonneg by assumption.
  split; [reflexivity | apply Qfloor_nonneg; assumption].
Qed.

Variable stereo_frame : ndarray.
Variables left right : list R.
Hypothesis frame_wf : wf_ndarray stereo_frame = true.
Hypothesis left_column : get_column stereo_frame 0 = Some left.
Hypothesis right_column : get_column stereo_frame 1 = Some right.

Lemma left_length : length left = nrows stereo_frame.
Proof. apply (wf_column stereo_frame 0 left frame_wf left_column). Qed.

Lemma right_length : length right = nrows stereo_frame.
Proof. apply (wf_column stereo_frame 1 right frame_wf right_column). Qed.

(** The frame that [upmix] returns, column by column. *)
Lemma upmix_result :
  let n := nrows stereo_frame in
  exists ls rs lb rb,
    delayed (surround_delay_samples sample_rate) n 0.7 (vsub left right) = Some ls /\
    delayed (surround_delay_samples sample_rate) n 0.7 (vsub right left) = Some rs /\
    delayed (rear_delay_samples sample_rate) n 0.5 (vneg (vsub left right)) = Some lb /\
    delayed (rear_delay_samples sample_rate) n 0.5 (vneg (vsub right left)) = Some rb /\
    upmix sample_rate format sosfilt stereo_frame
    = Some (mk_ndarray n
              ([left; right; vscale 0.5 (vadd left right);
                sosfilt (vscale 0.5 (vadd left right)); ls; rs]
               ++ (if String.eqb format "7.1" then [lb; rb]
                   else if String.eqb format "5.1" then []
                   else [repeat 0%R n; repeat 0%R n]))).
Proof.
  intros n.
  pose proof left_length as Hl. pose proof right_length as Hr.
  fold n in Hl, Hr.
  destruct surround_delay_floor as [_ Hds]. destruct rear_delay_floor as [_ Hdr].
  assert (Hdl : length (vsub left right) = n) by (rewrite vsub_length; congruence).
  assert (Hdr' : length (vsub right left) = n) by (rewrite vsub_length; congruence).
  destruct (delayed_spec _ n 0.7 (vsub left right) Hds Hdl) as (ls & Hls & Hlsl & _).
  destruct (delayed_spec _ n 0.7 (vsub right left) Hds Hdr') as (rs & Hrs & Hrsl & _).
  destruct (delayed_spec (rear_delay_samples sample_rate) n 0.5
              (vneg (vsub left right)) Hdr) as (lb & Hlb & Hlbl & _);
    [rewrite vneg_length; assumption|].
  destruct (delayed_spec (rear_delay_samples sample_rate) n 0.5
              (vneg (vsub right left)) Hdr) as (rb & Hrb & Hrbl & _);
    [rewrite vneg_length; assumption|].
  exists ls, rs, lb, rb. repeat (split; [assumption|]).
  assert (Hc : length (vscale 0.5 (vadd left right)) = n)
    by (rewrite vscale_length, vadd_length; congruence).
  assert (Hf : length (sosfilt (vscale 0.5 (vadd left right))) = n)
    by (rewrite sosfilt_length; assumption).
  unfold upmix. cbv zeta. fold n. rewrite left_column, right_column.
  cbn [bind]. rewrite Hls, Hrs, Hlb, Hrb. unfold num_channels, zeros.
  destruct (String.eqb format "7.1") eqn:E71;
    destruct (String.eqb format "5.1") eqn:E51;
    try (apply String.eqb_eq in E71, E51; congruence);
    cbn [repeat];
    repeat (rewrite set_column_ok by (cbn; lia || assumption);
            cbn [bind replace_nth columns nrows]);
    reflexivity.
Qed.

End UpmixerFacts.

Section UpmixerClaims.

Import StereoTo71Upmixer.
Local Open Scope Q_scope.

(** C4. For every stereo frame, [upmix] returns a frame whose channel 0 is L,
    whose channel 1 is R, and whose channel 2 is, sample by sample, the
    average (L + R) / 2. *)
Theorem upmix_front_and_centre sample_rate format sosfilt stereo_frame left right :
  (forall x, length (sosfilt x) = length x) ->
  (0 <= sample_rate)%Z ->
  wf_ndarray stereo_frame = true ->
  get_column stereo_frame 0 = Some left ->
  get_column stereo_frame 1 = Some right ->
  exists output centre,
    upmix sample_rate format sosfilt stereo_frame = Some output /\
    get_column output 0 = Some left /\
    get_column output 1 = Some right /\
    get_column output 2 = Some centre /\
    length centre = nrows stereo_frame /\
    forall i, (i < nrows stereo_frame)%nat ->
      nth i centre 0%R = ((nth i left 0 + nth i right 0) / 2)%R.
Proof.
  intros Hsos Hrate Hwf Hleft Hright.
  destruct (upmix_result sample_rate format sosfilt Hsos Hrate
              stereo_frame left right Hwf Hleft Hright)
    as (ls & rs & lb & rb & _ & _ & _ & _ & Hup).
  pose proof (left_length stereo_frame left Hwf Hleft) as Hl.
  pose proof (right_length stereo_frame right Hwf Hright) as Hr.
  eexists. exists (vscale 0.5 (vadd left right)).
  split; [exact Hup|]. repeat (split; [reflexivity|]). split.
  - rewrite vscale_length, vadd_length; congruence.
  - intros i Hi.
    rewrite vscale_nth by (rewrite vadd_length; congruence).
    rewrite vadd_nth by congruence. rlra.
Qed.

Lemma upmix_front_and_centre_witness :
  (forall x : list R, length ((fun y => y) x) = length x) /\
  (0 <= 48000)%Z /\
  wf_ndarray stereo_test_frame = true /\
  get_column stereo_test_frame 0 = Some [1; 0.5; 0.25]%R /\
  get_column stereo_test_frame 1 = Some [0; 0.5; -0.25]%R /\
  exists output centre,
    upmix 48000 "7.1" (fun y => y) stereo_test_frame = Some output /\
    get_column output 0 = Some [1; 0.5; 0.25]%R /\
    get_column output 1 = Some [0; 0.5; -0.25]%R /\
    get_column output 2 = Some centre /\
    length centre = nrows stereo_test_frame /\
    forall i, (i < nrows stereo_test_frame)%nat ->
      nth i centre 0%R
      = ((nth i [1; 0.5; 0.25] 0 + nth i [0; 0.5; -0.25] 0) / 2)%R.
Proof.
  assert (H1 : forall x : list R, length ((fun y => y) x) = length x)
    by reflexivity.
  assert (H2 : (0 <= 48000)%Z) by lia.
  assert (H3 : wf_ndarray stereo_test_frame = true) by reflexivity.
  assert (H4 : get_column stereo_test_frame 0 = Some [1; 0.5; 0.25]%R)
    by reflexivity.
  assert (H5 : get_column stereo_test_frame 1 = Some [0; 0.5; -0.25]%R)
    by reflexivity.
  repeat (split; [assumption|]).
  exact (upmix_front_and_centre 48000 "7.1" (fun y => y) stereo_test_frame
           _ _ H1 H2 H3 H4 H5).
Defined.

(** C5. For every stereo frame of [N] samples, [upmix] returns a frame whose
    channel 4 (LS) is 0.7 (L - R) and whose channel 5 (RS) is 0.7 (R - L),
    both delayed by the floor of 0.005 * sample_rate samples: that many
    leading zeros, cut back to [N] samples. For format 7.1 the frame has 8
    channels, channel 6 (LB) is 0.5 (-(L - R)) and channel 7 (RB) is
    0.5 (-(R - L)), delayed by the floor of 0.010 * sample_rate samples; for
    format 5.1 the frame has only 6 channels. *)
Theorem upmix_surround_channels sample_rate format sosfilt stereo_frame left right :
  (forall x, length (sosfilt x) = length x) ->
  (0 <= sample_rate)%Z ->
  wf_ndarray stereo_frame = true ->
  get_column stereo_frame 0 = Some left ->
  get_column stereo_frame 1 = Some right ->
  let n := nrows stereo_frame in
  let ds := Z.to_nat (Qfloor (0.005 * inject_Z sample_rate)) in
  let dr := Z.to_nat (Qfloor (0.010 * inject_Z sample_rate)) in
  exists output ls rs,
    upmix sample_rate format sosfilt stereo_frame = Some output /\
    nrows output = n /\
    get_column output 4 = Some ls /\ length ls = n /\
    get_column output 5 = Some rs /\ length rs = n /\
    (forall i, (i < n)%nat ->
       nth i ls 0%R
       = if (i <? ds)%nat then 0%R
         else (0.7 * (nth (i - ds) left 0 - nth (i - ds) right 0))%R) /\
    (forall i, (i < n)%nat ->
       nth i rs 0%R
       = if (i <? ds)%nat then 0%R
         else (0.7 * (nth (i - ds) right 0 - nth (i - ds) left 0))%R) /\
    (format = "7.1"%string ->
     ncols output = 8%nat /\
     exists lb rb,
       get_column output 6 = Some lb /\ length lb = n /\
       get_column output 7 = Some rb /\ length rb = n /\
       (forall i, (i < n)%nat ->
          nth i lb 0%R
          = if (i <? dr)%nat then 0%R
            else (0.5 * - (nth (i - dr) left 0 - nth (i - dr) right 0))%R) /\
       (forall i, (i < n)%nat ->
          nth i rb 0%R
          = if (i <? dr)%nat then 0%R
            else (0.5 * - (nth (i - dr) right 0 - nth (i - dr) left 0))%R)) /\
    (format = "5.1"%string -> ncols output = 6%nat).
Proof.
  intros Hsos Hrate Hwf Hleft Hright n ds dr.
  pose proof (left_length stereo_frame left Hwf Hleft) as Hl.
  pose proof (right_length stereo_frame right Hwf Hright) as Hr.
  fold n in Hl, Hr.
  destruct (surround_delay_floor sample_rate Hrate) as [Hsd Hsd0].
  destruct (rear_delay_floor sample_rate Hrate) as [Hrd Hrd0].
  assert (Hdl : length (vsub left right) = n) by (rewrite vsub_length; congruence).
  assert (Hdr : length (vsub right left) = n) by (rewrite vsub_length; congruence).
  destruct (upmix_result sample_rate format sosfilt Hsos Hrate
              stereo_frame left right Hwf Hleft Hright)
    as (ls & rs & lb & rb & Hls & Hrs & Hlb & Hrb & Hup).
  fold n in Hls, Hrs, Hlb, Hrb, Hup.
  destruct (delayed_spec _ n 0.7 (vsub left right) Hsd0 Hdl)
    as (ls' & Hls' & Hlsl & Hlsn).
  destruct (delayed_spec _ n 0.7 (vsub right left) Hsd0 Hdr)
    as (rs' & Hrs' & Hrsl & Hrsn).
  destruct (delayed_spec (rear_delay_samples sample_rate) n 0.5
              (vneg (vsub left right)) Hrd0) as (lb' & Hlb' & Hlbl & Hlbn);
    [rewrite vneg_length; assumption|].
  destruct (delayed_spec (rear_delay_samples sample_rate) n 0.5
              (vneg (vsub right left)) Hrd0) as (rb' & Hrb' & Hrbl & Hrbn);
    [rewrite vneg_length; assumption|].
  assert (ls' = ls) by congruence. assert (rs' = rs) by congruence.
  assert (lb' = lb) by congruence. assert (rb' = rb) by congruence.
  subst ls' rs' lb' rb'. clear Hls' Hrs' Hlb' Hrb'.
  rewrite Hsd in Hlsn, Hrsn. rewrite Hrd in Hlbn, Hrbn.
  fold ds in Hlsn, Hrsn. fold dr in Hlbn, Hrbn.
  eexists. exists ls, rs. split; [exact Hup|].
  repeat (split; [reflexivity || assumption|]).
  assert (Hshift : forall i d, (i < n)%nat -> (i <? d)%nat = false ->
            (i - d < n)%nat) by (intros; lia).
  split; [|split; [|split]].
  - intros i Hi. rewrite (Hlsn i Hi). destruct (i <? ds)%nat eqn:E; [reflexivity|].
    rewrite vsub_nth by (rewrite ?Hl; auto; congruence). rlra.
  - intros i Hi. rewrite (Hrsn i Hi). destruct (i <? ds)%nat eqn:E; [reflexivity|].
    rewrite vsub_nth by (rewrite ?Hr; auto; congruence). rlra.
  - intros ->. split; [reflexivity|]. exists lb, rb.
    repeat (split; [reflexivity || assumption|]). split.
    + intros i Hi. rewrite (Hlbn i Hi).
      destruct (i <? dr)%nat eqn:E; [reflexivity|].
      rewrite vneg_nth by (rewrite Hdl; auto).
      rewrite vsub_nth by (rewrite ?Hl; auto; congruence). rlra.
    + intros i Hi. rewrite (Hrbn i Hi).
      destruct (i <? dr)%nat eqn:E; [reflexivity|].
      rewrite vneg_nth by (rewrite Hdr; auto).
      rewrite vsub_nth by (rewrite ?Hr; auto; congruence). rlra.
  - intros ->. reflexivity.
Qed.


Lemma upmix_surround_channels_witness :
  (forall x : list R, length ((fun y => y) x) = length x) /\
  (0 <= 200)%Z /\
  wf_ndarray stereo_test_frame = true /\
  get_column stereo_test_frame 0 = Some [1; 0.5; 0.25]%R /\
  get_column stereo_test_frame 1 = Some [0; 0.5; -0.25]%R /\
  let left := [1; 0.5; 0.25]%R in
  let right := [0; 0.5; -0.25]%R in
  let n := nrows stereo_test_frame in
  let ds := Z.to_nat (Qfloor (0.005 * inject_Z 200)) in
  let dr := Z.to_nat (Qfloor (0.010 * inject_Z 200)) in
  exists output ls rs,
    upmix 200 "7.1" (fun y => y) stereo_test_frame = Some output /\
    nrows output = n /\
    get_column output 4 = Some ls /\ length ls = n /\
    get_column output 5 = Some rs /\ length rs = n /\
    (forall i, (i < n)%nat ->
       nth i ls 0%R
       = if (i <? ds)%nat then 0%R
         else (0.7 * (nth (i - ds) left 0 - nth (i - ds) right 0))%R) /\
    (forall i, (i < n)%nat ->
       nth i rs 0%R
       = if (i <? ds)%nat then 0%R
         else (0.7 * (nth (i - ds) right 0 - nth (i - ds) left 0))%R) /\
    ("7.1"%string = "7.1"%string ->
     ncols output = 8%nat /\
     exists lb rb,
       get_column output 6 = Some lb /\ length lb = n /\
       get_column output 7 = Some rb /\ length rb = n /\
       (forall i, (i < n)%nat ->
          nth i lb 0%R
          = if (i <? dr)%nat then 0%R
            else (0.5 * - (nth (i - dr) left 0 - nth (i - dr) right 0))%R) /\
       (forall i, (i < n)%nat ->
          nth i rb 0%R
          = if (i <? dr)%nat then 0%R
            else (0.5 * - (nth (i - dr) right 0 - nth (i - dr) left 0))%R)) /\
    ("7.1"%string = "5.1"%string -> ncols output = 6%nat).
Proof.
  assert (H1 : forall x : list R, length ((fun y => y) x) = length x)
    by reflexivity.
  assert (H2 : (0 <= 200)%Z) by lia.
  assert (H3 : wf_ndarray stereo_test_frame = true) by reflexivity.
  assert (H4 : get_column stereo_test_frame 0 = Some [1; 0.5; 0.25]%R)
    by reflexivity.
  assert (H5 : get_column stereo_test_frame 1 = Some [0; 0.5; -0.25]%R)
    by reflexivity.
  repeat (split; [assumption|]).
  exact (upmix_surround_channels 200 "7.1" (fun y => y) stereo_test_frame
           _ _ H1 H2 H3 H4 H5).
Defined.

End UpmixerClaims.

(** ** StereoRotator *)

Section StereoRotatorFacts.

Import StereoRotator.
Local Open Scope Q_scope.

(** The normalised yaw, as [rotate] computes it. *)
Lemma yaw_normalised yaw_degrees :
  - (180) < yaw (rotate_locals yaw_degrees) <= 180 /\
  exists k : Z,
    yaw (rotate_locals yaw_degrees) == yaw_degrees + 360 * inject_Z k.
Proof.
  assert (Hy : yaw (rotate_locals yaw_degrees)
               = if Qltb 180 (pymod yaw_degrees 360)
                 then pymod yaw_degrees 360 - 360 else pymod yaw_degrees 360).
  { unfold rotate_locals. destruct (Qltb 90 _); reflexivity. }
  rewrite Hy. clear Hy.
  destruct (pymod_360 yaw_degrees) as (k & Hk & Hr).
  set (r := pymod yaw_degrees 360) in *.
  destruct (Qltb 180 r) eqn:E;
    [apply Qltb_true in E | apply Qltb_false in E].
  - split; [qlra|]. exists (- k + (-1))%Z.
    rewrite inject_Z_plus, inject_Z_opp. change (inject_Z (-1)) with (-1). qlra.
  - split; [qlra|]. exists (- k)%Z. rewrite inject_Z_opp. qlra.
Qed.

(** The two branches of the volume computation, in terms of the normalised
    yaw. *)
Lemma front_hemisphere yaw_degrees :
  Qabs (yaw (rotate_locals yaw_degrees)) <= 90 ->
  volume (rotate_locals yaw_degrees) == 1 /\
  pan_yaw (rotate_locals yaw_degrees) = yaw (rotate_locals yaw_degrees).
Proof.
  unfold rotate_locals.
  set (y := if Qltb 180 (pymod yaw_degrees 360)
            then pymod yaw_degrees 360 - 360 else pymod yaw_degrees 360).
  destruct (Qltb 90 (Qabs y)) eqn:E; simpl; intros H.
  - apply Qltb_true in E. exfalso. qlra.
  - split; reflexivity.
Qed.

Lemma rear_hemisphere yaw_degrees :
  90 < Qabs (yaw (rotate_locals yaw_degrees)) ->
  volume (rotate_locals yaw_degrees)
  == 1 - 0.8 * (Qabs (yaw (rotate_locals yaw_degrees)) - 90) / 90 /\
  pan_yaw (rotate_locals yaw_degrees)
  = if Qltb (yaw (rotate_locals yaw_degrees)) 0
    then - (180 - Qabs (yaw (rotate_locals yaw_degrees)))
    else 180 - Qabs (yaw (rotate_locals yaw_degrees)).
Proof.
  unfold rotate_locals.
  set (y := if Qltb 180 (pymod yaw_degrees 360)
            then pymod yaw_degrees 360 - 360 else pymod yaw_degrees 360).
  destruct (Qltb 90 (Qabs y)) eqn:E; simpl; intros H.
  - split; [field | reflexivity].
  - apply Qltb_false in E. exfalso. qlra.
Qed.

Lemma gains_unfold yaw_degrees :
  left_gain (rotate_locals yaw_degrees)
  = (cos (Q2R (pan (rotate_locals yaw_degrees)) * PI / 4 - PI / 4)
     * Q2R (volume (rotate_locals yaw_degrees)))%R /\
  right_gain (rotate_locals yaw_degrees)
  = (cos (Q2R (pan (rotate_locals yaw_degrees)) * PI / 4 + PI / 4)
     * Q2R (volume (rotate_locals yaw_degrees)))%R.
Proof.
  unfold rotate_locals. destruct (Qltb 90 _); split; reflexivity.
Qed.

Lemma Qabs_le_180 y : - (180) < y <= 180 -> Qabs y <= 180.
Proof. intros H. destruct (Qabs_cases y) as [[? E]|[? E]]; rewrite E; qlra. Qed.

(** The volume always lies between its floor 0.2 and 1. *)
Lemma volume_range yaw_degrees :
  0.2 <= volume (rotate_locals yaw_degrees) <= 1.
Proof.
  destruct (yaw_normalised yaw_degrees) as [Hy _].
  apply Qabs_le_180 in Hy.
  destruct (Qlt_le_dec 90 (Qabs (yaw (rotate_locals yaw_degrees)))) as [H|H].
  - destruct (rear_hemisphere yaw_degrees H) as [-> _].
    set (a := Qabs (yaw (rotate_locals yaw_degrees))) in *.
    assert (Ha : 0.8 * (a - 90) / 90 == (a - 90) * (4 # 450)) by field.
    rewrite Ha. qlra.
  - destruct (front_hemisphere yaw_degrees H) as [-> _]. qlra.
Qed.

End StereoRotatorFacts.

Section StereoRotatorClaims.

Import StereoRotator.
Local Open Scope Q_scope.




Lemma gains_at_90 :
  volume (rotate_locals 90) == 1 /\
  left_gain (rotate_locals 90) = 0%R /\
  right_gain (rotate_locals 90) = 1%R.
Proof.
  assert (Hv : volume (rotate_locals 90) == 1) by (lazy; reflexivity).
  assert (Hp : pan (rotate_locals 90) == - (1)) by (lazy; reflexivity).
  split; [assumption|].
  destruct (gains_unfold 90) as [-> ->].
  rewrite (Qeq_eqR _ _ Hp), (Qeq_eqR _ _ Hv), RMicromega.Q2R_1.
  replace (Q2R (- (1))) with (- (1))%R by (unfold Q2R; simpl; rlra).
  replace (- (1) * PI / 4 - PI / 4)%R with (- (PI / 2))%R by rlra.
  replace (- (1) * PI / 4 + PI / 4)%R with 0%R by rlra.
  rewrite cos_neg, cos_PI2, cos_0. split; rlra.
Qed.

Lemma right_gain_le_1 yaw_degrees :
  (right_gain (rotate_locals yaw_degrees) <= 1)%R.
Proof.
  destruct (gains_unfold yaw_degrees) as [_ ->].
  destruct (volume_range yaw_degrees) as [Hlo Hhi].
  apply Qle_Rle in Hlo, Hhi. rewrite RMicromega.Q2R_1 in Hhi.
  assert (H0 : (0 <= Q2R (volume (rotate_locals yaw_degrees)))%R).
  { eapply Rle_trans; [|exact Hlo]. unfold Q2R. simpl. rlra. }
  set (v := Q2R (volume (rotate_locals yaw_degrees))) in *.
  pose proof (COS_bound (Q2R (pan (rotate_locals yaw_degrees)) * PI / 4 + PI / 4))
    as [_ Hc].
  set (c := cos _) in *.
  assert (Hcv : (c * v <= 1 * v)%R) by (apply Rmult_le_compat_r; assumption).
  rlra.
Qed.

Lemma sqrt2_lower : (1.41 < sqrt 2)%R.
Proof.
  rewrite <- (sqrt_square 1.41) by rlra.
  apply sqrt_lt_1_alt. rlra.
Qed.

Lemma cos_PI4_upper : (cos (- (PI / 4)) * 1 < 0.71)%R.
Proof.
  rewrite cos_neg, cos_PI4, Rmult_1_r.
  pose proof sqrt2_lower as H.
  apply (Rmult_lt_reg_r (sqrt 2)); [rlra|].
  unfold Rdiv. rewrite Rmult_assoc, Rinv_l by rlra. rlra.
Qed.

(** C8, refuted. At yaw 90 the right gain is 1; it is not close to
    cos (-pi/4) * 1, which is below 0.71. *)
Lemma right_gain_at_90_not_cos_PI4 :
  right_gain (rotate_locals 90) = 1%R /\
  (0.29 < Rabs (right_gain (rotate_locals 90) - cos (- (PI / 4)) * 1))%R.
Proof.
  destruct gains_at_90 as (_ & _ & Hr). split; [assumption|].
  rewrite Hr. pose proof cos_PI4_upper as H.
  rewrite Rabs_right; rlra.
Qed.

(** C8, as amended. For a mono input (the same samples in both channels) and
    yaw 90, the volume is 1, the left gain is cos (-pi/2) = 0 and the right
    gain is cos 0 * 1 = 1, which no yaw exceeds; [rotate] returns silence on
    the left and the mono samples on the right. *)
Theorem stereo_rotate_at_90 stereo_frame samples :
  wf_ndarray stereo_frame = true ->
  get_column stereo_frame 0 = Some samples ->
  get_column stereo_frame 1 = Some samples ->
  volume (rotate_locals 90) == 1 /\
  left_gain (rotate_locals 90) = 0%R /\
  right_gain (rotate_locals 90) = 1%R /\
  (forall yaw_degrees, (right_gain (rotate_locals yaw_degrees) <= 1)%R) /\
  exists output out_left out_right,
    rotate stereo_frame 90 = Some output /\
    get_column output 0 = Some out_left /\
    get_column output 1 = Some out_right /\
    forall i, (i < nrows stereo_frame)%nat ->
      nth i out_left 0%R = 0%R /\ nth i out_right 0%R = nth i samples 0%R.
Proof.
  intros Hwf Hl Hr.
  destruct gains_at_90 as (Hv & Hlg & Hrg).
  repeat (split; [assumption|]). split; [apply right_gain_le_1|].
  pose proof (wf_column stereo_frame 0 samples Hwf Hl) as Hlen.
  set (mono := map (fun p => ((fst p + snd p) * 0.5)%R) (combine samples samples)).
  assert (Hmono : length mono = nrows stereo_frame).
  { unfold mono. rewrite length_map, length_combine, Nat.min_id. assumption. }
  assert (Hnth : forall i, (i < nrows stereo_frame)%nat ->
            nth i mono 0%R = nth i samples 0%R).
  { intros i Hi. unfold mono.
    rewrite (nth_map_in_range _ _ _ (0%R, 0%R))
      by (rewrite length_combine, Nat.min_id, Hlen; assumption).
    rewrite combine_nth by reflexivity. simpl. rlra. }
  unfold rotate. rewrite Hl, Hr. cbn [bind]. fold mono.
  rewrite Hlg, Hrg. unfold zeros. cbn [repeat].
  rewrite set_column_ok by (cbn; rewrite ?length_map; lia || assumption).
  cbn [bind replace_nth columns nrows].
  rewrite set_column_ok by (cbn; rewrite ?length_map; lia || assumption).
  cbn [replace_nth columns nrows].
  eexists. eexists. eexists. split; [reflexivity|].
  split; [reflexivity|]. split; [reflexivity|].
  intros i Hi. split.
  - rewrite (nth_map_in_range (fun m => (m * 0)%R) mono i 0%R 0%R)
      by (rewrite Hmono; assumption). rlra.
  - rewrite (nth_map_in_range (fun m => (m * 1)%R) mono i 0%R 0%R)
      by (rewrite Hmono; assumption).
    rewrite Hnth by assumption. rlra.
Qed.

Lemma stereo_rotate_at_90_witness :
  wf_ndarray mono_test_frame = true /\
  get_column mono_test_frame 0 = Some [0.3; -0.3; 0.1]%R /\
  get_column mono_test_frame 1 = Some [0.3; -0.3; 0.1]%R /\
  volume (rotate_locals 90) == 1 /\
  left_gain (rotate_locals 90) = 0%R /\
  right_gain (rotate_locals 90) = 1%R /\
  (forall yaw_degrees, (right_gain (rotate_locals yaw_degrees) <= 1)%R) /\
  exists output out_left out_right,
    rotate mono_test_frame 90 = Some output /\
    get_column output 0 = Some out_left /\
    get_column output 1 = Some out_right /\
    forall i, (i < nrows mono_test_frame)%nat ->
      nth i out_left 0%R = 0%R /\
      nth i out_right 0%R = nth i [0.3; -0.3; 0.1]%R 0%R.
Proof.
  assert (H1 : wf_ndarray mono_test_frame = true) by reflexivity.
  assert (H2 : get_column mono_test_frame 0 = Some [0.3; -0.3; 0.1]%R)
    by reflexivity.
  assert (H3 : get_column mono_test_frame 1 = Some [0.3; -0.3; 0.1]%R)
    by reflexivity.
  repeat (split; [assumption|]).
  exact (stereo_rotate_at_90 mono_test_frame _ H1 H2 H3).
Defined.

End StereoRotatorClaims.

(** ** AudioIO: the stream callback *)

Section CallbackFacts.

Import AudioIO.
Local Open Scope nat_scope.

Lemma skipn_repeat_zero {A : Type} (z : A) k n :
  skipn k (repeat z n) = repeat z (n - k).
Proof.
  revert n. induction k as [|k IH]; intros [|n]; simpl; try reflexivity.
  apply IH.
Qed.

Lemma broadcast_to_same n c v :
  nrows v = n -> ncols v = c -> broadcast_to n c v = Some v.
Proof.
  intros Hn Hc. unfold broadcast_to, broadcast_rows.
  rewrite Hn, Nat.eqb_refl. simpl. unfold broadcast_cols.
  rewrite Hc, Nat.eqb_refl. reflexivity.
Qed.

Lemma broadcast_to_shape n c v v' :
  broadcast_to n c v = Some v' -> nrows v' = n /\ ncols v' = c.
Proof.
  unfold broadcast_to, broadcast_rows, broadcast_cols.
  destruct (nrows v =? n) eqn:En; [apply Nat.eqb_eq in En|];
    [|destruct (nrows v =? 1); [|discriminate]]; cbn [bind];
    match goal with
    | |- context [ncols ?a =? c] =>
        destruct (ncols a =? c) eqn:Ec; [apply Nat.eqb_eq in Ec|];
        [|destruct (ncols a =? 1); [|discriminate]]
    end;
    intros [= <-]; simpl; unfold ncols; simpl;
    rewrite ?repeat_length; auto.
Qed.

(** A value with the wrong number of samples, other than a single one, cannot
    be assigned. *)
Lemma broadcast_to_rows_mismatch n c v :
  nrows v <> n -> nrows v <> 1 -> broadcast_to n c v = None.
Proof.
  intros Hn H1. unfold broadcast_to, broadcast_rows.
  apply Nat.eqb_neq in Hn, H1. rewrite Hn, H1. reflexivity.
Qed.

Variable output_channels : nat.
Variable callback : ndarray -> exc ndarray.
Variables indata outdata : ndarray.
Variable frames : nat.
Hypothesis outdata_rows : nrows outdata = frames.
Hypothesis outdata_cols : ncols outdata = output_channels.

Lemma try_body_raise :
  (stereo <- stereo_input indata ;; callback stereo) = None ->
  try_body output_channels callback indata outdata frames = ([], None).
Proof. intros H. unfold try_body. rewrite H. reflexivity. Qed.

(** A result of the block length is fitted to the configured channel count. *)
Lemma try_body_fit stereo result :
  stereo_input indata = Some stereo ->
  callback stereo = Some result ->
  nrows result = frames ->
  try_body output_channels callback indata outdata frames
  = ((if ncols result =? output_channels then []
      else [Warning_channels output_channels (ncols result)]),
     Some (fit_columns output_channels result)).
Proof.
  intros Hst Hcb Hrows. unfold try_body. rewrite Hst. cbn [bind]. rewrite Hcb.
  unfold fit_columns, assign_all. rewrite outdata_rows, outdata_cols.
  destruct (ncols result =? output_channels) eqn:E; cbn [negb].
  - apply Nat.eqb_eq in E.
    rewrite E, Nat.sub_diag. cbn [repeat]. rewrite app_nil_r.
    rewrite broadcast_to_same; [reflexivity | assumption |].
    unfold ncols, slice_cols. cbn [columns].
    rewrite firstn_all2 by (unfold ncols in E; lia). exact E.
  - apply Nat.eqb_neq in E.
    destruct (ncols result <? output_channels) eqn:Elt.
    + apply Nat.ltb_lt in Elt.
      unfold assign_cols, zeros, slice_cols. cbn [nrows columns].
      rewrite broadcast_to_same;
        [ | assumption
          | unfold ncols at 2; cbn [columns];
            rewrite length_firstn, repeat_length; lia ].
      cbn [bind]. rewrite skipn_repeat_zero.
      rewrite (@firstn_all2 _ output_channels (columns result))
        by (unfold ncols in Elt; lia).
      cbn [nrows columns].
      rewrite firstn_all2
        by (rewrite length_app, repeat_length; unfold ncols in *; lia).
      rewrite broadcast_to_same; [rewrite Hrows; reflexivity | reflexivity |].
      unfold ncols in *. cbn [columns].
      rewrite length_app, repeat_length. lia.
    + apply Nat.ltb_ge in Elt.
      replace (output_channels - ncols result)%nat with 0%nat by lia.
      cbn [repeat]. rewrite app_nil_r.
      rewrite broadcast_to_same; [reflexivity | assumption |].
      unfold ncols, slice_cols in *. cbn [columns].
      rewrite length_firstn. lia.
Qed.

(** A result of another length ends the [try] block with an exception. *)
Lemma try_body_rows_mismatch stereo result :
  stereo_input indata = Some stereo ->
  callback stereo = Some result ->
  nrows result <> frames -> nrows result <> 1 ->
  exists log,
    try_body output_channels callback indata outdata frames = (log, None).
Proof.
  intros Hst Hcb Hrows H1. unfold try_body. rewrite Hst. cbn [bind]. rewrite Hcb.
  unfold assign_all. rewrite outdata_rows.
  destruct (negb (ncols result =? output_channels));
    [destruct (ncols result <? output_channels)|].
  - unfold assign_cols. cbn [zeros nrows].
    rewrite broadcast_to_rows_mismatch by assumption. cbn [bind].
    eexists. reflexivity.
  - rewrite broadcast_to_rows_mismatch by assumption. eexists. reflexivity.
  - rewrite broadcast_to_rows_mismatch by assumption. eexists. reflexivity.
Qed.

End CallbackFacts.

Section CallbackClaims.

Import AudioIO.
Local Open Scope nat_scope.

Lemma try_body_shape output_channels callback indata outdata frames log out :
  try_body output_channels callback indata outdata frames = (log, Some out) ->
  nrows out = nrows outdata /\ ncols out = ncols outdata.
Proof.
  unfold try_body, assign_all.
  destruct (stereo <- stereo_input indata ;; callback stereo) as [result|];
    [|discriminate].
  destruct (negb (ncols result =? output_channels));
    [destruct (ncols result <? output_channels);
       [destruct (assign_cols _ _ _); [|discriminate]|]|];
    intros [= _ H]; apply (broadcast_to_shape _ _ _ _ H).
Qed.

Lemma sd_callback_returned output_channels callback indata outdata frames status
    log out :
  try_body output_channels callback indata outdata frames = (log, Some out) ->
  sd_callback output_channels callback indata outdata frames status
  = ((if status then [Audio_status] else []) ++ log, out).
Proof. intros H. unfold sd_callback. rewrite H. reflexivity. Qed.

Lemma sd_callback_raised output_channels callback indata outdata frames status
    log :
  try_body output_channels callback indata outdata frames = (log, None) ->
  sd_callback output_channels callback indata outdata frames status
  = ((if status then [Audio_status] else []) ++ log ++ [Error_in_callback],
     fill_zero outdata).
Proof. intros H. unfold sd_callback. rewrite H. reflexivity. Qed.

(** A stage can raise on a shape mismatch: the 7.1 rotator indexes channel 6
    of a six-channel frame. Inside the stream callback this is one of the
    exceptions that end in silence. *)
Lemma rotate_raises_on_narrow_frame :
  SurroundRotator.rotate "7.1" centre_only_51 0 = None.
Proof. lazy. reflexivity. Qed.

(** What the [try] block prints is decided by the channel count of the
    processed block alone. *)
Lemma try_body_log output_channels callback indata outdata frames :
  fst (try_body output_channels callback indata outdata frames)
  = match stereo <- stereo_input indata ;; callback stereo with
    | None => []
    | Some result =>
        if ncols result =? output_channels then []
        else [Warning_channels output_channels (ncols result)]
    end.
Proof.
  unfold try_body.
  destruct (stereo <- stereo_input indata ;; callback stereo) as [result|];
    [|reflexivity].
  destruct (ncols result =? output_channels); cbn [negb]; [reflexivity|].
  destruct (ncols result <? output_channels); [|reflexivity].
  destruct (assign_cols _ _ _); reflexivity.
Qed.

Lemma stereo_input_cases indata :
  stereo_input indata
  = match columns indata with
    | [] => None
    | [c] => Some (mk_ndarray (nrows indata) [c; c])
    | l :: r :: _ => Some (mk_ndarray (nrows indata) [l; r])
    end.
Proof.
  unfold stereo_input, slice_cols, ncols, get_column.
  destruct (columns indata) as [|l [|r rest]]; reflexivity.
Qed.

(** C9, refuted. A processed block of three samples for a stream block of
    two is neither cut nor padded: whatever the output buffer held, the
    output block is all zeros and only an error is printed. *)
Lemma sample_count_mismatch_is_silenced :
  nrows long_block <> 2 /\
  sd_callback 2 (fun _ => Some long_block) short_stereo short_stereo 2 false
  = ([Error_in_callback], mk_ndarray 2 [ [0; 0]; [0; 0] ]%R) /\
  fit_rows 2 (fit_columns 2 long_block) = mk_ndarray 2 [ [1; 1]; [1; 1] ]%R /\
  snd (sd_callback 2 (fun _ => Some long_block) short_stereo short_stereo 2 false)
  <> fit_rows 2 (fit_columns 2 long_block).
Proof.
  split; [simpl; lia|]. split; [reflexivity|]. split; [reflexivity|].
  intros H. injection H as H. apply R1_neq_R0. symmetry. exact H.
Qed.

(** C9, as amended. [sd_callback] always leaves a block of the stream's
    block length and channel count.  The processing callback is handed the
    first two input channels, or a mono input's channel twice.  A mono input
    whose processed block has the stream's shape is delivered as it is, and
    nothing is printed but the status line of a reported stream status.
    When the processed block has the stream's block length, the output is
    that block with extra channels cut and missing channels all zeros, and
    the only message is a warning printed exactly when the channel count was
    wrong.  When it has another length (other than a single sample), or when
    anything raises, every sample of the output block is zero and an error
    is printed last. *)
Theorem sd_callback_handles_shapes output_channels callback indata outdata
    frames status :
  nrows outdata = frames ->
  ncols outdata = output_channels ->
  let log :=
    fst (sd_callback output_channels callback indata outdata frames status) in
  let out :=
    snd (sd_callback output_channels callback indata outdata frames status) in
  let status_line := if status then [Audio_status] else [] in
  let silence :=
    mk_ndarray frames (repeat (repeat 0%R frames) output_channels) in
  (nrows out = frames /\ ncols out = output_channels) /\
  (stereo_input indata
   = match columns indata with
     | [] => None
     | [c] => Some (mk_ndarray (nrows indata) [c; c])
     | l :: r :: _ => Some (mk_ndarray (nrows indata) [l; r])
     end) /\
  (forall c result,
     columns indata = [c] ->
     callback (mk_ndarray (nrows indata) [c; c]) = Some result ->
     nrows result = frames -> ncols result = output_channels ->
     out = result /\ log = status_line /\ (status = false -> log = [])) /\
  (forall stereo result,
     stereo_input indata = Some stereo ->
     callback stereo = Some result ->
     let warning :=
       if ncols result =? output_channels then []
       else [Warning_channels output_channels (ncols result)] in
     (nrows result = frames ->
        out = mk_ndarray frames
                (firstn output_channels (columns result)
                 ++ repeat (repeat 0%R frames)
                      (output_channels - ncols result)) /\
        log = status_line ++ warning) /\
     (nrows result <> frames -> nrows result <> 1 ->
        out = silence /\
        log = status_line ++ warning ++ [Error_in_callback])) /\
  ((stereo <- stereo_input indata ;; callback stereo) = None ->
     out = silence /\ log = status_line ++ [Error_in_callback]).
Proof.
  intros Hrows Hcols log out status_line silence.
  assert (Hsilence : fill_zero outdata = silence).
  { unfold fill_zero, zeros, silence. rewrite Hrows, Hcols. reflexivity. }
  assert (Hfit : forall stereo result,
            stereo_input indata = Some stereo ->
            callback stereo = Some result ->
            nrows result = frames ->
            out = fit_columns output_channels result /\
            log = status_line
                  ++ (if ncols result =? output_channels then []
                      else [Warning_channels output_channels (ncols result)])).
  { intros stereo result Hst Hcb Hres.
    pose proof (try_body_fit output_channels callback indata outdata frames
                  Hrows Hcols stereo result Hst Hcb Hres) as Hfit.
    unfold log, out.
    rewrite (sd_callback_returned _ _ _ _ _ status _ _ Hfit).
    split; reflexivity. }
  split; [|split; [|split; [|split]]].
  - rewrite <- Hrows at 1. rewrite <- Hcols. unfold out, sd_callback.
    destruct (try_body output_channels callback indata outdata frames)
      as [l [o|]] eqn:E; cbn [snd].
    + apply (try_body_shape _ _ _ _ _ _ _ E).
    + unfold fill_zero, zeros, ncols. cbn [nrows columns].
      rewrite repeat_length. split; reflexivity.
  - apply stereo_input_cases.
  - intros c result Hc Hcb Hres Hwide.
    assert (Hst : stereo_input indata = Some (mk_ndarray (nrows indata) [c; c]))
      by (rewrite stereo_input_cases, Hc; reflexivity).
    destruct (Hfit _ _ Hst Hcb Hres) as [Hout Hlog].
    rewrite Hwide, Nat.eqb_refl, app_nil_r in Hlog.
    split; [|split; [exact Hlog|]].
    + rewrite Hout. unfold fit_columns. unfold ncols in Hwide.
      rewrite <- Hwide at 1. rewrite firstn_all.
      unfold ncols. rewrite Hwide, Nat.sub_diag. cbn [repeat].
      rewrite app_nil_r. destruct result; reflexivity.
    + intros Hstatus. rewrite Hlog. unfold status_line. rewrite Hstatus.
      reflexivity.
  - intros stereo result Hst Hcb warning. split.
    + intros Hres. destruct (Hfit _ _ Hst Hcb Hres) as [Hout Hlog].
      split; [|exact Hlog].
      rewrite Hout. unfold fit_columns. rewrite Hres. reflexivity.
    + intros Hne H1.
      destruct (try_body_rows_mismatch output_channels callback indata outdata
                  frames Hrows stereo result Hst Hcb Hne H1) as [l Hl].
      pose proof (try_body_log output_channels callback indata outdata frames)
        as Hlog.
      rewrite Hl, Hst in Hlog. cbn [fst bind] in Hlog. rewrite Hcb in Hlog.
      unfold log, out.
      rewrite (sd_callback_raised _ _ _ _ _ status _ Hl). cbn [fst snd].
      rewrite Hlog. split; [exact Hsilence | reflexivity].
  - intros Hnone.
    pose proof (try_body_raise output_channels callback indata outdata frames
                  Hnone) as Hl.
    unfold log, out.
    rewrite (sd_callback_raised _ _ _ _ _ status _ Hl). cbn [fst snd].
    split; [exact Hsilence | reflexivity].
Qed.

(** A stereo stream fed a mono block by a stage that returns its input
    unchanged: both output channels carry the mono samples, in place of the
    old contents of the output buffer, and nothing is printed. *)
Lemma sd_callback_handles_shapes_witness :
  nrows short_stereo = 2 /\
  ncols short_stereo = 2 /\
  columns mono_block = [ [0.5; -0.5] ]%R /\
  snd (sd_callback 2 (fun x => Some x) mono_block short_stereo 2 false)
  = mk_ndarray 2 [ [0.5; -0.5]; [0.5; -0.5] ]%R /\
  fst (sd_callback 2 (fun x => Some x) mono_block short_stereo 2 false) = [].
Proof.
  assert (H1 : nrows short_stereo = 2) by reflexivity.
  assert (H2 : ncols short_stereo = 2) by reflexivity.
  assert (H3 : columns mono_block = [ [0.5; -0.5] ]%R) by reflexivity.
  repeat (split; [assumption|]).
  destruct (sd_callback_handles_shapes 2 (fun x => Some x) mono_block
              short_stereo 2 false H1 H2) as (_ & _ & Hmono & _).
  destruct (Hmono _ _ H3 eq_refl eq_refl eq_refl) as (Hout & _ & Hlog).
  split; [exact Hout | exact (Hlog eq_refl)].
Defined.

End CallbackClaims.

(** * Further properties *)

(** ** Speaker geometry and the pan law *)

Section GeometryExtras.

Import SurroundRotator.
Local Open Scope Q_scope.

Lemma angle_distance_sym_le a b : _angle_distance a b <= _angle_distance b a.
Proof.
  destruct (angle_distance_attained b a) as (k & Hk).
  pose proof (angle_distance_least a b (- k)) as Hle.
  rewrite inject_Z_opp in Hle. rewrite Hk.
  destruct (Qabs_cases (b - a + 360 * inject_Z k)) as [[? E1]|[? E1]];
  destruct (Qabs_cases (a - b + 360 * - inject_Z k)) as [[? E2]|[? E2]];
  rewrite E1; rewrite E2 in Hle; qlra.
Qed.

Lemma angle_distance_shift_le a b (j : Z) :
  _angle_distance (a + 360 * inject_Z j) b <= _angle_distance a b.
Proof.
  destruct (angle_distance_attained a b) as (k & Hk).
  pose proof (angle_distance_least (a + 360 * inject_Z j) b (k - j)) as Hle.
  unfold Zminus in Hle. rewrite inject_Z_plus, inject_Z_opp in Hle. rewrite Hk.
  assert (E : a + 360 * inject_Z j - b + 360 * (inject_Z k + - inject_Z j)
              == a - b + 360 * inject_Z k) by ring.
  rewrite E in Hle. exact Hle.
Qed.

(** The distance does not see the representative of the second angle. *)
Lemma angle_distance_compat a t t' :
  t == t' -> _angle_distance a t == _angle_distance a t'.
Proof.
  intros Ht.
  assert (H : forall x y, x == y -> _angle_distance a x <= _angle_distance a y).
  { intros x y Hxy. destruct (angle_distance_attained a y) as (k & Hk).
    pose proof (angle_distance_least a x k) as Hle.
    assert (E : a - x + 360 * inject_Z k == a - y + 360 * inject_Z k)
      by (rewrite Hxy; reflexivity).
    rewrite E in Hle. rewrite Hk. exact Hle. }
  apply Qle_antisym; apply H; [assumption | symmetry; assumption].
Qed.

(** X1. [_angle_distance] is a metric on angles taken modulo 360: it lies
    between 0 and 180, is symmetric, is zero between an angle and itself, is
    unchanged when a whole number of turns is added to an angle, and obeys the
    triangle inequality. *)
Theorem angle_distance_is_metric a b c (k : Z) :
  0 <= _angle_distance a b <= 180 /\
  _angle_distance a b == _angle_distance b a /\
  _angle_distance a a == 0 /\
  _angle_distance (a + 360 * inject_Z k) b == _angle_distance a b /\
  _angle_distance a c <= _angle_distance a b + _angle_distance b c.
Proof.
  split; [apply angle_distance_range|].
  split; [apply Qle_antisym; apply angle_distance_sym_le|].
  split; [|split].
  - pose proof (angle_distance_least a a 0) as Hle.
    pose proof (angle_distance_range a a) as Hr.
    assert (E : a - a + 360 * inject_Z 0 == 0) by ring.
    rewrite E in Hle. change (Qabs 0) with 0 in Hle. qlra.
  - apply Qle_antisym; [apply angle_distance_shift_le|].
    pose proof (angle_distance_shift_le (a + 360 * inject_Z k) b (- k)) as H.
    eapply Qle_trans; [|exact H].
    assert (E : a + 360 * inject_Z k + 360 * inject_Z (- k) == a)
      by (rewrite inject_Z_opp; ring).
    assert (E' : _angle_distance a b
                 <= _angle_distance (a + 360 * inject_Z k + 360 * inject_Z (- k)) b).
    { eapply Qle_trans; [apply angle_distance_sym_le|].
      eapply Qle_trans; [|apply angle_distance_sym_le].
      apply Qle_lteq. right. apply angle_distance_compat. symmetry. exact E. }
    exact E'.
  - pose proof (angle_distance_triangle a b c).
    pose proof (angle_distance_sym_le c b). qlra.
Qed.

End GeometryExtras.

Section PanLawExtras.

Import SurroundRotator.
Local Open Scope Q_scope.

Lemma cos_sin_first_octant x :
  (0 <= x <= PI / 4)%R -> (0 <= sin x <= cos x)%R /\ (cos x <= 1)%R.
Proof.
  intros [H0 H4]. pose proof PI_RGT_0 as Hpi.
  assert (Hs : (sin x <= sin (PI / 4))%R) by (apply sin_incr_1; rlra).
  assert (Hc : (cos (PI / 4) <= cos x)%R) by (apply cos_decr_1; rlra).
  rewrite sin_PI4 in Hs. rewrite cos_PI4 in Hc.
  split; [split; [apply sin_ge_0; rlra | rlra]|].
  apply COS_bound.
Qed.

Lemma pan_weights_unit_power d1 d2 :
  (fst (pan_weights d1 d2) * fst (pan_weights d1 d2)
   + snd (pan_weights d1 d2) * snd (pan_weights d1 d2) = 1)%R.
Proof.
  unfold pan_weights. destruct (Qltb (d1 + d2) 0.1); simpl; [rlra|].
  set (x := (Q2R (d1 / (d1 + d2)) * PI / 2)%R).
  pose proof (sin2_cos2 x) as H. unfold Rsqr in H. rlra.
Qed.

Lemma pan_weights_ordered d1 d2 :
  0 <= d1 -> d1 <= d2 ->
  (0 <= snd (pan_weights d1 d2) <= fst (pan_weights d1 d2))%R /\
  (fst (pan_weights d1 d2) <= 1)%R.
Proof.
  intros H0 Hle. unfold pan_weights.
  destruct (Qltb (d1 + d2) 0.1) eqn:E; simpl; [rlra|].
  apply Qltb_false in E.
  apply cos_sin_first_octant.
  assert (Hpos : 0 < d1 + d2) by qlra.
  assert (Ht0 : 0 <= d1 / (d1 + d2)).
  { apply Qle_shift_div_l; [assumption | qlra]. }
  assert (Ht1 : d1 / (d1 + d2) <= 1 # 2).
  { apply Qle_shift_div_r; [assumption | qlra]. }
  apply Qle_Rle in Ht0, Ht1. rewrite RMicromega.Q2R_0 in Ht0.
  replace (Q2R (1 # 2)) with (1 / 2)%R in Ht1 by (unfold Q2R; simpl; rlra).
  pose proof PI_RGT_0 as Hpi.
  set (t := Q2R (d1 / (d1 + d2))) in *.
  assert (Hlo : (0 * PI <= t * PI)%R) by (apply Rmult_le_compat_r; rlra).
  assert (Hhi : (t * PI <= 1 / 2 * PI)%R) by (apply Rmult_le_compat_r; rlra).
  split; rlra.
Qed.

(** X2. For every target angle [_amplitude_pan] selects two channels whose
    weights have squares summing to 1 (constant power); the weight of the
    closer channel is at least the weight of the other one, and both lie
    between 0 and 1. *)
Theorem amplitude_pan_constant_power format target_angle :
  exists c1 c2,
    closest_channels format target_angle = Some [c1; c2] /\
    let w := pan_weights (channel_distance format target_angle c1)
                         (channel_distance format target_angle c2) in
    (fst w * fst w + snd w * snd w = 1)%R /\
    (0 <= snd w <= fst w)%R /\ (fst w <= 1)%R.
Proof.
  destruct (closest_channels_spec format target_angle)
    as (c1 & c2 & Hcl & Htwo).
  exists c1, c2. split; [assumption|]. cbv zeta.
  split; [apply pan_weights_unit_power|].
  apply pan_weights_ordered; [apply channel_distance_nonneg|].
  destruct Htwo as (_ & H2 & Hne & Hbest & _).
  destruct (Hbest c2 H2 (fun e => Hne (eq_sym e))) as [H|[H _]]; qlra.
Qed.

End PanLawExtras.

(** ** SurroundRotator: periodicity and linearity *)

Section YawPeriodicity.

Import SurroundRotator.
Local Open Scope Q_scope.

Lemma inject_Z_small (j : Z) : - (1) < inject_Z j -> inject_Z j < 1 -> j = 0%Z.
Proof.
  change (- (1)) with (inject_Z (-1)). change 1 with (inject_Z 1).
  rewrite <- !Zlt_Qlt. lia.
Qed.

Lemma rotated_angle_periodic out_angle yaw_degrees (k : Z) :
  rotated_angle out_angle (yaw_degrees + 360 * inject_Z k)
  == rotated_angle out_angle yaw_degrees.
Proof.
  destruct (rotated_angle_normalised out_angle (yaw_degrees + 360 * inject_Z k))
    as (Hr1 & k1 & Hk1).
  destruct (rotated_angle_normalised out_angle yaw_degrees) as (Hr2 & k2 & Hk2).
  set (r1 := rotated_angle out_angle (yaw_degrees + 360 * inject_Z k)) in *.
  set (r2 := rotated_angle out_angle yaw_degrees) in *.
  assert (Hj : r1 - r2 == 360 * inject_Z (k + k1 - k2)).
  { unfold Zminus. rewrite !inject_Z_plus, inject_Z_opp. qlra. }
  assert (Hz : (k + k1 - k2 = 0)%Z) by (apply inject_Z_small; qlra).
  rewrite Hz in Hj. change (inject_Z 0) with 0 in Hj. qlra.
Qed.

Lemma channel_distance_compat format t t' c :
  t == t' -> channel_distance format t c == channel_distance format t' c.
Proof. apply angle_distance_compat. Qed.

Lemma two_closest_compat format t t' c1 c2 :
  t == t' -> two_closest format t c1 c2 -> two_closest format t' c1 c2.
Proof.
  intros Ht (H1 & H2 & Hne & Hb1 & Hb2).
  assert (Hr : forall c c', ranks_before format t c c' ->
                            ranks_before format t' c c').
  { intros c c'. unfold ranks_before.
    pose proof (channel_distance_compat format t t' c Ht) as Ec.
    pose proof (channel_distance_compat format t t' c' Ht) as Ec'.
    intros [H|[H Hlt]]; [left; qlra | right; split; [qlra | assumption]]. }
  repeat split; try assumption.
  - intros c Hc Hc1. apply Hr, Hb1; assumption.
  - intros c Hc Hc1 Hc2. apply Hr, Hb2; assumption.
Qed.

Lemma closest_channels_compat format t t' :
  t == t' -> closest_channels format t = closest_channels format t'.
Proof.
  intros Ht.
  destruct (closest_channels_spec format t) as (c1 & c2 & -> & Htwo).
  destruct (closest_channels_spec format t') as (c1' & c2' & -> & Htwo').
  apply (two_closest_compat format t t' c1 c2 Ht) in Htwo.
  destruct (two_closest_unique format t' c1 c2 c1' c2' Htwo Htwo') as [-> ->].
  reflexivity.
Qed.

Lemma pan_weights_compat d1 d2 d1' d2' :
  d1 == d1' -> d2 == d2' -> pan_weights d1 d2 = pan_weights d1' d2'.
Proof.
  intros H1 H2. unfold pan_weights.
  assert (Hb : Qltb (d1 + d2) 0.1 = Qltb (d1' + d2') 0.1).
  { destruct (Qltb (d1' + d2') 0.1) eqn:E.
    - apply Qltb_true in E. apply Qltb_true. qlra.
    - apply Qltb_false in E. apply Qltb_false. qlra. }
  rewrite Hb. destruct (Qltb (d1' + d2') 0.1); [reflexivity|].
  assert (Ht : d1 / (d1 + d2) == d1' / (d1' + d2'))
    by (rewrite H1, H2; reflexivity).
  rewrite (Qeq_eqR _ _ Ht). reflexivity.
Qed.

Lemma amplitude_pan_compat format frame t t' :
  t == t' -> _amplitude_pan format frame t = _amplitude_pan format frame t'.
Proof.
  intros Ht. unfold _amplitude_pan.
  rewrite (closest_channels_compat format t t' Ht).
  destruct (closest_channels format t') as [[|c1 [|c2 rest]]|]; try reflexivity.
  cbn [bind].
  destruct (lookup (SPEAKER_ANGLES format) c1) as [a1|]; [|reflexivity].
  destruct (lookup (SPEAKER_ANGLES format) c2) as [a2|]; [|reflexivity].
  cbn [bind].
  rewrite (pan_weights_compat _ _ _ _
             (angle_distance_compat (inject_Z a1) t t' Ht)
             (angle_distance_compat (inject_Z a2) t t' Ht)).
  reflexivity.
Qed.

Lemma rotate_channel_periodic format frame yaw_degrees (k : Z) output ch :
  rotate_channel format frame (yaw_degrees + 360 * inject_Z k) output ch
  = rotate_channel format frame yaw_degrees output ch.
Proof.
  unfold rotate_channel.
  destruct (lookup (SPEAKER_ANGLES format) ch) as [a|]; [|reflexivity].
  cbn [bind]. destruct (ch =? 3)%nat; [reflexivity|].
  rewrite (amplitude_pan_compat format frame _ _
             (rotated_angle_periodic a yaw_degrees k)).
  reflexivity.
Qed.

(** X3. [rotate] depends on the yaw only modulo 360: adding a whole number of
    turns to the yaw gives the same result, for every frame. *)
Theorem rotate_yaw_periodic format surround_frame yaw_degrees (k : Z) :
  rotate format surround_frame (yaw_degrees + 360 * inject_Z k)
  = rotate format surround_frame yaw_degrees.
Proof.
  unfold rotate.
  generalize (zeros (nrows surround_frame) (num_channels format)).
  generalize (seq 0 (num_channels format)).
  intros chans. induction chans as [|ch rest IH]; intros output; simpl.
  - reflexivity.
  - rewrite rotate_channel_periodic.
    destruct (rotate_channel format surround_frame yaw_degrees output ch);
      simpl; [apply IH | reflexivity].
Qed.

End YawPeriodicity.

Section Mixing.

Import SurroundRotator.
Local Open Scope Q_scope.

Lemma num_channels_ge_6 format : (6 <= num_channels format)%nat.
Proof. destruct (format_cases format) as [[-> _]|[-> _]]; lia. Qed.

Lemma channel_signal_lfe format frame yaw_degrees :
  channel_signal format frame yaw_degrees 3 = get_column frame 3.
Proof.
  unfold channel_signal.
  rewrite lookup_speaker_angle by (pose proof (num_channels_ge_6 format); lia).
  reflexivity.
Qed.

(** The signal of a spatial output channel is a blend of two input columns
    whose indices and weights do not depend on the frame. *)
Lemma channel_signal_mix format yaw_degrees ch :
  (ch < num_channels format)%nat -> ch <> 3%nat ->
  exists c1 c2 w1 w2,
    (c1 < num_channels format)%nat /\ (c2 < num_channels format)%nat /\
    forall frame,
      channel_signal format frame yaw_degrees ch
      = (col1 <- get_column frame c1 ;;
         col2 <- get_column frame c2 ;;
         Some (blend w1 w2 col1 col2)).
Proof.
  intros Hch Hne.
  set (target := rotated_angle (speaker_angle format ch) yaw_degrees).
  destruct (closest_channels_spec format target) as (c1 & c2 & Hcl & Htwo).
  destruct Htwo as (H1 & H2 & _).
  apply spatial_channels_in_range in H1, H2.
  exists c1, c2,
    (fst (pan_weights (channel_distance format target c1)
                      (channel_distance format target c2))),
    (snd (pan_weights (channel_distance format target c1)
                      (channel_distance format target c2))).
  split; [tauto|]. split; [tauto|]. intros frame.
  unfold channel_signal. rewrite lookup_speaker_angle by assumption.
  cbn [bind].
  replace (ch =? 3)%nat with false by (symmetry; apply Nat.eqb_neq; assumption).
  fold target. unfold _amplitude_pan. rewrite Hcl. cbn [bind].
  rewrite !lookup_speaker_angle by tauto. cbn [bind].
  fold (channel_distance format target c1).
  fold (channel_distance format target c2).
  destruct (pan_weights _ _) as [w1 w2]. reflexivity.
Qed.

(** The loop sees the frame only through the channel signals. *)
Lemma rotate_loop_congruence format f g yaw_degrees chans output :
  (forall ch, In ch chans ->
     channel_signal format f yaw_degrees ch
     = channel_signal format g yaw_degrees ch) ->
  rotate_loop format f yaw_degrees chans output
  = rotate_loop format g yaw_degrees chans output.
Proof.
  revert output. induction chans as [|ch rest IH]; intros output Hsig; simpl.
  - reflexivity.
  - rewrite !rotate_channel_signal, (Hsig ch (or_introl eq_refl)).
    destruct (channel_signal format g yaw_degrees ch); cbn [bind];
      [|reflexivity].
    destruct (set_column output ch l); cbn [bind]; [|reflexivity].
    apply IH. intros c Hc. apply Hsig. right. assumption.
Qed.

Lemma rotate_loop_needs_signals format frame yaw_degrees chans output result :
  rotate_loop format frame yaw_degrees chans output = Some result ->
  forall ch, In ch chans ->
    channel_signal format frame yaw_degrees ch <> None.
Proof.
  revert output. induction chans as [|c rest IH]; intros output Hloop ch Hin.
  - destruct Hin.
  - simpl in Hloop. rewrite rotate_channel_signal in Hloop.
    destruct (channel_signal format frame yaw_degrees c) as [sig|] eqn:Es;
      [|discriminate].
    cbn [bind] in Hloop.
    destruct (set_column output c sig) as [output'|]; [|discriminate].
    cbn [bind] in Hloop.
    destruct Hin as [<-|Hin]; [congruence | apply (IH output' Hloop ch Hin)].
Qed.

Lemma get_column_first_channels n frame c :
  (c < n)%nat -> get_column (first_channels n frame) c = get_column frame c.
Proof.
  intros Hc. unfold get_column, first_channels. cbn [columns].
  rewrite nth_error_firstn.
  replace (c <? n)%nat with true by (symmetry; apply Nat.ltb_lt; assumption).
  reflexivity.
Qed.

(** X4. [rotate] reads only the first [num_channels] channels of its input:
    cutting the further channels off beforehand changes nothing, for every
    frame and yaw. *)
Theorem rotate_ignores_extra_channels format surround_frame yaw_degrees :
  rotate format (first_channels (num_channels format) surround_frame) yaw_degrees
  = rotate format surround_frame yaw_degrees.
Proof.
  unfold rotate. cbn [first_channels nrows].
  apply rotate_loop_congruence. intros ch Hch. apply in_seq in Hch.
  destruct (Nat.eq_dec ch 3) as [->|Hne].
  - rewrite !channel_signal_lfe. apply get_column_first_channels. lia.
  - destruct (channel_signal_mix format yaw_degrees ch) as
      (c1 & c2 & w1 & w2 & Hc1 & Hc2 & Hmix); [lia | assumption |].
    rewrite !Hmix, !get_column_first_channels by assumption. reflexivity.
Qed.

(** X5. A frame with fewer than four channels makes [rotate] raise, whatever
    the format and the yaw: the LFE column it copies does not exist. *)
Theorem rotate_raises_without_lfe format surround_frame yaw_degrees :
  (ncols surround_frame < 4)%nat ->
  rotate format surround_frame yaw_degrees = None.
Proof.
  intros Hcols.
  destruct (rotate format surround_frame yaw_degrees) as [result|] eqn:E;
    [exfalso | reflexivity].
  unfold rotate in E.
  apply (rotate_loop_needs_signals _ _ _ _ _ _ E 3%nat).
  - apply in_seq. pose proof (num_channels_ge_6 format). lia.
  - rewrite channel_signal_lfe. unfold get_column.
    apply nth_error_None. unfold ncols in Hcols. lia.
Qed.

Lemma rotate_raises_without_lfe_witness :
  (ncols short_stereo < 4)%nat /\
  rotate "5.1" short_stereo 30 = None.
Proof.
  assert (H : (ncols short_stereo < 4)%nat) by (unfold ncols; simpl; lia).
  split; [assumption|].
  exact (rotate_raises_without_lfe "5.1" short_stereo 30 H).
Defined.


Lemma ndarray_ext a b :
  nrows a = nrows b ->
  (forall c, get_column a c = get_column b c) ->
  a = b.
Proof.
  destruct a as [na ca], b as [nb cb]. unfold get_column. cbn [nrows columns].
  intros -> Hcols. f_equal. apply nth_error_ext. assumption.
Qed.

Lemma get_column_beyond a c :
  (ncols a <= c)%nat -> get_column a c = None.
Proof. intros H. unfold get_column. apply nth_error_None. exact H. Qed.

Lemma get_column_scale k frame c :
  get_column (scale_frame k frame) c
  = option_map (map (fun s => (k * s)%R)) (get_column frame c).
Proof. unfold get_column, scale_frame. cbn [columns]. apply nth_error_map. Qed.

Lemma blend_scale k w1 w2 x y :
  blend w1 w2 (map (fun s => (k * s)%R) x) (map (fun s => (k * s)%R) y)
  = map (fun s => (k * s)%R) (blend w1 w2 x y).
Proof.
  unfold blend. revert y. induction x as [|a x IH]; intros [|b y]; simpl;
    try reflexivity.
  rewrite IH. f_equal. rlra.
Qed.

Lemma wf_scale k frame :
  wf_ndarray frame = true -> wf_ndarray (scale_frame k frame) = true.
Proof.
  unfold wf_ndarray, scale_frame. cbn [nrows columns].
  rewrite !forallb_forall. intros H col Hcol.
  apply in_map_iff in Hcol. destruct Hcol as (col0 & <- & Hin).
  rewrite length_map. apply H, Hin.
Qed.

Lemma ncols_scale k frame : ncols (scale_frame k frame) = ncols frame.
Proof. unfold ncols, scale_frame. cbn [columns]. apply length_map. Qed.

Lemma channel_signal_scale format frame yaw_degrees k ch :
  (ch < num_channels format)%nat ->
  channel_signal format (scale_frame k frame) yaw_degrees ch
  = option_map (map (fun s => (k * s)%R))
      (channel_signal format frame yaw_degrees ch).
Proof.
  intros Hch. destruct (Nat.eq_dec ch 3) as [->|Hne].
  - rewrite !channel_signal_lfe. apply get_column_scale.
  - destruct (channel_signal_mix format yaw_degrees ch Hch Hne) as
      (c1 & c2 & w1 & w2 & _ & _ & Hmix).
    rewrite !Hmix, !get_column_scale.
    destruct (get_column frame c1) as [col1|]; [|reflexivity].
    destruct (get_column frame c2) as [col2|]; [|reflexivity].
    cbn [option_map bind]. rewrite blend_scale. reflexivity.
Qed.

(** X6. [rotate] is homogeneous: for a frame of the format, rotating the
    frame scaled by [k] gives the rotated frame scaled by [k]. *)
Theorem rotate_scales format surround_frame yaw_degrees (k : R) :
  wf_ndarray surround_frame = true ->
  (num_channels format <= ncols surround_frame)%nat ->
  exists output,
    rotate format surround_frame yaw_degrees = Some output /\
    rotate format (scale_frame k surround_frame) yaw_degrees
    = Some (scale_frame k output).
Proof.
  intros Hwf Hwide.
  destruct (rotate_columns format surround_frame Hwf Hwide yaw_degrees)
    as (output & Hrot & Hrows & Hcols & _ & Hsig).
  assert (Hwide' : (num_channels format <= ncols (scale_frame k surround_frame))%nat)
    by (rewrite ncols_scale; assumption).
  destruct (rotate_columns format (scale_frame k surround_frame)
              (wf_scale k _ Hwf) Hwide' yaw_degrees)
    as (output' & Hrot' & Hrows' & Hcols' & _ & Hsig').
  exists output. split; [assumption|]. rewrite Hrot'. f_equal.
  apply ndarray_ext.
  - rewrite Hrows'. cbn [scale_frame nrows]. symmetry. assumption.
  - intros c. destruct (Nat.lt_ge_cases c (num_channels format)) as [Hc|Hc].
    + rewrite (Hsig' c Hc), get_column_scale, (Hsig c Hc).
      apply channel_signal_scale. assumption.
    + rewrite !get_column_beyond; [reflexivity | |];
        rewrite ?ncols_scale; lia.
Qed.

Lemma rotate_scales_witness :
  wf_ndarray front_left_71 = true /\
  (num_channels "7.1" <= ncols front_left_71)%nat /\
  exists output,
    rotate "7.1" front_left_71 45 = Some output /\
    rotate "7.1" (scale_frame 0.5 front_left_71) 45
    = Some (scale_frame 0.5 output).
Proof.
  assert (H1 : wf_ndarray front_left_71 = true) by reflexivity.
  assert (H2 : (num_channels "7.1" <= ncols front_left_71)%nat)
    by (vm_compute; lia).
  repeat (split; [assumption|]).
  exact (rotate_scales "7.1" front_left_71 45 0.5 H1 H2).
Defined.


Lemma nth_error_combine_some {A B : Type} (l : list A) (l' : list B) c x y :
  nth_error l c = Some x -> nth_error l' c = Some y ->
  nth_error (combine l l') c = Some (x, y).
Proof.
  revert l l'. induction c as [|c IH]; intros [|a l] [|b l']; simpl;
    try discriminate.
  - intros [= ->] [= ->]. reflexivity.
  - apply IH.
Qed.

Lemma get_column_add a b c x y :
  get_column a c = Some x -> get_column b c = Some y ->
  get_column (add_frames a b) c
  = Some (map (fun s => (fst s + snd s)%R) (combine x y)).
Proof.
  unfold get_column, add_frames. cbn [columns]. intros Hx Hy.
  rewrite nth_error_map, (nth_error_combine_some _ _ _ _ _ Hx Hy).
  reflexivity.
Qed.

Lemma ncols_add a b :
  ncols a = ncols b -> ncols (add_frames a b) = ncols a.
Proof.
  unfold ncols, add_frames. cbn [columns]. intros H.
  rewrite length_map, length_combine, <- H. apply Nat.min_id.
Qed.

Lemma wf_add a b :
  wf_ndarray a = true -> wf_ndarray b = true -> nrows a = nrows b ->
  wf_ndarray (add_frames a b) = true.
Proof.
  unfold wf_ndarray, add_frames. cbn [nrows columns].
  rewrite !forallb_forall. intros Ha Hb Hrows col Hcol.
  apply in_map_iff in Hcol. destruct Hcol as ([x y] & <- & Hin).
  pose proof (in_combine_l _ _ _ _ Hin) as Hx.
  pose proof (in_combine_r _ _ _ _ Hin) as Hy.
  apply Ha in Hx. apply Hb in Hy. apply Nat.eqb_eq in Hx, Hy.
  apply Nat.eqb_eq. cbn [fst snd].
  rewrite length_map, length_combine. lia.
Qed.

Lemma blend_add w1 w2 x x' y y' :
  length x = length x' -> length y = length y' -> length x = length y ->
  blend w1 w2
    (map (fun s => (fst s + snd s)%R) (combine x x'))
    (map (fun s => (fst s + snd s)%R) (combine y y'))
  = map (fun s => (fst s + snd s)%R)
      (combine (blend w1 w2 x y) (blend w1 w2 x' y')).
Proof.
  unfold blend. revert x' y y'.
  induction x as [|a x IH]; intros [|a' x'] [|b y] [|b' y']; simpl;
    try discriminate; try reflexivity.
  intros H1 H2 H3. rewrite IH by lia. f_equal. rlra.
Qed.

Lemma channel_signal_add format a b yaw_degrees ch sa sb :
  wf_ndarray a = true -> wf_ndarray b = true -> nrows a = nrows b ->
  (ch < num_channels format)%nat ->
  channel_signal format a yaw_degrees ch = Some sa ->
  channel_signal format b yaw_degrees ch = Some sb ->
  channel_signal format (add_frames a b) yaw_degrees ch
  = Some (map (fun s => (fst s + snd s)%R) (combine sa sb)).
Proof.
  intros Hwa Hwb Hrows Hch. destruct (Nat.eq_dec ch 3) as [->|Hne].
  - rewrite !channel_signal_lfe. apply get_column_add.
  - destruct (channel_signal_mix format yaw_degrees ch Hch Hne) as
      (c1 & c2 & w1 & w2 & _ & _ & Hmix).
    rewrite !Hmix.
    destruct (get_column a c1) as [x|] eqn:Ex; [|discriminate].
    destruct (get_column a c2) as [y|] eqn:Ey; [|discriminate].
    destruct (get_column b c1) as [x'|] eqn:Ex'; [|discriminate].
    destruct (get_column b c2) as [y'|] eqn:Ey'; [|discriminate].
    cbn [bind]. intros [= <-] [= <-].
    rewrite (get_column_add a b c1 x x' Ex Ex'),
            (get_column_add a b c2 y y' Ey Ey').
    cbn [bind]. f_equal.
    pose proof (wf_column a c1 x Hwa Ex). pose proof (wf_column a c2 y Hwa Ey).
    pose proof (wf_column b c1 x' Hwb Ex'). pose proof (wf_column b c2 y' Hwb Ey').
    apply blend_add; congruence.
Qed.

(** X7. [rotate] is additive: for two frames of the format and of one shape,
    rotating their samplewise sum gives the sum of the two rotated frames. *)
Theorem rotate_adds format a b yaw_degrees :
  wf_ndarray a = true -> wf_ndarray b = true ->
  nrows a = nrows b -> ncols a = ncols b ->
  (num_channels format <= ncols a)%nat ->
  exists out_a out_b,
    rotate format a yaw_degrees = Some out_a /\
    rotate format b yaw_degrees = Some out_b /\
    rotate format (add_frames a b) yaw_degrees = Some (add_frames out_a out_b).
Proof.
  intros Hwa Hwb Hrows Hcols Hwide.
  assert (Hwide_b : (num_channels format <= ncols b)%nat) by lia.
  destruct (rotate_columns format a Hwa Hwide yaw_degrees)
    as (oa & Hra & Hna & Hca & _ & Hsa).
  destruct (rotate_columns format b Hwb Hwide_b yaw_degrees)
    as (ob & Hrb & Hnb & Hcb & _ & Hsb).
  assert (Hwide_ab : (num_channels format <= ncols (add_frames a b))%nat)
    by (rewrite ncols_add; assumption).
  destruct (rotate_columns format (add_frames a b) (wf_add a b Hwa Hwb Hrows)
              Hwide_ab yaw_degrees)
    as (oab & Hrab & Hnab & Hcab & _ & Hsab).
  exists oa, ob. repeat (split; [assumption|]). rewrite Hrab. f_equal.
  apply ndarray_ext.
  - rewrite Hnab. cbn [add_frames nrows]. symmetry. assumption.
  - intros c. destruct (Nat.lt_ge_cases c (num_channels format)) as [Hc|Hc].
    + destruct (channel_signal_total format a Hwa Hwide yaw_degrees c Hc)
        as (sa & Esa & _).
      destruct (channel_signal_total format b Hwb Hwide_b yaw_degrees c Hc)
        as (sb & Esb & _).
      rewrite (Hsab c Hc),
              (channel_signal_add format a b yaw_degrees c sa sb
                 Hwa Hwb Hrows Hc Esa Esb).
      symmetry. apply get_column_add; [rewrite (Hsa c Hc) | rewrite (Hsb c Hc)];
        assumption.
    + rewrite !get_column_beyond; [reflexivity | |];
        rewrite ?ncols_add; lia.
Qed.

Lemma rotate_adds_witness :
  wf_ndarray front_left_71 = true /\
  wf_ndarray (scale_frame 2 front_left_71) = true /\
  nrows front_left_71 = nrows (scale_frame 2 front_left_71) /\
  ncols front_left_71 = ncols (scale_frame 2 front_left_71) /\
  (num_channels "7.1" <= ncols front_left_71)%nat /\
  exists out_a out_b,
    rotate "7.1" front_left_71 45 = Some out_a /\
    rotate "7.1" (scale_frame 2 front_left_71) 45 = Some out_b /\
    rotate "7.1" (add_frames front_left_71 (scale_frame 2 front_left_71)) 45
    = Some (add_frames out_a out_b).
Proof.
  assert (H1 : wf_ndarray front_left_71 = true) by reflexivity.
  assert (H2 : wf_ndarray (scale_frame 2 front_left_71) = true) by reflexivity.
  assert (H3 : nrows front_left_71 = nrows (scale_frame 2 front_left_71))
    by reflexivity.
  assert (H4 : ncols front_left_71 = ncols (scale_frame 2 front_left_71))
    by reflexivity.
  assert (H5 : (num_channels "7.1" <= ncols front_left_71)%nat)
    by (vm_compute; lia).
  repeat (split; [assumption|]).
  exact (rotate_adds "7.1" front_left_71 (scale_frame 2 front_left_71) 45
           H1 H2 H3 H4 H5).
Defined.

End Mixing.

(** ** StereoRotator: power, symmetry and periodicity *)

Section StereoExtras.

Import StereoRotator.
Local Open Scope Q_scope.

Lemma pan_unfold yaw_degrees :
  pan (rotate_locals yaw_degrees)
  = py_max (-1.0) (py_min 1.0 (- pan_yaw (rotate_locals yaw_degrees) / 90.0)).
Proof. unfold rotate_locals. destruct (Qltb 90 _); reflexivity. Qed.

(** The two hemispheres, with the sign of the mirrored angle spelled out. *)
Lemma locals_cases yaw_degrees :
  let st := rotate_locals yaw_degrees in
  (Qabs (yaw st) <= 90 /\ volume st == 1 /\ pan_yaw st == yaw st) \/
  (90 < Qabs (yaw st) /\
   volume st == 1 - 0.8 * (Qabs (yaw st) - 90) / 90 /\
   ((yaw st < 0 /\ pan_yaw st == - (180 - Qabs (yaw st))) \/
    (0 <= yaw st /\ pan_yaw st == 180 - Qabs (yaw st)))).
Proof.
  intros st.
  destruct (Qlt_le_dec 90 (Qabs (yaw st))) as [H|H].
  - right. destruct (rear_hemisphere yaw_degrees H) as [Hv Hp].
    fold st in Hv, Hp. split; [assumption|]. split; [assumption|].
    rewrite Hp. destruct (Qltb (yaw st) 0) eqn:E;
      [apply Qltb_true in E; left | apply Qltb_false in E; right];
      split; (assumption || reflexivity).
  - left. destruct (front_hemisphere yaw_degrees H) as [Hv Hp].
    fold st in Hv, Hp. split; [assumption|]. split; [assumption|].
    rewrite Hp. reflexivity.
Qed.

Lemma div_90 x : x / 90.0 == x * (1 # 90).
Proof. field. Qed.

(** The mirrored angle never leaves the front hemisphere, so the clamp of the
    pan position never acts. *)
Lemma pan_linear yaw_degrees :
  let st := rotate_locals yaw_degrees in
  - (90) <= pan_yaw st <= 90 /\ pan st == - pan_yaw st / 90 /\
  - (1) <= pan st <= 1.
Proof.
  intros st.
  destruct (yaw_normalised yaw_degrees) as [Hn _]. fold st in Hn.
  assert (Hp : - (90) <= pan_yaw st <= 90).
  { destruct (locals_cases yaw_degrees) as [(Ha & _ & Hp)|(Ha & _ & Hp)];
      fold st in Ha, Hp.
    - rewrite Hp. destruct (Qabs_cases (yaw st)) as [[? E]|[? E]];
        rewrite E in Ha; qlra.
    - destruct (Qabs_cases (yaw st)) as [[? E]|[? E]]; rewrite E in Ha, Hp;
        destruct Hp as [[? Hp]|[? Hp]]; rewrite Hp; qlra. }
  split; [assumption|].
  assert (Hq : pan st == - pan_yaw st / 90).
  { unfold st. rewrite pan_unfold. fold st.
    pose proof (div_90 (- pan_yaw st)) as Hd.
    assert (Hd' : - pan_yaw st / 90 == - pan_yaw st * (1 # 90)) by field.
    unfold py_max, py_min.
    destruct (Qltb (- pan_yaw st / 90.0) 1.0) eqn:E1;
      [apply Qltb_true in E1 | apply Qltb_false in E1].
    - destruct (Qltb (-1.0) (- pan_yaw st / 90.0)) eqn:E2;
        [apply Qltb_true in E2 | apply Qltb_false in E2]; qlra.
    - destruct (Qltb (-1.0) 1.0) eqn:E2;
        [apply Qltb_true in E2 | apply Qltb_false in E2]; qlra. }
  split; [assumption|].
  assert (Hd' : - pan_yaw st / 90 == - pan_yaw st * (1 # 90)) by field.
  rewrite Hq, Hd'. qlra.
Qed.

Lemma Q2R_inj_eq x y : x == y -> Q2R x = Q2R y.
Proof. apply Qeq_eqR. Qed.

(** The gains are a function of pan position and volume. *)
Lemma gains_compat y y' :
  pan (rotate_locals y) == pan (rotate_locals y') ->
  volume (rotate_locals y) == volume (rotate_locals y') ->
  left_gain (rotate_locals y) = left_gain (rotate_locals y') /\
  right_gain (rotate_locals y) = right_gain (rotate_locals y').
Proof.
  intros Hp Hv.
  destruct (gains_unfold y) as [-> ->]. destruct (gains_unfold y') as [-> ->].
  rewrite (Qeq_eqR _ _ Hp), (Qeq_eqR _ _ Hv). split; reflexivity.
Qed.

Lemma gains_mirror y y' :
  pan (rotate_locals y) == - pan (rotate_locals y') ->
  volume (rotate_locals y) == volume (rotate_locals y') ->
  left_gain (rotate_locals y) = right_gain (rotate_locals y') /\
  right_gain (rotate_locals y) = left_gain (rotate_locals y').
Proof.
  intros Hp Hv.
  destruct (gains_unfold y) as [-> ->]. destruct (gains_unfold y') as [-> ->].
  rewrite (Qeq_eqR _ _ Hp), (Qeq_eqR _ _ Hv), Q2R_opp.
  set (p := Q2R (pan (rotate_locals y'))).
  split; f_equal.
  - rewrite <- cos_neg. f_equal. rlra.
  - rewrite <- cos_neg. f_equal. rlra.
Qed.

(** Volume and pan position are determined by the normalised yaw. *)
Lemma locals_determined y y' :
  yaw (rotate_locals y) == yaw (rotate_locals y') ->
  volume (rotate_locals y) == volume (rotate_locals y') /\
  pan (rotate_locals y) == pan (rotate_locals y').
Proof.
  intros Hy.
  destruct (pan_linear y) as (_ & Hp & _).
  destruct (pan_linear y') as (_ & Hp' & _).
  cbv zeta in Hp, Hp'. rewrite Hp, Hp'.
  set (n := yaw (rotate_locals y)) in *. set (n' := yaw (rotate_locals y')) in *.
  assert (Ha : Qabs n == Qabs n') by (rewrite Hy; reflexivity).
  assert (Hd : forall x, - x / 90 == - x * (1 # 90)) by (intros; field).
  assert (Hv : forall a, 1 - 0.8 * (a - 90) / 90 == 1 - (a - 90) * (4 # 450))
    by (intros; field).
  rewrite !Hd.
  destruct (locals_cases y) as [(A & V & P)|(A & V & P)];
    destruct (locals_cases y') as [(A' & V' & P')|(A' & V' & P')];
    fold n in A, V, P; fold n' in A', V', P';
    rewrite ?Hv in V, V'; try (exfalso; qlra).
  - split; qlra.
  - destruct P as [[S P]|[S P]]; destruct P' as [[S' P']|[S' P']];
      try (exfalso; qlra); split; qlra.
Qed.

Lemma locals_mirrored y y' :
  yaw (rotate_locals y) == - yaw (rotate_locals y') ->
  volume (rotate_locals y) == volume (rotate_locals y') /\
  pan (rotate_locals y) == - pan (rotate_locals y').
Proof.
  intros Hy.
  destruct (pan_linear y) as (_ & Hp & _).
  destruct (pan_linear y') as (_ & Hp' & _).
  cbv zeta in Hp, Hp'. rewrite Hp, Hp'.
  set (n := yaw (rotate_locals y)) in *. set (n' := yaw (rotate_locals y')) in *.
  assert (Ha : Qabs n == Qabs n') by (rewrite Hy; apply Qabs_opp).
  assert (Hd : forall x, - x / 90 == - x * (1 # 90)) by (intros; field).
  assert (Hv : forall a, 1 - 0.8 * (a - 90) / 90 == 1 - (a - 90) * (4 # 450))
    by (intros; field).
  rewrite !Hd.
  destruct (locals_cases y) as [(A & V & P)|(A & V & P)];
    destruct (locals_cases y') as [(A' & V' & P')|(A' & V' & P')];
    fold n in A, V, P; fold n' in A', V', P';
    rewrite ?Hv in V, V'; try (exfalso; qlra).
  - split; qlra.
  - destruct (Qabs_cases n') as [[? E]|[? E]]; rewrite E in *;
      destruct P as [[S P]|[S P]]; destruct P' as [[S' P']|[S' P']];
      try (exfalso; qlra); split; qlra.
Qed.


Lemma yaw_periodic y (k : Z) :
  yaw (rotate_locals (y + 360 * inject_Z k)) == yaw (rotate_locals y).
Proof.
  destruct (yaw_normalised (y + 360 * inject_Z k)) as (Hr1 & k1 & Hk1).
  destruct (yaw_normalised y) as (Hr2 & k2 & Hk2).
  set (r1 := yaw (rotate_locals (y + 360 * inject_Z k))) in *.
  set (r2 := yaw (rotate_locals y)) in *.
  assert (Hj : r1 - r2 == 360 * inject_Z (k + k1 - k2)).
  { unfold Zminus. rewrite !inject_Z_plus, inject_Z_opp. qlra. }
  assert (Hz : (k + k1 - k2 = 0)%Z) by (apply inject_Z_small; qlra).
  rewrite Hz in Hj. change (inject_Z 0) with 0 in Hj. qlra.
Qed.

Lemma yaw_negated y :
  yaw (rotate_locals (- y)) == - yaw (rotate_locals y) \/
  (yaw (rotate_locals (- y)) == 180 /\ yaw (rotate_locals y) == 180).
Proof.
  destruct (yaw_normalised (- y)) as (Hr1 & k1 & Hk1).
  destruct (yaw_normalised y) as (Hr2 & k2 & Hk2).
  set (r1 := yaw (rotate_locals (- y))) in *.
  set (r2 := yaw (rotate_locals y)) in *.
  assert (Hj : r1 + r2 == 360 * inject_Z (k1 + k2))
    by (rewrite inject_Z_plus; qlra).
  destruct (Z_lt_le_dec (k1 + k2) 1) as [Hlt|Hge].
  - left.
    assert (Hq : inject_Z (k1 + k2) < 1)
      by (change 1 with (inject_Z 1); rewrite <- Zlt_Qlt; assumption).
    assert (Hz : (k1 + k2 = 0)%Z) by (apply inject_Z_small; qlra).
    rewrite Hz in Hj. change (inject_Z 0) with 0 in Hj. qlra.
  - right. assert (H1 : 1 <= inject_Z (k1 + k2)).
    { change 1 with (inject_Z 1). rewrite <- Zle_Qle. assumption. }
    split; qlra.
Qed.

Lemma gains_power_and_range yaw_degrees :
  let st := rotate_locals yaw_degrees in
  (left_gain st * left_gain st + right_gain st * right_gain st
   = Q2R (volume st) * Q2R (volume st))%R /\
  (0 <= left_gain st <= 1)%R /\
  (0 <= right_gain st <= 1)%R.
Proof.
  intros st. destruct (gains_unfold yaw_degrees) as [Hl Hr]. fold st in Hl, Hr.
  destruct (pan_linear yaw_degrees) as (_ & _ & Hp1 & Hp2).
  fold st in Hp1, Hp2.
  destruct (volume_range yaw_degrees) as [Hv1 Hv2]. fold st in Hv1, Hv2.
  apply Qle_Rle in Hp1, Hp2, Hv1, Hv2.
  rewrite RMicromega.Q2R_1 in Hp2, Hv2.
  replace (Q2R (- (1))) with (- (1))%R in Hp1 by (unfold Q2R; simpl; rlra).
  replace (Q2R 0.2) with 0.2%R in Hv1 by (unfold Q2R; simpl; rlra).
  set (p := Q2R (pan st)) in *. set (v := Q2R (volume st)) in *.
  pose proof PI_RGT_0 as Hpi.
  assert (Hx1 : (- (1) * PI <= p * PI)%R) by (apply Rmult_le_compat_r; rlra).
  assert (Hx2 : (p * PI <= 1 * PI)%R) by (apply Rmult_le_compat_r; rlra).
  assert (Hsin : cos (p * PI / 4 - PI / 4) = sin (p * PI / 4 + PI / 4)).
  { rewrite <- (cos_shift (p * PI / 4 + PI / 4)), <- cos_neg. f_equal. rlra. }
  assert (Hc1 : (0 <= cos (p * PI / 4 - PI / 4) <= 1)%R).
  { split; [apply cos_ge_0; rlra | apply COS_bound]. }
  assert (Hc2 : (0 <= cos (p * PI / 4 + PI / 4) <= 1)%R).
  { split; [apply cos_ge_0; rlra | apply COS_bound]. }
  rewrite Hl, Hr. split; [|split].
  - rewrite Hsin. pose proof (sin2_cos2 (p * PI / 4 + PI / 4)) as H.
    unfold Rsqr in H.
    set (s := sin (p * PI / 4 + PI / 4)) in *.
    set (c := cos (p * PI / 4 + PI / 4)) in *.
    replace (s * v * (s * v) + c * v * (c * v))%R
      with ((s * s + c * c) * (v * v))%R by ring.
    rewrite H. ring.
  - set (c := cos (p * PI / 4 - PI / 4)) in *.
    assert (H1 : (0 * v <= c * v)%R) by (apply Rmult_le_compat_r; rlra).
    assert (H2 : (c * v <= 1 * v)%R) by (apply Rmult_le_compat_r; rlra).
    rlra.
  - set (c := cos (p * PI / 4 + PI / 4)) in *.
    assert (H1 : (0 * v <= c * v)%R) by (apply Rmult_le_compat_r; rlra).
    assert (H2 : (c * v <= 1 * v)%R) by (apply Rmult_le_compat_r; rlra).
    rlra.
Qed.

(** X8. For every yaw the two gains of the stereo rotator have squares
    summing to the square of the volume (constant power), both gains lie
    between 0 and 1, and the pan position is exactly [- pan_yaw / 90]: the
    clamp to [[-1, 1]] never acts. *)
Theorem stereo_constant_power yaw_degrees :
  let st := rotate_locals yaw_degrees in
  (left_gain st * left_gain st + right_gain st * right_gain st
   = Q2R (volume st) * Q2R (volume st))%R /\
  (0 <= left_gain st <= 1)%R /\
  (0 <= right_gain st <= 1)%R /\
  pan st == - pan_yaw st / 90.
Proof.
  intros st.
  destruct (gains_power_and_range yaw_degrees) as (H1 & H2 & H3).
  destruct (pan_linear yaw_degrees) as (_ & Hlin & _).
  repeat (split; [assumption|]). exact Hlin.
Qed.

(** X9. Mirror symmetry of the stereo rotator: negating the yaw keeps the
    volume and swaps the left and right gains. *)
Theorem stereo_mirror_symmetry yaw_degrees :
  volume (rotate_locals (- yaw_degrees)) == volume (rotate_locals yaw_degrees) /\
  left_gain (rotate_locals (- yaw_degrees))
  = right_gain (rotate_locals yaw_degrees) /\
  right_gain (rotate_locals (- yaw_degrees))
  = left_gain (rotate_locals yaw_degrees).
Proof.
  destruct (yaw_negated yaw_degrees) as [Hneg|[H1 H2]].
  - destruct (locals_mirrored _ _ Hneg) as [Hv Hp].
    split; [assumption|]. apply gains_mirror; assumption.
  - assert (Hsame : yaw (rotate_locals (- yaw_degrees))
                    == yaw (rotate_locals yaw_degrees)) by qlra.
    destruct (locals_determined _ _ Hsame) as [Hv Hp].
    split; [assumption|].
    destruct (gains_compat _ _ Hp Hv) as [Hl Hr]. rewrite Hl, Hr.
    (* at 180 the pan position is 0 and both gains agree *)
    assert (Hp0 : pan (rotate_locals yaw_degrees) == 0).
    { destruct (pan_linear yaw_degrees) as (_ & Hlin & _). cbv zeta in Hlin.
      rewrite Hlin.
      destruct (locals_cases yaw_degrees) as [(A & _ & P)|(A & _ & P)];
        cbv zeta in A, P;
        destruct (Qabs_cases (yaw (rotate_locals yaw_degrees))) as [[? E]|[? E]];
        rewrite E in *; try (exfalso; qlra).
      destruct P as [[S P]|[S P]]; [exfalso; qlra|].
      rewrite P, H2. reflexivity. }
    apply gains_mirror; [rewrite Hp0; reflexivity | reflexivity].
Qed.

(** X10. [StereoRotator.rotate] depends on the yaw only modulo 360. *)
Theorem stereo_rotate_periodic stereo_frame yaw_degrees (k : Z) :
  rotate stereo_frame (yaw_degrees + 360 * inject_Z k)
  = rotate stereo_frame yaw_degrees.
Proof.
  destruct (locals_determined _ _ (yaw_periodic yaw_degrees k)) as [Hv Hp].
  destruct (gains_compat _ _ Hp Hv) as [Hl Hr].
  unfold rotate. rewrite Hl, Hr. reflexivity.
Qed.


Lemma stereo_rotate_result stereo_frame left right yaw_degrees :
  wf_ndarray stereo_frame = true ->
  get_column stereo_frame 0 = Some left ->
  get_column stereo_frame 1 = Some right ->
  let mono := map (fun p => ((fst p + snd p) * 0.5)%R) (combine left right) in
  length mono = nrows stereo_frame /\
  rotate stereo_frame yaw_degrees
  = Some (mk_ndarray (nrows stereo_frame)
            [map (fun m => (m * left_gain (rotate_locals yaw_degrees))%R) mono;
             map (fun m => (m * right_gain (rotate_locals yaw_degrees))%R) mono]).
Proof.
  intros Hwf Hl Hr mono.
  pose proof (wf_column stereo_frame 0 left Hwf Hl) as Hll.
  pose proof (wf_column stereo_frame 1 right Hwf Hr) as Hlr.
  assert (Hmono : length mono = nrows stereo_frame).
  { unfold mono. rewrite length_map, length_combine. lia. }
  split; [assumption|].
  unfold rotate. rewrite Hl, Hr. cbn [bind]. fold mono.
  unfold zeros. cbn [repeat].
  rewrite set_column_ok by (cbn; rewrite ?length_map; lia || assumption).
  cbn [bind replace_nth columns nrows].
  rewrite set_column_ok by (cbn; rewrite ?length_map; lia || assumption).
  reflexivity.
Qed.

(** X11. For every stereo frame and yaw, [StereoRotator.rotate] returns a
    two-channel frame of the same length in which, sample by sample, the
    squares of the two outputs sum to the squared volume times the squared
    mono mix (L + R) / 2; where L = -R both outputs are silent. *)
Theorem stereo_rotate_output_power stereo_frame left right yaw_degrees :
  wf_ndarray stereo_frame = true ->
  get_column stereo_frame 0 = Some left ->
  get_column stereo_frame 1 = Some right ->
  exists out_left out_right,
    rotate stereo_frame yaw_degrees
    = Some (mk_ndarray (nrows stereo_frame) [out_left; out_right]) /\
    length out_left = nrows stereo_frame /\
    length out_right = nrows stereo_frame /\
    forall i, (i < nrows stereo_frame)%nat ->
      let mono := ((nth i left 0 + nth i right 0) / 2)%R in
      let v := Q2R (volume (rotate_locals yaw_degrees)) in
      (nth i out_left 0 * nth i out_left 0
       + nth i out_right 0 * nth i out_right 0
       = v * v * (mono * mono))%R /\
      (nth i left 0%R = (- nth i right 0)%R ->
       nth i out_left 0%R = 0%R /\ nth i out_right 0%R = 0%R).
Proof.
  intros Hwf Hl Hr.
  destruct (stereo_rotate_result stereo_frame left right yaw_degrees Hwf Hl Hr)
    as [Hmono Hrot].
  pose proof (wf_column stereo_frame 0 left Hwf Hl) as Hll.
  pose proof (wf_column stereo_frame 1 right Hwf Hr) as Hlr.
  eexists. eexists. split; [exact Hrot|].
  split; [rewrite length_map; assumption|].
  split; [rewrite length_map; assumption|].
  intros i Hi mono v.
  set (lg := left_gain (rotate_locals yaw_degrees)).
  set (rg := right_gain (rotate_locals yaw_degrees)).
  rewrite (nth_map_in_range (fun m => (m * lg)%R) _ i 0%R 0%R)
    by (rewrite Hmono; assumption).
  rewrite (nth_map_in_range (fun m => (m * rg)%R) _ i 0%R 0%R)
    by (rewrite Hmono; assumption).
  rewrite (nth_map_in_range (fun p => ((fst p + snd p) * 0.5)%R) _ i
             (0%R, 0%R) 0%R)
    by (rewrite length_combine; lia).
  rewrite combine_nth by congruence. cbn [fst snd].
  destruct (gains_power_and_range yaw_degrees) as (Hpow & _ & _).
  fold lg rg v in Hpow.
  replace ((nth i left 0 + nth i right 0) * 0.5)%R with mono
    by (unfold mono; rlra).
  split.
  - replace (mono * lg * (mono * lg) + mono * rg * (mono * rg))%R
      with ((lg * lg + rg * rg) * (mono * mono))%R by ring.
    rewrite Hpow. reflexivity.
  - intros Hanti. assert (Hm : mono = 0%R) by (unfold mono; rewrite Hanti; rlra).
    rewrite Hm. split; ring.
Qed.

Lemma stereo_rotate_output_power_witness :
  wf_ndarray stereo_test_frame = true /\
  get_column stereo_test_frame 0 = Some [1; 0.5; 0.25]%R /\
  get_column stereo_test_frame 1 = Some [0; 0.5; -0.25]%R /\
  exists out_left out_right,
    rotate stereo_test_frame 135
    = Some (mk_ndarray (nrows stereo_test_frame) [out_left; out_right]) /\
    length out_left = nrows stereo_test_frame /\
    length out_right = nrows stereo_test_frame /\
    forall i, (i < nrows stereo_test_frame)%nat ->
      let mono :=
        ((nth i [1; 0.5; 0.25] 0 + nth i [0; 0.5; -0.25] 0) / 2)%R in
      let v := Q2R (volume (rotate_locals 135)) in
      (nth i out_left 0 * nth i out_left 0
       + nth i out_right 0 * nth i out_right 0
       = v * v * (mono * mono))%R /\
      (nth i [1; 0.5; 0.25]%R 0%R = (- nth i [0; 0.5; -0.25] 0)%R ->
       nth i out_left 0%R = 0%R /\ nth i out_right 0%R = 0%R).
Proof.
  assert (H1 : wf_ndarray stereo_test_frame = true) by reflexivity.
  assert (H2 : get_column stereo_test_frame 0 = Some [1; 0.5; 0.25]%R)
    by reflexivity.
  assert (H3 : get_column stereo_test_frame 1 = Some [0; 0.5; -0.25]%R)
    by reflexivity.
  repeat (split; [assumption|]).
  exact (stereo_rotate_output_power stereo_test_frame _ _ 135 H1 H2 H3).
Defined.

End StereoExtras.

(** ** StereoTo71Upmixer: shape, LFE and the surround channels *)

Section UpmixerExtras.

Import StereoTo71Upmixer.
Local Open Scope Q_scope.

Variable sample_rate : Z.
Variable format : string.
Variable sosfilt : list R -> list R.
Hypothesis sosfilt_length : forall x, length (sosfilt x) = length x.
Hypothesis sample_rate_nonneg : (0 <= sample_rate)%Z.
Variable stereo_frame : ndarray.
Variables left right : list R.
Hypothesis frame_wf : wf_ndarray stereo_frame = true.
Hypothesis left_column : get_column stereo_frame 0 = Some left.
Hypothesis right_column : get_column stereo_frame 1 = Some right.

(** The four delayed signals, sample by sample. *)
Lemma upmix_result_samples :
  let n := nrows stereo_frame in
  let ds := Z.to_nat (surround_delay_samples sample_rate) in
  let dr := Z.to_nat (rear_delay_samples sample_rate) in
  exists ls rs lb rb,
    upmix sample_rate format sosfilt stereo_frame
    = Some (mk_ndarray n
              ([left; right; vscale 0.5 (vadd left right);
                sosfilt (vscale 0.5 (vadd left right)); ls; rs]
               ++ (if String.eqb format "7.1" then [lb; rb]
                   else if String.eqb format "5.1" then []
                   else [repeat 0%R n; repeat 0%R n]))) /\
    length left = n /\ length right = n /\
    length ls = n /\ length rs = n /\ length lb = n /\ length rb = n /\
    forall i, (i < n)%nat ->
      nth i ls 0%R = (if (i <? ds)%nat then 0
                      else (nth (i - ds) left 0 - nth (i - ds) right 0) * 0.7)%R /\
      nth i rs 0%R = (if (i <? ds)%nat then 0
                      else (nth (i - ds) right 0 - nth (i - ds) left 0) * 0.7)%R /\
      nth i lb 0%R = (if (i <? dr)%nat then 0
                      else - (nth (i - dr) left 0 - nth (i - dr) right 0) * 0.5)%R /\
      nth i rb 0%R = (if (i <? dr)%nat then 0
                      else - (nth (i - dr) right 0 - nth (i - dr) left 0) * 0.5)%R.
Proof.
  intros n ds dr.
  pose proof (left_length stereo_frame left frame_wf left_column) as Hl.
  pose proof (right_length stereo_frame right frame_wf right_column) as Hr.
  fold n in Hl, Hr.
  destruct (surround_delay_floor sample_rate sample_rate_nonneg) as [_ Hsd0].
  destruct (rear_delay_floor sample_rate sample_rate_nonneg) as [_ Hrd0].
  assert (Hdl : length (vsub left right) = n) by (rewrite vsub_length; congruence).
  assert (Hdr : length (vsub right left) = n) by (rewrite vsub_length; congruence).
  destruct (upmix_result sample_rate format sosfilt sosfilt_length
              sample_rate_nonneg stereo_frame left right frame_wf
              left_column right_column)
    as (ls & rs & lb & rb & Hls & Hrs & Hlb & Hrb & Hup).
  fold n in Hls, Hrs, Hlb, Hrb, Hup.
  destruct (delayed_spec _ n 0.7 (vsub left right) Hsd0 Hdl)
    as (ls' & Hls' & Hlsl & Hlsn).
  destruct (delayed_spec _ n 0.7 (vsub right left) Hsd0 Hdr)
    as (rs' & Hrs' & Hrsl & Hrsn).
  destruct (delayed_spec (rear_delay_samples sample_rate) n 0.5
              (vneg (vsub left right)) Hrd0) as (lb' & Hlb' & Hlbl & Hlbn);
    [rewrite vneg_length; assumption|].
  destruct (delayed_spec (rear_delay_samples sample_rate) n 0.5
              (vneg (vsub right left)) Hrd0) as (rb' & Hrb' & Hrbl & Hrbn);
    [rewrite vneg_length; assumption|].
  assert (ls' = ls) by congruence. assert (rs' = rs) by congruence.
  assert (lb' = lb) by congruence. assert (rb' = rb) by congruence.
  subst ls' rs' lb' rb'.
  exists ls, rs, lb, rb. split; [exact Hup|].
  repeat (split; [assumption|]).
  intros i Hi. fold ds in Hlsn, Hrsn. fold dr in Hlbn, Hrbn.
  rewrite (Hlsn i Hi), (Hrsn i Hi), (Hlbn i Hi), (Hrbn i Hi).
  destruct (i <? ds)%nat eqn:Es; destruct (i <? dr)%nat eqn:Er;
    rewrite ?vneg_nth by (rewrite ?Hdl, ?Hdr; lia);
    rewrite ?vsub_nth by (rewrite ?Hl, ?Hr; lia || congruence);
    repeat split; reflexivity.
Qed.

End UpmixerExtras.

Section UpmixerExtraClaims.

Import StereoTo71Upmixer.
Local Open Scope Q_scope.

Lemma upmix_well_shaped sample_rate format sosfilt stereo_frame left right :
  (forall x, length (sosfilt x) = length x) ->
  (0 <= sample_rate)%Z ->
  wf_ndarray stereo_frame = true ->
  get_column stereo_frame 0 = Some left ->
  get_column stereo_frame 1 = Some right ->
  exists output centre,
    upmix sample_rate format sosfilt stereo_frame = Some output /\
    nrows output = nrows stereo_frame /\
    ncols output = num_channels format /\
    wf_ndarray output = true /\
    get_column output 2 = Some centre /\
    get_column output 3 = Some (sosfilt centre).
Proof.
  intros Hsos Hrate Hwf Hl Hr.
  destruct (upmix_result_samples sample_rate format sosfilt Hsos Hrate
              stereo_frame left right Hwf Hl Hr)
    as (ls & rs & lb & rb & Hup & Hll & Hlr & Hls & Hrs & Hlb & Hrb & _).
  assert (Hc : length (vscale 0.5 (vadd left right)) = nrows stereo_frame)
    by (rewrite vscale_length, vadd_length; congruence).
  eexists. exists (vscale 0.5 (vadd left right)).
  split; [exact Hup|]. split; [reflexivity|].
  unfold num_channels, wf_ndarray, ncols. cbn [nrows columns].
  destruct (String.eqb format "7.1") eqn:E71;
    destruct (String.eqb format "5.1") eqn:E51;
    try (apply String.eqb_eq in E71, E51; congruence);
    cbn [app length forallb];
    rewrite ?Hsos, ?repeat_length, ?Hc, ?Hll, ?Hlr, ?Hls, ?Hrs, ?Hlb, ?Hrb,
            ?Nat.eqb_refl;
    repeat split; reflexivity.
Qed.

(** X12. For every stereo frame [upmix] returns a well-formed frame of the
    same length with [num_channels] channels, whose channel 3 (LFE) is the
    low-pass filter applied to the signal of channel 2 (the centre). *)
Theorem upmix_shape_and_lfe sample_rate format sosfilt stereo_frame left right :
  (forall x, length (sosfilt x) = length x) ->
  (0 <= sample_rate)%Z ->
  wf_ndarray stereo_frame = true ->
  get_column stereo_frame 0 = Some left ->
  get_column stereo_frame 1 = Some right ->
  exists output centre,
    upmix sample_rate format sosfilt stereo_frame = Some output /\
    nrows output = nrows stereo_frame /\
    ncols output = num_channels format /\
    wf_ndarray output = true /\
    get_column output 2 = Some centre /\
    get_column output 3 = Some (sosfilt centre).
Proof. apply upmix_well_shaped. Qed.

Lemma upmix_shape_and_lfe_witness :
  (forall x : list R, length ((fun y => y) x) = length x) /\
  (0 <= 48000)%Z /\
  wf_ndarray stereo_test_frame = true /\
  get_column stereo_test_frame 0 = Some [1; 0.5; 0.25]%R /\
  get_column stereo_test_frame 1 = Some [0; 0.5; -0.25]%R /\
  exists output centre,
    upmix 48000 "5.1" (fun y => y) stereo_test_frame = Some output /\
    nrows output = nrows stereo_test_frame /\
    ncols output = num_channels "5.1" /\
    wf_ndarray output = true /\
    get_column output 2 = Some centre /\
    get_column output 3 = Some ((fun y => y) centre).
Proof.
  assert (H1 : forall x : list R, length ((fun y => y) x) = length x)
    by reflexivity.
  assert (H2 : (0 <= 48000)%Z) by lia.
  assert (H3 : wf_ndarray stereo_test_frame = true) by reflexivity.
  assert (H4 : get_column stereo_test_frame 0 = Some [1; 0.5; 0.25]%R)
    by reflexivity.
  assert (H5 : get_column stereo_test_frame 1 = Some [0; 0.5; -0.25]%R)
    by reflexivity.
  repeat (split; [assumption|]).
  exact (upmix_shape_and_lfe 48000 "5.1" (fun y => y) stereo_test_frame
           _ _ H1 H2 H3 H4 H5).
Defined.

(** X13. In the 7.1 upmix the side surrounds are in antiphase (LS + RS = 0
    at every sample) and so are the rear surrounds (LB + RB = 0); for a mono
    input (L = R) all four surround channels are silent. *)
Theorem upmix_surrounds_antiphase sample_rate sosfilt stereo_frame left right :
  (forall x, length (sosfilt x) = length x) ->
  (0 <= sample_rate)%Z ->
  wf_ndarray stereo_frame = true ->
  get_column stereo_frame 0 = Some left ->
  get_column stereo_frame 1 = Some right ->
  exists output ls rs lb rb,
    upmix sample_rate "7.1" sosfilt stereo_frame = Some output /\
    get_column output 4 = Some ls /\ get_column output 5 = Some rs /\
    get_column output 6 = Some lb /\ get_column output 7 = Some rb /\
    (forall i, (i < nrows stereo_frame)%nat ->
       (nth i ls 0 + nth i rs 0 = 0)%R /\ (nth i lb 0 + nth i rb 0 = 0)%R) /\
    (left = right ->
     forall i, (i < nrows stereo_frame)%nat ->
       nth i ls 0%R = 0%R /\ nth i rs 0%R = 0%R /\
       nth i lb 0%R = 0%R /\ nth i rb 0%R = 0%R).
Proof.
  intros Hsos Hrate Hwf Hl Hr.
  destruct (upmix_result_samples sample_rate "7.1" sosfilt Hsos Hrate
              stereo_frame left right Hwf Hl Hr)
    as (ls & rs & lb & rb & Hup & _ & _ & _ & _ & _ & _ & Hnth).
  eexists. exists ls, rs, lb, rb. split; [exact Hup|].
  repeat (split; [reflexivity|]). split.
  - intros i Hi. destruct (Hnth i Hi) as (-> & -> & -> & ->).
    split; match goal with |- context [if ?b then _ else _] => destruct b end;
      rlra.
  - intros -> i Hi. destruct (Hnth i Hi) as (-> & -> & -> & ->).
    repeat split;
      match goal with |- context [if ?b then _ else _] => destruct b end;
      rlra.
Qed.

Lemma upmix_surrounds_antiphase_witness :
  (forall x : list R, length ((fun y => y) x) = length x) /\
  (0 <= 200)%Z /\
  wf_ndarray mono_test_frame = true /\
  get_column mono_test_frame 0 = Some [0.3; -0.3; 0.1]%R /\
  get_column mono_test_frame 1 = Some [0.3; -0.3; 0.1]%R /\
  exists output ls rs lb rb,
    upmix 200 "7.1" (fun y => y) mono_test_frame = Some output /\
    get_column output 4 = Some ls /\ get_column output 5 = Some rs /\
    get_column output 6 = Some lb /\ get_column output 7 = Some rb /\
    (forall i, (i < nrows mono_test_frame)%nat ->
       (nth i ls 0 + nth i rs 0 = 0)%R /\ (nth i lb 0 + nth i rb 0 = 0)%R) /\
    (forall i, (i < nrows mono_test_frame)%nat ->
       nth i ls 0%R = 0%R /\ nth i rs 0%R = 0%R /\
       nth i lb 0%R = 0%R /\ nth i rb 0%R = 0%R).
Proof.
  assert (H1 : forall x : list R, length ((fun y => y) x) = length x)
    by reflexivity.
  assert (H2 : (0 <= 200)%Z) by lia.
  assert (H3 : wf_ndarray mono_test_frame = true) by reflexivity.
  assert (H4 : get_column mono_test_frame 0 = Some [0.3; -0.3; 0.1]%R)
    by reflexivity.
  assert (H5 : get_column mono_test_frame 1 = Some [0.3; -0.3; 0.1]%R)
    by reflexivity.
  repeat (split; [assumption|]).
  destruct (upmix_surrounds_antiphase 200 (fun y => y) mono_test_frame
              _ _ H1 H2 H3 H4 H5)
    as (output & ls & rs & lb & rb & Ha & Hb & Hc & Hd & He & Hf & Hg).
  exists output, ls, rs, lb, rb. repeat (split; [assumption|]).
  exact (Hg eq_refl).
Defined.

(** X14. When the block is not longer than the side delay of
    floor (0.005 * sample_rate) samples, the delayed signals are cut off
    entirely: channels 4 and 5 are silent whatever the input, and so are
    channels 6 and 7 of an eight-channel result. *)
Theorem upmix_short_block_is_silent sample_rate format sosfilt stereo_frame
    left right :
  (forall x, length (sosfilt x) = length x) ->
  (0 <= sample_rate)%Z ->
  wf_ndarray stereo_frame = true ->
  get_column stereo_frame 0 = Some left ->
  get_column stereo_frame 1 = Some right ->
  (nrows stereo_frame <= Z.to_nat (Qfloor (0.005 * inject_Z sample_rate)))%nat ->
  exists output,
    upmix sample_rate format sosfilt stereo_frame = Some output /\
    get_column output 4 = Some (repeat 0%R (nrows stereo_frame)) /\
    get_column output 5 = Some (repeat 0%R (nrows stereo_frame)) /\
    (ncols output = 8%nat ->
     get_column output 6 = Some (repeat 0%R (nrows stereo_frame)) /\
     get_column output 7 = Some (repeat 0%R (nrows stereo_frame))).
Proof.
  intros Hsos Hrate Hwf Hl Hr Hshort.
  destruct (surround_delay_floor sample_rate Hrate) as [Hsd _].
  destruct (rear_delay_floor sample_rate Hrate) as [Hrd _].
  assert (Hle : (Qfloor (0.005 * inject_Z sample_rate)
                 <= Qfloor (0.010 * inject_Z sample_rate))%Z).
  { apply Qfloor_resp_le. pose proof (inject_Z_nonneg _ Hrate). qlra. }
  destruct (upmix_result_samples sample_rate format sosfilt Hsos Hrate
              stereo_frame left right Hwf Hl Hr)
    as (ls & rs & lb & rb & Hup & _ & _ & Hls & Hrs & Hlb & Hrb & Hnth).
  rewrite Hsd, Hrd in Hnth.
  assert (Hzero : forall sig, length sig = nrows stereo_frame ->
            (forall i, (i < nrows stereo_frame)%nat -> nth i sig 0%R = 0%R) ->
            sig = repeat 0%R (nrows stereo_frame)).
  { intros sig Hlen Hsig. apply (nth_ext _ _ 0%R 0%R).
    - rewrite repeat_length. assumption.
    - intros i Hi. rewrite nth_repeat. apply Hsig. lia. }
  assert (Hall : forall i, (i < nrows stereo_frame)%nat ->
            nth i ls 0%R = 0%R /\ nth i rs 0%R = 0%R /\
            nth i lb 0%R = 0%R /\ nth i rb 0%R = 0%R).
  { intros i Hi. destruct (Hnth i Hi) as (-> & -> & -> & ->).
    replace (i <? Z.to_nat (Qfloor (0.005 * inject_Z sample_rate)))%nat
      with true by (symmetry; apply Nat.ltb_lt; lia).
    replace (i <? Z.to_nat (Qfloor (0.010 * inject_Z sample_rate)))%nat
      with true by (symmetry; apply Nat.ltb_lt; lia).
    repeat split; reflexivity. }
  assert (Els : ls = repeat 0%R (nrows stereo_frame))
    by (apply Hzero; [assumption | intros i Hi; apply (Hall i Hi)]).
  assert (Ers : rs = repeat 0%R (nrows stereo_frame))
    by (apply Hzero; [assumption | intros i Hi; apply (Hall i Hi)]).
  assert (Elb : lb = repeat 0%R (nrows stereo_frame))
    by (apply Hzero; [assumption | intros i Hi; apply (Hall i Hi)]).
  assert (Erb : rb = repeat 0%R (nrows stereo_frame))
    by (apply Hzero; [assumption | intros i Hi; apply (Hall i Hi)]).
  subst ls rs lb rb.
  eexists. split; [exact Hup|]. repeat (split; [reflexivity|]).
  unfold ncols, get_column. cbn [columns].
  destruct (String.eqb format "7.1"); [intros _; split; reflexivity|].
  destruct (String.eqb format "5.1"); [discriminate|].
  intros _; split; reflexivity.
Qed.

Lemma upmix_short_block_is_silent_witness :
  (forall x : list R, length ((fun y => y) x) = length x) /\
  (0 <= 48000)%Z /\
  wf_ndarray stereo_test_frame = true /\
  get_column stereo_test_frame 0 = Some [1; 0.5; 0.25]%R /\
  get_column stereo_test_frame 1 = Some [0; 0.5; -0.25]%R /\
  (nrows stereo_test_frame <= Z.to_nat (Qfloor (0.005 * inject_Z 48000)))%nat /\
  exists output,
    upmix 48000 "7.1" (fun y => y) stereo_test_frame = Some output /\
    get_column output 4 = Some (repeat 0%R (nrows stereo_test_frame)) /\
    get_column output 5 = Some (repeat 0%R (nrows stereo_test_frame)) /\
    (ncols output = 8%nat ->
     get_column output 6 = Some (repeat 0%R (nrows stereo_test_frame)) /\
     get_column output 7 = Some (repeat 0%R (nrows stereo_test_frame))).
Proof.
  assert (H1 : forall x : list R, length ((fun y => y) x) = length x)
    by reflexivity.
  assert (H2 : (0 <= 48000)%Z) by lia.
  assert (H3 : wf_ndarray stereo_test_frame = true) by reflexivity.
  assert (H4 : get_column stereo_test_frame 0 = Some [1; 0.5; 0.25]%R)
    by reflexivity.
  assert (H5 : get_column stereo_test_frame 1 = Some [0; 0.5; -0.25]%R)
    by reflexivity.
  assert (H6 : (nrows stereo_test_frame
                <= Z.to_nat (Qfloor (0.005 * inject_Z 48000)))%nat)
    by (vm_compute; lia).
  repeat (split; [assumption|]).
  exact (upmix_short_block_is_silent 48000 "7.1" (fun y => y)
           stereo_test_frame _ _ H1 H2 H3 H4 H5 H6).
Defined.

(** X15. A format string other than 5.1 and 7.1 gives an eight-channel
    frame whose rear channels 6 and 7 stay silent. *)
Theorem upmix_other_format_has_silent_rears sample_rate format sosfilt
    stereo_frame left right :
  (forall x, length (sosfilt x) = length x) ->
  (0 <= sample_rate)%Z ->
  wf_ndarray stereo_frame = true ->
  get_column stereo_frame 0 = Some left ->
  get_column stereo_frame 1 = Some right ->
  format <> "5.1"%string -> format <> "7.1"%string ->
  exists output,
    upmix sample_rate format sosfilt stereo_frame = Some output /\
    ncols output = 8%nat /\
    get_column output 6 = Some (repeat 0%R (nrows stereo_frame)) /\
    get_column output 7 = Some (repeat 0%R (nrows stereo_frame)).
Proof.
  intros Hsos Hrate Hwf Hl Hr H51 H71.
  destruct (upmix_result_samples sample_rate format sosfilt Hsos Hrate
              stereo_frame left right Hwf Hl Hr)
    as (ls & rs & lb & rb & Hup & _).
  apply String.eqb_neq in H51, H71. rewrite H51, H71 in Hup.
  eexists. split; [exact Hup|]. repeat split; reflexivity.
Qed.

Lemma upmix_other_format_has_silent_rears_witness :
  (forall x : list R, length ((fun y => y) x) = length x) /\
  (0 <= 48000)%Z /\
  wf_ndarray stereo_test_frame = true /\
  get_column stereo_test_frame 0 = Some [1; 0.5; 0.25]%R /\
  get_column stereo_test_frame 1 = Some [0; 0.5; -0.25]%R /\
  "7.1ch"%string <> "5.1"%string /\ "7.1ch"%string <> "7.1"%string /\
  exists output,
    upmix 48000 "7.1ch" (fun y => y) stereo_test_frame = Some output /\
    ncols output = 8%nat /\
    get_column output 6 = Some (repeat 0%R (nrows stereo_test_frame)) /\
    get_column output 7 = Some (repeat 0%R (nrows stereo_test_frame)).
Proof.
  assert (H1 : forall x : list R, length ((fun y => y) x) = length x)
    by reflexivity.
  assert (H2 : (0 <= 48000)%Z) by lia.
  assert (H3 : wf_ndarray stereo_test_frame = true) by reflexivity.
  assert (H4 : get_column stereo_test_frame 0 = Some [1; 0.5; 0.25]%R)
    by reflexivity.
  assert (H5 : get_column stereo_test_frame 1 = Some [0; 0.5; -0.25]%R)
    by reflexivity.
  assert (H6 : "7.1ch"%string <> "5.1"%string) by discriminate.
  assert (H7 : "7.1ch"%string <> "7.1"%string) by discriminate.
  repeat (split; [assumption|]).
  exact (upmix_other_format_has_silent_rears 48000 "7.1ch" (fun y => y)
           stereo_test_frame _ _ H1 H2 H3 H4 H5 H6 H7).
Defined.

End UpmixerExtraClaims.

(** ** main.py: yaw smoothing and the constructor *)

From Stdlib Require Import Qpower.

Section SmoothingExtras.

Import AudioRotationApp.
Local Open Scope Q_scope.

Lemma Qpower_succ_nat s n :
  s ^ Z.of_nat (S n) == s * s ^ Z.of_nat n.
Proof.
  rewrite Nat2Z.inj_succ. unfold Z.succ. rewrite Z.add_comm.
  rewrite Qpower_plus' by lia. simpl (s ^ 1). reflexivity.
Qed.

Lemma convex_between f p y lo hi :
  0 <= f <= 1 -> lo <= p <= hi -> lo <= y <= hi ->
  lo <= f * p + (1 - f) * y <= hi.
Proof.
  intros [H0 H1] [Hp1 Hp2] [Hy1 Hy2].
  assert (A : lo * f <= p * f) by (apply Qmult_le_compat_r; assumption).
  assert (B : lo * (1 - f) <= y * (1 - f))
    by (apply Qmult_le_compat_r; [assumption | qlra]).
  assert (C : p * f <= hi * f) by (apply Qmult_le_compat_r; assumption).
  assert (D : y * (1 - f) <= hi * (1 - f))
    by (apply Qmult_le_compat_r; [assumption | qlra]).
  split; qlra.
Qed.

(** X16. With a smoothing factor between 0 and 1, [_smooth_yaw] stores and
    returns a value between the previous smoothed yaw and the new yaw, and
    the distance to the new yaw shrinks by exactly the smoothing factor. *)
Theorem smooth_yaw_stays_between a new_yaw :
  0 <= smoothing_factor a <= 1 ->
  let s := snd (_smooth_yaw a new_yaw) in
  smoothed_yaw (fst (_smooth_yaw a new_yaw)) = s /\
  (smoothed_yaw a <= new_yaw -> smoothed_yaw a <= s <= new_yaw) /\
  (new_yaw <= smoothed_yaw a -> new_yaw <= s <= smoothed_yaw a) /\
  s - new_yaw == smoothing_factor a * (smoothed_yaw a - new_yaw).
Proof.
  intros Hf s. split; [reflexivity|].
  unfold s, _smooth_yaw. cbn [snd].
  split; [|split; [|ring]]; intros Hle; apply convex_between;
    try assumption; split; qlra.
Qed.

Lemma smooth_yaw_stays_between_witness :
  0 <= smoothing_factor (init shipped_config None None None) <= 1 /\
  let a := init shipped_config None None None in
  let s := snd (_smooth_yaw a 90) in
  smoothed_yaw (fst (_smooth_yaw a 90)) = s /\
  (smoothed_yaw a <= 90 -> smoothed_yaw a <= s <= 90) /\
  (90 <= smoothed_yaw a -> 90 <= s <= smoothed_yaw a) /\
  s - 90 == smoothing_factor a * (smoothed_yaw a - 90).
Proof.
  assert (H : 0 <= smoothing_factor (init shipped_config None None None) <= 1)
    by (split; vm_compute; discriminate).
  split; [assumption|].
  exact (smooth_yaw_stays_between (init shipped_config None None None) 90 H).
Defined.

Lemma smooth_all_factor a yaws :
  smoothing_factor (smooth_all a yaws) = smoothing_factor a.
Proof.
  revert a. induction yaws as [|y rest IH]; intros a; simpl;
    [reflexivity | rewrite IH; reflexivity].
Qed.

(** X17. After [n] blocks with the same tracker yaw [y], the smoothed yaw
    differs from [y] by the initial difference times the [n]-th power of the
    smoothing factor. *)
Theorem smooth_yaw_converges_geometrically a (y : Q) (n : nat) :
  smoothed_yaw (smooth_all a (repeat y n)) - y
  == smoothing_factor a ^ Z.of_nat n * (smoothed_yaw a - y).
Proof.
  revert a. induction n as [|n IH]; intros a.
  - simpl. ring.
  - cbn [repeat smooth_all]. rewrite IH, Qpower_succ_nat.
    unfold _smooth_yaw. cbn [fst smoothing_factor smoothed_yaw]. ring.
Qed.

(** X18. The constructor treats a zero argument like a missing one: a
    smoothing factor of 0 is replaced by the configured one, so with a
    non-zero configuration the application never runs with smoothing factor,
    sample rate or block size 0; the smoothed yaw starts at 0. *)
Theorem init_never_disables_smoothing cfg sample_rate block_size smoothing :
  let a := init cfg sample_rate block_size smoothing in
  (~ SMOOTHING_FACTOR cfg == 0 -> ~ smoothing_factor a == 0) /\
  (smoothing = Some 0 -> smoothing_factor a = SMOOTHING_FACTOR cfg) /\
  (SAMPLE_RATE cfg <> 0%Z -> AudioRotationApp.sample_rate a <> 0%Z) /\
  (BLOCK_SIZE cfg <> 0%Z -> AudioRotationApp.block_size a <> 0%Z) /\
  smoothed_yaw a == 0.
Proof.
  intros a. unfold a, init. cbn [smoothing_factor AudioRotationApp.sample_rate
                                  AudioRotationApp.block_size smoothed_yaw].
  split; [|split; [|split; [|split]]].
  - intros Hcfg. unfold or_Q. destruct smoothing as [v|]; [|assumption].
    destruct (Qeq_bool v 0) eqn:E; [assumption|].
    apply Qeq_bool_neq in E. assumption.
  - intros ->. reflexivity.
  - intros Hcfg. unfold or_Z. destruct sample_rate as [v|]; [|assumption].
    destruct (v =? 0)%Z eqn:E; [assumption | apply Z.eqb_neq; assumption].
  - intros Hcfg. unfold or_Z. destruct block_size as [v|]; [|assumption].
    destruct (v =? 0)%Z eqn:E; [assumption | apply Z.eqb_neq; assumption].
  - reflexivity.
Qed.

Lemma init_never_disables_smoothing_witness :
  ~ SMOOTHING_FACTOR shipped_config == 0 /\
  ~ smoothing_factor (init shipped_config None None (Some 0)) == 0 /\
  smoothing_factor (init shipped_config None None (Some 0))
  = SMOOTHING_FACTOR shipped_config.
Proof.
  assert (H : ~ SMOOTHING_FACTOR shipped_config == 0)
    by (vm_compute; discriminate).
  split; [assumption|].
  destruct (init_never_disables_smoothing shipped_config None None (Some 0))
    as (H1 & H2 & _).
  split; [exact (H1 H) | exact (H2 eq_refl)].
Defined.

End SmoothingExtras.

(** ** main.py: the processing pipeline *)

Section PipelineExtras.

Import AudioRotationApp.
Local Open Scope Q_scope.

Lemma num_channels_agree format :
  StereoTo71Upmixer.num_channels format = SurroundRotator.num_channels format.
Proof. reflexivity. Qed.

Lemma fit_columns_id c a :
  ncols a = c -> AudioIO.fit_columns c a = a.
Proof.
  intros H. destruct a as [n cols]. unfold AudioIO.fit_columns, ncols in *.
  cbn [nrows columns] in *. rewrite firstn_all2 by lia.
  replace (c - length cols)%nat with 0%nat by lia.
  cbn [repeat]. rewrite app_nil_r. reflexivity.
Qed.

(** The stereo block cut from, or duplicated out of, a well-formed input. *)
Lemma stereo_input_ok indata :
  wf_ndarray indata = true -> (1 <= ncols indata)%nat ->
  exists stereo left right,
    AudioIO.stereo_input indata = Some stereo /\
    wf_ndarray stereo = true /\
    nrows stereo = nrows indata /\
    get_column stereo 0 = Some left /\
    get_column stereo 1 = Some right.
Proof.
  intros Hwf Hcols. unfold AudioIO.stereo_input.
  destruct indata as [n cols]. unfold ncols, wf_ndarray, get_column in *.
  cbn [nrows columns] in *.
  destruct cols as [|c0 [|c1 rest]]; cbn [length] in *; [lia| |].
  - cbn. exists (mk_ndarray n [c0; c0]), c0, c0.
    repeat split; try reflexivity.
    unfold wf_ndarray. cbn in *. apply andb_true_iff in Hwf.
    destruct Hwf as [-> _]. reflexivity.
  - cbn. exists (mk_ndarray n [c0; c1]), c0, c1.
    repeat split; try reflexivity.
    unfold wf_ndarray. cbn in *. apply andb_true_iff in Hwf.
    destruct Hwf as [-> Hwf]. apply andb_true_iff in Hwf.
    destruct Hwf as [-> _]. reflexivity.
Qed.

Variable sosfilt : list R -> list R.
Hypothesis sosfilt_length : forall x, length (sosfilt x) = length x.

(** What [audio_callback] returns for a stereo block, in either mode. *)
Lemma audio_callback_result a tracker_yaw stereo left right :
  consistent a ->
  (0 <= AudioRotationApp.sample_rate a)%Z ->
  wf_ndarray stereo = true ->
  get_column stereo 0 = Some left ->
  get_column stereo 1 = Some right ->
  exists out,
    snd (audio_callback sosfilt a tracker_yaw stereo) = Some out /\
    nrows out = nrows stereo /\
    ncols out = output_channels a /\
    wf_ndarray out = true /\
    (is_stereo_mode a = false ->
     get_column out 3
     = Some (sosfilt (StereoTo71Upmixer.vscale 0.5
                        (StereoTo71Upmixer.vadd left right)))).
Proof.
  intros Hcons Hrate Hwf Hl Hr.
  unfold audio_callback, _smooth_yaw. unfold consistent in Hcons.
  cbn [is_stereo_mode AudioRotationApp.sample_rate surround_format].
  destruct (is_stereo_mode a) eqn:Emode; cbn [snd].
  - destruct (stereo_rotate_result stereo left right
                (smoothing_factor a * smoothed_yaw a
                 + (1 - smoothing_factor a) * tracker_yaw) Hwf Hl Hr)
      as [Hmono Hrot].
    eexists. split; [exact Hrot|]. split; [reflexivity|].
    split; [rewrite Hcons; reflexivity|]. split; [|discriminate].
    unfold wf_ndarray. cbn [nrows columns forallb].
    cbv zeta in Hmono. rewrite length_map in Hmono.
    rewrite !length_map, Hmono, Nat.eqb_refl. reflexivity.
  - destruct (upmix_well_shaped (AudioRotationApp.sample_rate a)
                (surround_format a) sosfilt stereo left right
                sosfilt_length Hrate Hwf Hl Hr)
      as (surround & centre & Hup & Hrows & Hcols & Hwfs & Hc & Hlfe).
    rewrite Hup. cbn [bind].
    assert (Hwide : (SurroundRotator.num_channels (surround_format a)
                     <= ncols surround)%nat)
      by (rewrite Hcols; apply Nat.le_refl).
    destruct (rotate_columns (surround_format a) surround Hwfs Hwide
                (smoothing_factor a * smoothed_yaw a
                 + (1 - smoothing_factor a) * tracker_yaw))
      as (out & Hrot & Hro & Hco & Hwfo & Hsig).
    exists out. split; [assumption|]. split; [congruence|].
    split; [congruence|]. split; [assumption|]. intros _.
    rewrite (Hsig 3%nat)
      by (pose proof (num_channels_ge_6 (surround_format a)); lia).
    rewrite channel_signal_lfe, Hlfe. f_equal. f_equal.
    destruct (upmix_result_samples (AudioRotationApp.sample_rate a)
                (surround_format a) sosfilt sosfilt_length Hrate
                stereo left right Hwf Hl Hr)
      as (ls & rs & lb & rb & Hup' & _).
    rewrite Hup in Hup'. injection Hup' as ->.
    unfold get_column in Hc. cbn in Hc. congruence.
Qed.


Lemma init_consistent cfg sample_rate block_size smoothing :
  consistent (init cfg sample_rate block_size smoothing).
Proof.
  unfold consistent, init. cbn [output_channels is_stereo_mode surround_format].
  destruct (String.eqb (lower (SURROUND_FORMAT cfg)) "stereo"); reflexivity.
Qed.

Lemma smooth_all_fields a yaws :
  AudioRotationApp.sample_rate (smooth_all a yaws)
  = AudioRotationApp.sample_rate a /\
  is_stereo_mode (smooth_all a yaws) = is_stereo_mode a /\
  surround_format (smooth_all a yaws) = surround_format a /\
  output_channels (smooth_all a yaws) = output_channels a.
Proof.
  revert a. induction yaws as [|y rest IH]; intros a; cbn [smooth_all].
  - repeat split; reflexivity.
  - destruct (IH (fst (_smooth_yaw a y))) as (-> & -> & -> & ->).
    repeat split; reflexivity.
Qed.

Lemma smooth_all_consistent a yaws :
  consistent a -> consistent (smooth_all a yaws).
Proof.
  unfold consistent. destruct (smooth_all_fields a yaws) as (_ & -> & -> & ->).
  trivial.
Qed.

Lemma smooth_all_snoc a yaws y :
  smooth_all a (yaws ++ [y]) = fst (_smooth_yaw (smooth_all a yaws) y).
Proof.
  revert a. induction yaws as [|z rest IH]; intros a; cbn [List.app smooth_all];
    [reflexivity | apply IH].
Qed.

Lemma audio_callback_state a tracker_yaw stereo :
  fst (audio_callback sosfilt a tracker_yaw stereo)
  = fst (_smooth_yaw a tracker_yaw).
Proof.
  unfold audio_callback, _smooth_yaw.
  cbn [is_stereo_mode]. destruct (is_stereo_mode a); reflexivity.
Qed.

End PipelineExtras.

Section PipelineExtraClaims.

Import AudioRotationApp.
Local Open Scope Q_scope.

(** X19. In every state the application can reach, [audio_callback] returns
    for a stereo block a well-formed frame of the same length with exactly
    the channel count configured for the audio stream, and leaves the state
    reached by one more smoothing step; in surround mode the LFE channel of
    the result is the low-pass filtered mono mix (L + R) / 2, whatever the
    yaw. *)
Theorem audio_callback_delivers sosfilt cfg sample_rate block_size smoothing
    yaws tracker_yaw stereo left right :
  let a := smooth_all (init cfg sample_rate block_size smoothing) yaws in
  (forall x, length (sosfilt x) = length x) ->
  (0 <= AudioRotationApp.sample_rate a)%Z ->
  wf_ndarray stereo = true ->
  get_column stereo 0 = Some left ->
  get_column stereo 1 = Some right ->
  exists out,
    snd (audio_callback sosfilt a tracker_yaw stereo) = Some out /\
    nrows out = nrows stereo /\
    ncols out = output_channels a /\
    wf_ndarray out = true /\
    fst (audio_callback sosfilt a tracker_yaw stereo)
    = smooth_all (init cfg sample_rate block_size smoothing)
        (yaws ++ [tracker_yaw]) /\
    (is_stereo_mode a = false ->
     get_column out 3
     = Some (sosfilt (StereoTo71Upmixer.vscale 0.5
                        (StereoTo71Upmixer.vadd left right)))).
Proof.
  intros a Hsos Hrate Hwf Hl Hr.
  assert (Hcons : consistent a)
    by (apply smooth_all_consistent, init_consistent).
  destruct (audio_callback_result sosfilt Hsos a tracker_yaw stereo left right
              Hcons Hrate Hwf Hl Hr)
    as (out & Hout & Hrows & Hcols & Hwfo & Hlfe).
  exists out. repeat (split; [assumption|]). split; [|assumption].
  rewrite audio_callback_state. unfold a. symmetry. apply smooth_all_snoc.
Qed.

Lemma audio_callback_delivers_witness :
  let a := smooth_all (init shipped_config None None None) [10; 20] in
  (forall x : list R, length ((fun y => y) x) = length x) /\
  (0 <= AudioRotationApp.sample_rate a)%Z /\
  wf_ndarray stereo_test_frame = true /\
  get_column stereo_test_frame 0 = Some [1; 0.5; 0.25]%R /\
  get_column stereo_test_frame 1 = Some [0; 0.5; -0.25]%R /\
  exists out,
    snd (audio_callback (fun y => y) a 30 stereo_test_frame) = Some out /\
    nrows out = nrows stereo_test_frame /\
    ncols out = output_channels a /\
    wf_ndarray out = true /\
    fst (audio_callback (fun y => y) a 30 stereo_test_frame)
    = smooth_all (init shipped_config None None None) ([10; 20] ++ [30]) /\
    (is_stereo_mode a = false ->
     get_column out 3
     = Some ((fun y => y)
               (StereoTo71Upmixer.vscale 0.5
                  (StereoTo71Upmixer.vadd [1; 0.5; 0.25]%R
                     [0; 0.5; -0.25]%R)))).
Proof.
  intros a.
  assert (H1 : forall x : list R, length ((fun y => y) x) = length x)
    by reflexivity.
  assert (H2 : (0 <= AudioRotationApp.sample_rate a)%Z)
    by (vm_compute; discriminate).
  assert (H3 : wf_ndarray stereo_test_frame = true) by reflexivity.
  assert (H4 : get_column stereo_test_frame 0 = Some [1; 0.5; 0.25]%R)
    by reflexivity.
  assert (H5 : get_column stereo_test_frame 1 = Some [0; 0.5; -0.25]%R)
    by reflexivity.
  repeat (split; [assumption|]).
  exact (audio_callback_delivers (fun y => y) shipped_config None None None
           [10; 20] 30 stereo_test_frame _ _ H1 H2 H3 H4 H5).
Defined.

(** X20. With [audio_callback] installed as the processing callback, one
    stream block with a well-formed input of at least one channel and an
    output buffer of the configured shape prints no warning and no error,
    and the output buffer receives exactly the frame that [audio_callback]
    returns for the stereo block. *)
Theorem stream_block_delivers_rotated sosfilt cfg sample_rate block_size
    smoothing yaws tracker_yaw indata outdata frames status :
  let a := smooth_all (init cfg sample_rate block_size smoothing) yaws in
  (forall x, length (sosfilt x) = length x) ->
  (0 <= AudioRotationApp.sample_rate a)%Z ->
  wf_ndarray indata = true ->
  (1 <= ncols indata)%nat ->
  nrows indata = frames ->
  nrows outdata = frames ->
  ncols outdata = output_channels a ->
  exists stereo out,
    AudioIO.stereo_input indata = Some stereo /\
    snd (audio_callback sosfilt a tracker_yaw stereo) = Some out /\
    stream_block sosfilt a tracker_yaw indata outdata frames status
    = ((if status then [AudioIO.Audio_status] else []), out).
Proof.
  intros a Hsos Hrate Hwf Hcols Hin Hout Hoc.
  destruct (stereo_input_ok indata Hwf Hcols)
    as (stereo & left & right & Hst & Hwfs & Hrows & Hl & Hr).
  assert (Hcons : consistent a)
    by (apply smooth_all_consistent, init_consistent).
  destruct (audio_callback_result sosfilt Hsos a tracker_yaw stereo left right
              Hcons Hrate Hwfs Hl Hr)
    as (out & Hcb & Hro & Hco & _ & _).
  exists stereo, out. split; [assumption|]. split; [assumption|].
  unfold stream_block.
  pose proof (try_body_fit (output_channels a)
                (fun x => snd (audio_callback sosfilt a tracker_yaw x))
                indata outdata frames Hout Hoc stereo out Hst Hcb
                ltac:(congruence)) as Hfit.
  rewrite Hco, Nat.eqb_refl, (fit_columns_id _ _ Hco) in Hfit.
  rewrite (sd_callback_returned _ _ _ _ _ status _ _ Hfit).
  rewrite app_nil_r. reflexivity.
Qed.

Lemma stream_block_delivers_rotated_witness :
  let a := smooth_all (init shipped_config None None None) [] in
  (forall x : list R, length ((fun y => y) x) = length x) /\
  (0 <= AudioRotationApp.sample_rate a)%Z /\
  wf_ndarray stereo_test_frame = true /\
  (1 <= ncols stereo_test_frame)%nat /\
  nrows stereo_test_frame = 3%nat /\
  nrows (zeros 3 8) = 3%nat /\
  ncols (zeros 3 8) = output_channels a /\
  exists stereo out,
    AudioIO.stereo_input stereo_test_frame = Some stereo /\
    snd (audio_callback (fun y => y) a 30 stereo) = Some out /\
    stream_block (fun y => y) a 30 stereo_test_frame (zeros 3 8) 3 false
    = ([], out).
Proof.
  intros a.
  assert (H1 : forall x : list R, length ((fun y => y) x) = length x)
    by reflexivity.
  assert (H2 : (0 <= AudioRotationApp.sample_rate a)%Z)
    by (vm_compute; discriminate).
  assert (H3 : wf_ndarray stereo_test_frame = true) by reflexivity.
  assert (H4 : (1 <= ncols stereo_test_frame)%nat) by (vm_compute; lia).
  assert (H5 : nrows stereo_test_frame = 3%nat) by reflexivity.
  assert (H6 : nrows (zeros 3 8) = 3%nat) by reflexivity.
  assert (H7 : ncols (zeros 3 8) = output_channels a) by reflexivity.
  repeat (split; [assumption|]).
  exact (stream_block_delivers_rotated (fun y => y) shipped_config None None
           None [] 30 stereo_test_frame (zeros 3 8) 3 false
           H1 H2 H3 H4 H5 H6 H7).
Defined.

End PipelineExtraClaims.

(** ** openvr_tracker.py: TestTracker, and the mode selection of main.py *)

Section TrackerExtras.

Import TestTracker.
Local Open Scope Q_scope.

Variable math_sin : Q -> Q.

(** Two angles that differ by whole turns have the same remainder. *)
Lemma pymod_shift x x' (k : Z) :
  x' == x + 360 * inject_Z k -> pymod x' 360 == pymod x 360.
Proof.
  intros Hx.
  destruct (pymod_360 x') as (k1 & Hk1 & Hr1).
  destruct (pymod_360 x) as (k2 & Hk2 & Hr2).
  set (r1 := pymod x' 360) in *. set (r2 := pymod x 360) in *.
  assert (Hj : r1 - r2 == 360 * inject_Z (k - k1 + k2)).
  { unfold Zminus. rewrite !inject_Z_plus, inject_Z_opp. qlra. }
  assert (Hz : (k - k1 + k2 = 0)%Z) by (apply inject_Z_small; qlra).
  rewrite Hz in Hj. change (inject_Z 0) with 0 in Hj. qlra.
Qed.

Lemma tracking_loop_succ n s :
  tracking_loop math_sin (S n) s
  = tracking_step math_sin (tracking_loop math_sin n s).
Proof.
  revert s. induction n as [|n IH]; intros s; [reflexivity|].
  change (tracking_loop math_sin (S (S n)) s)
    with (tracking_loop math_sin (S n) (tracking_step math_sin s)).
  rewrite IH. reflexivity.
Qed.

Lemma tracking_loop_mode_time n s :
  mode (tracking_loop math_sin n s) = mode s /\
  time (tracking_loop math_sin n s)
  == time s + 0.02 * inject_Z (Z.of_nat n).
Proof.
  induction n as [|n [IHm IHt]].
  - split; [reflexivity|]. simpl. ring.
  - rewrite tracking_loop_succ. unfold tracking_step. cbn [mode time].
    split; [assumption|].
    rewrite IHt, Nat2Z.inj_succ. unfold Z.succ. rewrite inject_Z_plus.
    change (inject_Z 1) with 1. ring.
Qed.

Lemma tracking_loop_add n m s :
  tracking_loop math_sin (n + m) s
  = tracking_loop math_sin m (tracking_loop math_sin n s).
Proof.
  revert s. induction n as [|n IH]; intros s; [reflexivity|]. apply IH.
Qed.

(** X21. In rotate mode, after any positive number of loop iterations the
    yaw lies in [[0, 360)], it is 30 degrees per second of the time before
    the last increment taken modulo 360, the time has advanced by 0.02 per
    iteration, and the yaw repeats every 600 iterations. *)
Theorem rotate_mode_yaw s (n : nat) :
  mode s = "rotate"%string ->
  let s' := tracking_loop math_sin (S n) s in
  0 <= get_yaw s' < 360 /\
  get_yaw s'
  == pymod ((time s + 0.02 * inject_Z (Z.of_nat n)) * 30) 360 /\
  time s' == time s + 0.02 * inject_Z (Z.of_nat (S n)) /\
  get_yaw (tracking_loop math_sin (S n + 600) s) == get_yaw s'.
Proof.
  intros Hmode s'.
  assert (Hyaw : forall m,
            get_yaw (tracking_loop math_sin (S m) s)
            = pymod (time (tracking_loop math_sin m s) * 30) 360).
  { intros m. rewrite tracking_loop_succ. unfold tracking_step, get_yaw.
    cbn [yaw]. destruct (tracking_loop_mode_time m s) as [-> _].
    rewrite Hmode. reflexivity. }
  split; [|split; [|split]].
  - unfold s'. rewrite Hyaw. destruct (pymod_360
      (time (tracking_loop math_sin n s) * 30)) as (_ & _ & H). exact H.
  - unfold s'. rewrite Hyaw. apply (pymod_shift _ _ 0).
    destruct (tracking_loop_mode_time n s) as [_ ->].
    change (inject_Z 0) with 0. ring.
  - apply tracking_loop_mode_time.
  - unfold s'. change (S n + 600)%nat with (S (n + 600)). rewrite !Hyaw.
    apply (pymod_shift _ _ 1).
    destruct (tracking_loop_mode_time (n + 600) s) as [_ ->].
    destruct (tracking_loop_mode_time n s) as [_ ->].
    rewrite Nat2Z.inj_add, inject_Z_plus.
    change (inject_Z (Z.of_nat 600)) with 600. change (inject_Z 1) with 1.
    ring.
Qed.


(** X22. In sweep mode, with a sine bounded by 1 in absolute value, the yaw
    stays between -180 and 180 after any positive number of iterations. *)
Theorem sweep_mode_yaw_bounded s (n : nat) :
  (forall x, - (1) <= math_sin x <= 1) ->
  mode s = "sweep"%string ->
  - (180) <= get_yaw (tracking_loop math_sin (S n) s) <= 180.
Proof.
  intros Hsin Hmode. rewrite tracking_loop_succ.
  unfold tracking_step, get_yaw. cbn [yaw].
  destruct (tracking_loop_mode_time n s) as [-> _]. rewrite Hmode.
  cbn [String.eqb Ascii.eqb Bool.eqb].
  specialize (Hsin (time (tracking_loop math_sin n s) * 0.5)).
  set (v := math_sin _) in *. qlra.
Qed.

(** X23. In a mode other than rotate and sweep the loop never changes the
    yaw: the value given to [set_yaw] is what [get_yaw] returns after any
    number of iterations; and the static mode starts no tracking thread. *)
Theorem other_modes_keep_yaw s (yaw_degrees : Q) (n : nat) :
  mode s <> "rotate"%string -> mode s <> "sweep"%string ->
  get_yaw (tracking_loop math_sin n (set_yaw s yaw_degrees)) = yaw_degrees /\
  (mode s = "static"%string -> starts_thread (start s) = false).
Proof.
  intros Hr Hs. split.
  - induction n as [|n IH]; [reflexivity|].
    rewrite tracking_loop_succ. unfold tracking_step, get_yaw in *. cbn [yaw].
    destruct (tracking_loop_mode_time n (set_yaw s yaw_degrees)) as [-> _].
    cbn [set_yaw mode]. apply String.eqb_neq in Hr, Hs. rewrite Hr, Hs.
    exact IH.
  - intros Hm. unfold starts_thread, start. cbn [mode]. rewrite Hm. reflexivity.
Qed.

End TrackerExtras.

Section TrackerWitnesses.

Import TestTracker.
Local Open Scope Q_scope.

Lemma rotate_mode_yaw_witness :
  mode (init "rotate") = "rotate"%string /\
  let s' := tracking_loop (fun _ => 0) 5 (init "rotate") in
  0 <= get_yaw s' < 360 /\
  get_yaw s'
  == pymod ((time (init "rotate") + 0.02 * inject_Z (Z.of_nat 4)) * 30) 360 /\
  time s' == time (init "rotate") + 0.02 * inject_Z (Z.of_nat 5) /\
  get_yaw (tracking_loop (fun _ => 0) (5 + 600) (init "rotate")) == get_yaw s'.
Proof.
  assert (H : mode (init "rotate") = "rotate"%string) by reflexivity.
  split; [assumption|].
  exact (rotate_mode_yaw (fun _ => 0) (init "rotate") 4 H).
Defined.

Lemma sweep_mode_yaw_bounded_witness :
  (forall x : Q, - (1) <= (fun _ : Q => 1 # 2) x <= 1) /\
  mode (init "sweep") = "sweep"%string /\
  - (180) <= get_yaw (tracking_loop (fun _ => 1 # 2) 3 (init "sweep")) <= 180.
Proof.
  assert (H1 : forall x : Q, - (1) <= (fun _ : Q => 1 # 2) x <= 1)
    by (intros x; split; vm_compute; discriminate).
  assert (H2 : mode (init "sweep") = "sweep"%string) by reflexivity.
  repeat (split; [assumption|]).
  exact (sweep_mode_yaw_bounded (fun _ => 1 # 2) (init "sweep") 2 H1 H2).
Defined.

Lemma other_modes_keep_yaw_witness :
  mode (init "static") <> "rotate"%string /\
  mode (init "static") <> "sweep"%string /\
  get_yaw (tracking_loop (fun _ => 0) 7 (set_yaw (init "static") 45)) = 45 /\
  starts_thread (start (init "static")) = false.
Proof.
  assert (H1 : mode (init "static") <> "rotate"%string) by discriminate.
  assert (H2 : mode (init "static") <> "sweep"%string) by discriminate.
  repeat (split; [assumption|]).
  destruct (other_modes_keep_yaw (fun _ => 0) (init "static") 45 7 H1 H2)
    as [Ha Hb].
  split; [exact Ha | exact (Hb eq_refl)].
Defined.

End TrackerWitnesses.

Section ModeSelection.

Import AudioRotationApp.

(** X24. [create_tracker] accepts exactly the modes of the list that [main]
    validates against, and every mode that the menu of [select_mode] can
    return is in that list. *)
Theorem valid_modes_create_trackers mode choice :
  (In mode valid_modes <-> create_tracker mode <> None) /\
  (forall m, mode_of_choice choice = Some m -> In m valid_modes).
Proof.
  split.
  - unfold create_tracker, valid_modes.
    destruct (String.eqb mode "openvr") eqn:E1;
      [apply String.eqb_eq in E1; subst; split; [discriminate | simpl; tauto]|].
    destruct (String.eqb mode "test_rotate") eqn:E2;
      [apply String.eqb_eq in E2; subst; split; [discriminate | simpl; tauto]|].
    destruct (String.eqb mode "test_sweep") eqn:E3;
      [apply String.eqb_eq in E3; subst; split; [discriminate | simpl; tauto]|].
    destruct (String.eqb mode "test_static") eqn:E4;
      [apply String.eqb_eq in E4; subst; split; [discriminate | simpl; tauto]|].
    apply String.eqb_neq in E1, E2, E3, E4.
    split; [|intros H; exfalso; apply H; reflexivity].
    intros [H|[H|[H|[H|[]]]]]; exfalso; congruence.
  - intros m. unfold mode_of_choice, valid_modes.
    destruct (String.eqb choice "1"); [intros [= <-]; simpl; tauto|].
    destruct (String.eqb choice "2"); [intros [= <-]; simpl; tauto|].
    destruct (String.eqb choice "3"); [intros [= <-]; simpl; tauto|].
    destruct (String.eqb choice "4"); [intros [= <-]; simpl; tauto|].
    discriminate.
Qed.

Lemma valid_modes_create_trackers_witness :
  mode_of_choice "3" = Some "test_sweep"%string /\
  In "test_sweep"%string valid_modes /\
  create_tracker "test_sweep" <> None.
Proof.
  assert (H : mode_of_choice "3" = Some "test_sweep"%string) by reflexivity.
  split; [assumption|].
  destruct (valid_modes_create_trackers "test_sweep" "3") as [Ha Hb].
  split; [exact (Hb _ H) | exact (proj1 Ha (Hb _ H))].
Defined.

End ModeSelection.
